(** * Chibi Garden Guardians: the frame simulation of [game/entities.py]

    A shallow embedding of the entity model, the weapon firing logic, the
    collision pass and the wave spawner, followed by the properties of the
    specification that concern them.

    Conventions of the embedding:
    - Python [float] is read as a real number ([R]): rounding, infinities and
      NaN are not modelled.  Python [int] is [Z].
    - the pygame types that the simulation consumes ([Vector2], [Rect],
      [Color]) are modelled by their documented arithmetic;
    - the module-level collaborators (the [random] generator and the audio
      sink) are carried in the world state, as a stream of draws and a log of
      the sounds requested;
    - a Python exception leaving a method is an [outcome] of its own, with the
      state the method had mutated so far. *)

From Stdlib Require Import Reals Lra Lia ZArith List Bool String.
Import ListNotations.
Open Scope R_scope.

(** ** Numbers *)

Definition Rltb (a b : R) : bool := if Rlt_dec a b then true else false.
Definition Rleb (a b : R) : bool := if Rle_dec a b then true else false.
Definition Reqb (a b : R) : bool := if Req_dec_T a b then true else false.

(** Python's [int(x)] on a float: truncation towards zero. *)
Definition py_int (x : R) : Z :=
  if Rle_dec 0 x then Int_part x else (- Int_part (- x))%Z.

(** [range(n)] for an integer [n]; empty when [n <= 0]. *)
Definition range (n : Z) : list Z := map Z.of_nat (seq 0 (Z.to_nat n)).

(** ** pygame.math.Vector2 *)

Module Vector2.

Record t := make { x : R; y : R }.

Definition add (a b : t) : t := make (x a + x b) (y a + y b).
Definition sub (a b : t) : t := make (x a - x b) (y a - y b).
Definition scale (a : t) (k : R) : t := make (x a * k) (y a * k).
Definition length_squared (a : t) : R := x a * x a + y a * y a.
Definition length (a : t) : R := sqrt (length_squared a).

(** [normalize] raises on the zero vector; both call sites guard it with
    [length_squared() > 0], so only the guarded value is modelled. *)
Definition normalize (a : t) : t := make (x a / length a) (y a / length a).

Definition radians (deg : R) : R := deg * PI / 180.
Definition degrees (rad : R) : R := rad * 180 / PI.

(** The two-argument arctangent of the C library, in radians. *)
Definition atan2 (b a : R) : R :=
  if Rlt_dec 0 a then atan (b / a)
  else if Rlt_dec a 0 then
    (if Rle_dec 0 b then atan (b / a) + PI else atan (b / a) - PI)
  else if Rlt_dec 0 b then PI / 2
  else if Rlt_dec b 0 then - (PI / 2)
  else 0.

(** [a.angle_to(b)]: the angle of [b] minus the angle of [a], in degrees. *)
Definition angle_to (a b : t) : R :=
  degrees (atan2 (y b) (x b) - atan2 (y a) (x a)).

(** [a.rotate(deg)]: counter-clockwise rotation by [deg] degrees. *)
Definition rotate (a : t) (deg : R) : t :=
  let c := cos (radians deg) in
  let s := sin (radians deg) in
  make (c * x a - s * y a) (s * x a + c * y a).

Definition eq_dec (a b : t) : {a = b} + {a <> b}.
Proof. decide equality; apply Req_dec_T. Defined.

End Vector2.

(** ** pygame.Color and pygame.Rect *)

Module Color.

Record t := make { r : Z; g : Z; b : Z; a : Z }.

(** [pygame.Color(r, g, b)]: alpha defaults to 255. *)
Definition rgb (c : Z * Z * Z) : t :=
  let '(r0, g0, b0) := c in make r0 g0 b0 255.

Definition eq_dec (c d : t) : {c = d} + {c <> d}.
Proof. decide equality; apply Z.eq_dec. Defined.

End Color.

Module Rect.

Record t := make { x : Z; y : Z; w : Z; h : Z }.

Definition left (r : t) : Z := x r.
Definition top (r : t) : Z := y r.
Definition right (r : t) : Z := (x r + w r)%Z.
Definition bottom (r : t) : Z := (y r + h r)%Z.

(** [rect.center = v]: the coordinates are converted to C ints first. *)
Definition set_center (r : t) (c : Vector2.t) : t :=
  make (py_int (Vector2.x c) - Z.shiftr (w r) 1)
       (py_int (Vector2.y c) - Z.shiftr (h r) 1) (w r) (h r).

(** [rect.collidepoint(px, py)]: left and top edges inside, right and bottom
    edges outside; float arguments are converted to C ints. *)
Definition collidepoint (r : t) (px py : R) : bool :=
  let px := py_int px in
  let py := py_int py in
  ((x r <=? px) && (px <? x r + w r) && (y r <=? py) && (py <? y r + h r))%Z.

(** [a.colliderect(b)]: strict overlap; a rect without area hits nothing. *)
Definition colliderect (a b : t) : bool :=
  if ((w a =? 0) || (h a =? 0) || (w b =? 0) || (h b =? 0))%Z then false
  else
    ((Z.min (x a) (x a + w a) <? Z.max (x b) (x b + w b)) &&
     (Z.min (y a) (y a + h a) <? Z.max (y b) (y b + h b)) &&
     (Z.max (x a) (x a + w a) >? Z.min (x b) (x b + w b)) &&
     (Z.max (y a) (y a + h a) >? Z.min (y b) (y b + h b)))%Z.

End Rect.

(** ** The [random] module

    One generator for the process, modelled as a stream of draws from
    [[0, 1)] and a cursor; every library call consumes one draw. *)

Module Random.

Record t := make { draws : nat -> R; cursor : nat }.

Definition random (g : t) : R * t :=
  (draws g (cursor g), make (draws g) (S (cursor g))).

Definition uniform (a b : R) (g : t) : R * t :=
  let '(u, g) := random g in (a + (b - a) * u, g).

Definition randbelow (n : Z) (g : t) : Z * t :=
  let '(u, g) := random g in (Int_part (u * IZR n), g).

Definition randint (a b : Z) (g : t) : Z * t :=
  let '(k, g) := randbelow (b - a + 1) g in ((a + k)%Z, g).

Definition choice {A : Type} (l : list A) (d : A) (g : t) : A * t :=
  let '(k, g) := randbelow (Z.of_nat (List.length l)) g in
  (nth (Z.to_nat k) l d, g).

Fixpoint cumulative (acc : R) (ws : list R) : list R :=
  match ws with
  | [] => []
  | w :: ws' => (acc + w) :: cumulative (acc + w) ws'
  end.

(** [bisect(cum, v, 0, hi)]: the number of entries among the first [hi]
    that are [<= v] (the entries are in ascending order). *)
Fixpoint bisect (cum : list R) (v : R) (hi : nat) : nat :=
  match hi, cum with
  | S hi', c :: cum' => if Rleb c v then S (bisect cum' v hi') else 0%nat
  | _, _ => 0%nat
  end.

(** [choices(population, weights)[0]] *)
Definition choices {A : Type} (l : list A) (weights : list R) (d : A) (g : t)
  : A * t :=
  let cum := cumulative 0 weights in
  let total := last cum 0 in
  let '(u, g) := random g in
  (nth (bisect cum (u * total) (List.length l - 1)) l d, g).

End Random.

(** ** game/settings.py *)

Module settings.

Definition SCREEN_WIDTH : Z := 960.
Definition SCREEN_HEIGHT : Z := 540.
Definition PLAYER_SPEED : R := 240.

Record EnemyInfo := {
  e_speed : R; e_health : R; e_color : Z * Z * Z; e_size : Z }.

Record WeaponInfo := {
  w_color : Z * Z * Z; w_cooldown : R; w_bullet_speed : R;
  w_bullet_damage : R; w_spread : R; w_projectiles : Z;
  w_piercing : option Z }.

(** The dictionaries keep their insertion order. *)
Definition ENEMY_TYPES : list (string * EnemyInfo) :=
  [ ("Sproutling"%string,
      {| e_speed := 100; e_health := 30; e_color := (120, 255, 120)%Z;
         e_size := 26 |});
    ("Root Beast"%string,
      {| e_speed := 70; e_health := 60; e_color := (205, 120, 60)%Z;
         e_size := 36 |});
    ("Sporeshroom"%string,
      {| e_speed := 140; e_health := 25; e_color := (180, 160, 255)%Z;
         e_size := 22 |}) ].

Definition WEAPON_DEFS : list (string * WeaponInfo) :=
  [ ("Seed Blaster"%string,
      {| w_color := (255, 235, 120)%Z; w_cooldown := 0.25;
         w_bullet_speed := 520; w_bullet_damage := 15; w_spread := 0;
         w_projectiles := 1; w_piercing := None |});
    ("Thorn Fork"%string,
      {| w_color := (120, 255, 120)%Z; w_cooldown := 0.6;
         w_bullet_speed := 420; w_bullet_damage := 12; w_spread := 12;
         w_projectiles := 3; w_piercing := None |});
    ("Solar Beam"%string,
      {| w_color := (255, 180, 80)%Z; w_cooldown := 0.9;
         w_bullet_speed := 620; w_bullet_damage := 28; w_spread := 4;
         w_projectiles := 2; w_piercing := Some 1%Z |}) ].

Definition PARTICLE_COLORS : list (Z * Z * Z) :=
  [ (255, 180, 80); (255, 255, 160); (120, 255, 120); (180, 160, 255) ]%Z.

(** [d[key]]; [None] stands for [KeyError]. *)
Fixpoint lookup {A : Type} (d : list (string * A)) (key : string) : option A :=
  match d with
  | [] => None
  | (k, v) :: d' => if String.eqb k key then Some v else lookup d' key
  end.

End settings.

(** ** Entities *)

Module Particle.

Record t := make {
  position : Vector2.t; velocity : Vector2.t; color : Color.t;
  lifetime : R; radius : R }.

Definition update (p : t) (dt : R) : t :=
  make (Vector2.add (position p) (Vector2.scale (velocity p) dt))
       (velocity p) (color p)
       (lifetime p - dt)
       (Rmax 0 (radius p - 40 * dt)).

End Particle.

Module Bullet.

Record t := make {
  position : Vector2.t; velocity : Vector2.t; color : Color.t;
  damage : R; radius : R; pierce : Z; alive : bool }.

Definition set_position (v : Vector2.t) (b : t) : t :=
  make v (velocity b) (color b) (damage b) (radius b) (pierce b) (alive b).
Definition set_pierce (n : Z) (b : t) : t :=
  make (position b) (velocity b) (color b) (damage b) (radius b) n (alive b).
Definition set_alive (a : bool) (b : t) : t :=
  make (position b) (velocity b) (color b) (damage b) (radius b) (pierce b) a.

Definition update (b : t) (dt : R) (bounds : Rect.t) : t :=
  if negb (alive b) then b
  else
    let b := set_position
               (Vector2.add (position b) (Vector2.scale (velocity b) dt)) b in
    if negb (Rect.collidepoint bounds (Vector2.x (position b))
                                      (Vector2.y (position b)))
    then set_alive false b
    else b.

End Bullet.

Module Enemy.

Record t := make {
  position : Vector2.t; velocity : Vector2.t; speed : R; health : R;
  max_health : R; color : Color.t; size : Z; name : string }.

Definition set_health (v : R) (e : t) : t :=
  make (position e) (velocity e) (speed e) v (max_health e) (color e)
       (size e) (name e).

Definition update (e : t) (dt : R) (player_pos : Vector2.t) : t :=
  let direction := Vector2.sub player_pos (position e) in
  let direction :=
    if Rltb 0 (Vector2.length_squared direction)
    then Vector2.normalize direction else direction in
  let velocity := Vector2.scale direction (speed e) in
  make (Vector2.add (position e) (Vector2.scale velocity dt)) velocity
       (speed e) (health e) (max_health e) (color e) (size e) (name e).

Definition rect (e : t) : Rect.t :=
  Rect.make (py_int (Vector2.x (position e) - IZR (size e) / 2))
            (py_int (Vector2.y (position e) - IZR (size e) / 2))
            (size e) (size e).

Definition take_damage (e : t) (amount : R) : t :=
  set_health (health e - amount) e.

Definition is_dead (e : t) : bool := Rleb (health e) 0.

(** The [__eq__] that [@dataclass] generates: field by field.  (pygame
    compares two vectors up to a small epsilon; the comparison is taken to be
    exact here.) *)
Definition eq_dec (a b : t) : {a = b} + {a <> b}.
Proof.
  decide equality;
    first [ apply Req_dec_T | apply Z.eq_dec | apply string_dec
          | apply Vector2.eq_dec | apply Color.eq_dec ].
Defined.

Definition eqb (a b : t) : bool := if eq_dec a b then true else false.

End Enemy.

Module Weapon.

Record t := make {
  name : string; color : Color.t; cooldown : R; bullet_speed : R;
  bullet_damage : R; spread : R; projectiles : Z; pierce : Z; timer : R }.

Definition set_timer (v : R) (w : t) : t :=
  make (name w) (color w) (cooldown w) (bullet_speed w) (bullet_damage w)
       (spread w) (projectiles w) (pierce w) v.

(** The angle, in degrees, of shot number [i]. *)
Definition shot_angle (w : t) (base_angle : R) (i : Z) : R :=
  let spread_step :=
    if (1 <? projectiles w)%Z
    then spread w / IZR (Z.max 1 (projectiles w - 1)) else 0 in
  let start_angle := base_angle - spread w / 2 in
  start_angle + IZR i * spread_step.

(** The direction that [try_fire] aims along. *)
Definition aim (position target : Vector2.t) : Vector2.t :=
  let direction := Vector2.sub target position in
  if Reqb (Vector2.length_squared direction) 0
  then Vector2.make 1 0 else direction.

(** The body of the loop of [try_fire]: the bullet fired at [angle]. *)
Definition shot (w : t) (position : Vector2.t) (angle : R) : Bullet.t :=
  let vector := Vector2.rotate (Vector2.make 1 0) (- angle) in
  Bullet.make position (Vector2.scale vector (bullet_speed w))
              (color w) (bullet_damage w) 6 (pierce w) true.

(** [try_fire] returns the new bullets and leaves the timer in the weapon. *)
Definition try_fire (w : t) (position target : Vector2.t)
  : list Bullet.t * t :=
  if Rltb 0 (timer w) then ([], w)
  else
    let direction := aim position target in
    let base_angle := Vector2.angle_to direction (Vector2.make 1 0) in
    let bullets :=
      map (fun i => shot w position (shot_angle w base_angle i))
          (range (projectiles w)) in
    (bullets, set_timer (cooldown w) w).

Definition update (w : t) (dt : R) : t :=
  set_timer (Rmax 0 (timer w - dt)) w.

End Weapon.

(** [create_weapon(name)]; [None] stands for the [KeyError] of an unknown
    name. *)
Definition create_weapon (name : string) : option Weapon.t :=
  match settings.lookup settings.WEAPON_DEFS name with
  | None => None
  | Some info =>
      Some (Weapon.make name
              (Color.rgb (settings.w_color info))
              (settings.w_cooldown info)
              (settings.w_bullet_speed info)
              (settings.w_bullet_damage info)
              (settings.w_spread info)
              (settings.w_projectiles info)
              (match settings.w_piercing info with
               | Some n => n | None => 0%Z end)
              0)
  end.

(** The input provider: the held keys and the pointer, read once a frame. *)
Record Input := {
  K_w : bool; K_UP : bool; K_s : bool; K_DOWN : bool;
  K_a : bool; K_LEFT : bool; K_d : bool; K_RIGHT : bool;
  mouse_pos : Z * Z;
  mouse_pressed : bool }.

Module Player.

Record t := make {
  position : Vector2.t; speed : R; radius : Z; color : Color.t;
  weapon : option Weapon.t; health : Z }.

Definition set_position (v : Vector2.t) (p : t) : t :=
  make v (speed p) (radius p) (color p) (weapon p) (health p).
Definition set_weapon (w : option Weapon.t) (p : t) : t :=
  make (position p) (speed p) (radius p) (color p) w (health p).
Definition set_health (v : Z) (p : t) : t :=
  make (position p) (speed p) (radius p) (color p) (weapon p) v.

Definition handle_input (p : t) (keys : Input) (dt : R) : t :=
  let vy := 0 in
  let vx := 0 in
  let vy := if K_w keys || K_UP keys then vy - 1 else vy in
  let vy := if K_s keys || K_DOWN keys then vy + 1 else vy in
  let vx := if K_a keys || K_LEFT keys then vx - 1 else vx in
  let vx := if K_d keys || K_RIGHT keys then vx + 1 else vx in
  let velocity := Vector2.make vx vy in
  let velocity :=
    if Rltb 0 (Vector2.length_squared velocity)
    then Vector2.normalize velocity else velocity in
  set_position
    (Vector2.add (position p)
                 (Vector2.scale (Vector2.scale velocity (speed p)) dt)) p.

Definition keep_in_bounds (p : t) (bounds : Rect.t) : t :=
  let px :=
    Rmax (IZR (Rect.left bounds + radius p))
         (Rmin (IZR (Rect.right bounds - radius p)) (Vector2.x (position p))) in
  let py :=
    Rmax (IZR (Rect.top bounds + radius p))
         (Rmin (IZR (Rect.bottom bounds - radius p)) (Vector2.y (position p))) in
  set_position (Vector2.make px py) p.

End Player.

(** ** Exceptions *)

(** What a method call leaves behind: it returns, or a [ValueError] leaves it;
    either way the state holds every mutation made up to that point. *)
Inductive outcome (A : Type) : Type :=
| Returns (a : A)
| Raises (a : A).
Arguments Returns {A} a.
Arguments Raises {A} a.

(** Sequencing: an exception skips what follows. *)
Definition bind {A : Type} (m : outcome A) (f : A -> outcome A) : outcome A :=
  match m with
  | Returns a => f a
  | Raises a => Raises a
  end.

(** The state that the call leaves behind, returned or not. *)
Definition final {A : Type} (m : outcome A) : A :=
  match m with Returns a => a | Raises a => a end.

Definition returned {A : Type} (m : outcome A) : bool :=
  match m with Returns _ => true | Raises _ => false end.

(** ** GameWorld *)

Module GameWorld.

(** The attributes of [GameWorld], then the two collaborators of the process:
    the [random] generator and the sounds passed to [audio.play], latest
    last. *)
Record t := make {
  bounds : Rect.t;
  player : Player.t;
  enemies : list Enemy.t;
  bullets : list Bullet.t;
  particles : list Particle.t;
  elapsed : R;
  spawn_timer : R;
  spawn_interval : R;
  score : Z;
  weapon_name : option string;
  rng : Random.t;
  audio : list string }.

Definition set_player (v : Player.t) (s : t) : t :=
  make (bounds s) v (enemies s) (bullets s) (particles s) (elapsed s)
       (spawn_timer s) (spawn_interval s) (score s) (weapon_name s) (rng s)
       (audio s).
Definition set_enemies (v : list Enemy.t) (s : t) : t :=
  make (bounds s) (player s) v (bullets s) (particles s) (elapsed s)
       (spawn_timer s) (spawn_interval s) (score s) (weapon_name s) (rng s)
       (audio s).
Definition set_bullets (v : list Bullet.t) (s : t) : t :=
  make (bounds s) (player s) (enemies s) v (particles s) (elapsed s)
       (spawn_timer s) (spawn_interval s) (score s) (weapon_name s) (rng s)
       (audio s).
Definition set_particles (v : list Particle.t) (s : t) : t :=
  make (bounds s) (player s) (enemies s) (bullets s) v (elapsed s)
       (spawn_timer s) (spawn_interval s) (score s) (weapon_name s) (rng s)
       (audio s).
Definition set_elapsed (v : R) (s : t) : t :=
  make (bounds s) (player s) (enemies s) (bullets s) (particles s) v
       (spawn_timer s) (spawn_interval s) (score s) (weapon_name s) (rng s)
       (audio s).
Definition set_spawn_timer (v : R) (s : t) : t :=
  make (bounds s) (player s) (enemies s) (bullets s) (particles s) (elapsed s)
       v (spawn_interval s) (score s) (weapon_name s) (rng s) (audio s).
Definition set_score (v : Z) (s : t) : t :=
  make (bounds s) (player s) (enemies s) (bullets s) (particles s) (elapsed s)
       (spawn_timer s) (spawn_interval s) v (weapon_name s) (rng s) (audio s).
Definition set_weapon_name (v : option string) (s : t) : t :=
  make (bounds s) (player s) (enemies s) (bullets s) (particles s) (elapsed s)
       (spawn_timer s) (spawn_interval s) (score s) v (rng s) (audio s).
Definition set_rng (v : Random.t) (s : t) : t :=
  make (bounds s) (player s) (enemies s) (bullets s) (particles s) (elapsed s)
       (spawn_timer s) (spawn_interval s) (score s) (weapon_name s) v
       (audio s).

(** [audio.play(name)], seen from the world: a request handed to the sink. *)
Definition play (name : string) (s : t) : t :=
  make (bounds s) (player s) (enemies s) (bullets s) (particles s) (elapsed s)
       (spawn_timer s) (spawn_interval s) (score s) (weapon_name s) (rng s)
       (audio s ++ [name]).

(** [__init__] without a weapon name; [g] and [log] are the state of the
    collaborators when the world is built. *)
Definition init (g : Random.t) (log : list string) : t :=
  make (Rect.make 0 0 settings.SCREEN_WIDTH settings.SCREEN_HEIGHT)
       (Player.make
          (Vector2.make (IZR (settings.SCREEN_WIDTH / 2))
                        (IZR (settings.SCREEN_HEIGHT / 2)))
          settings.PLAYER_SPEED 24 (Color.make 120 200 120 255) None 100)
       [] [] [] 0 0 1.4 0 None g log.

Definition set_weapon (weapon : Weapon.t) (s : t) : t :=
  let s := set_weapon_name (Some (Weapon.name weapon)) s in
  set_player (Player.set_weapon (Some weapon) (player s)) s.

(** [None] stands for the [KeyError] of [create_weapon]. *)
Definition set_weapon_by_name (name : string) (s : t) : option t :=
  match create_weapon name with
  | Some w => Some (set_weapon w s)
  | None => None
  end.

(** [GameWorld(weapon_name)]: an empty name counts as no name. *)
Definition new (weapon_name : option string) (g : Random.t)
  (log : list string) : option t :=
  match weapon_name with
  | None => Some (init g log)
  | Some n =>
      if String.eqb n EmptyString then Some (init g log)
      else set_weapon_by_name n (init g log)
  end.

(** The twelve particles of one burst, each from five draws in the order the
    source makes them. *)
Fixpoint burst (n : nat) (position : Vector2.t) (palette : list (Z * Z * Z))
  (g : Random.t) : list Particle.t * Random.t :=
  match n with
  | O => ([], g)
  | S n' =>
      let '(vx, g) := Random.uniform (-120) 120 g in
      let '(vy, g) := Random.uniform (-120) 120 g in
      let '(particle_color, g) := Random.choice palette (0, 0, 0)%Z g in
      let '(lifetime, g) := Random.uniform 0.2 0.6 g in
      let '(radius, g) := Random.uniform 2 6 g in
      let particle :=
        Particle.make position (Vector2.make vx vy)
                      (Color.rgb particle_color) lifetime radius in
      let '(rest, g) := burst n' position palette g in
      (particle :: rest, g)
  end.

Definition spawn_particles (position : Vector2.t) (color : Color.t) (s : t)
  : t :=
  let palette :=
    settings.PARTICLE_COLORS ++ [(Color.r color, Color.g color, Color.b color)]
  in
  let made := burst 12 position palette (rng s) in
  set_rng (snd made) (set_particles (particles s ++ fst made) s).

Definition default_enemy_info : settings.EnemyInfo :=
  {| settings.e_speed := 0; settings.e_health := 0;
     settings.e_color := (0, 0, 0)%Z; settings.e_size := 0 |}.

(** One enemy of a wave: its type, its edge, its place along the edge. *)
Definition spawn_one (s : t) : t :=
  let g := rng s in
  let '(type_name, g) :=
    Random.choices (map fst settings.ENEMY_TYPES) [0.5; 0.3; 0.2]
                   EmptyString g in
  let info :=
    match settings.lookup settings.ENEMY_TYPES type_name with
    | Some i => i | None => default_enemy_info end in
  let size := settings.e_size info in
  let '(spawn_edge, g) :=
    Random.choice ["top"; "bottom"; "left"; "right"]%string EmptyString g in
  let '(pos, g) :=
    if String.eqb spawn_edge "top" then
      let '(k, g) := Random.randint 0 settings.SCREEN_WIDTH g in
      (Vector2.make (IZR k) (IZR (- size)), g)
    else if String.eqb spawn_edge "bottom" then
      let '(k, g) := Random.randint 0 settings.SCREEN_WIDTH g in
      (Vector2.make (IZR k) (IZR (settings.SCREEN_HEIGHT + size)), g)
    else if String.eqb spawn_edge "left" then
      let '(k, g) := Random.randint 0 settings.SCREEN_HEIGHT g in
      (Vector2.make (IZR (- size)) (IZR k), g)
    else
      let '(k, g) := Random.randint 0 settings.SCREEN_HEIGHT g in
      (Vector2.make (IZR (settings.SCREEN_WIDTH + size)) (IZR k), g) in
  let enemy :=
    Enemy.make pos (Vector2.make 0 0) (settings.e_speed info)
               (settings.e_health info) (settings.e_health info)
               (Color.rgb (settings.e_color info)) size type_name in
  set_rng g (set_enemies (enemies s ++ [enemy]) s).

Fixpoint spawn_many (n : nat) (s : t) : t :=
  match n with
  | O => s
  | S n' => spawn_many n' (spawn_one s)
  end.

Definition spawn_enemy_wave (s : t) : t :=
  let spawn_count := (1 + Int_part (elapsed s / 12))%Z in
  spawn_many (Z.to_nat spawn_count) s.

(** *** The collision pass

    [handle_collisions] walks [list(self.enemies)], a snapshot, while it
    removes from [self.enemies] itself.  Both lists hold the same objects, so
    an enemy is given its index in the snapshot as its identity: [live] is
    [self.enemies] during the pass, and damage dealt to the enemy at hand is
    written through to its entry there.  (The enemies of the world are taken
    to be distinct objects, as [spawn_enemy_wave] makes them.) *)

Record Pass := mkPass { world : t; live : list (nat * Enemy.t) }.

Definition write (i : nat) (e : Enemy.t) (l : list (nat * Enemy.t))
  : list (nat * Enemy.t) :=
  map (fun p => if Nat.eqb (fst p) i then (fst p, e) else p) l.

(** [enemy in self.enemies] *)
Definition contains (e : Enemy.t) (l : list (nat * Enemy.t)) : bool :=
  existsb (fun p => Enemy.eqb (snd p) e) l.

(** [self.enemies.remove(enemy)]: the first entry equal to [enemy] goes;
    [None] stands for the [ValueError] raised when there is none. *)
Fixpoint remove (e : Enemy.t) (l : list (nat * Enemy.t))
  : option (list (nat * Enemy.t)) :=
  match l with
  | [] => None
  | p :: l' =>
      if Enemy.eqb (snd p) e then Some l'
      else option_map (cons p) (remove e l')
  end.

(** The test of the bullet loop. *)
Definition hits (r : Rect.t) (b : Bullet.t) : bool :=
  Bullet.alive b &&
  Rect.collidepoint r (Vector2.x (Bullet.position b))
                      (Vector2.y (Bullet.position b)).

(** The first bullet of the list that passes the test, with its index: the
    only one whose loop body runs, since the body ends in [break]. *)
Fixpoint first_hit (r : Rect.t) (bs : list Bullet.t)
  : option (nat * Bullet.t) :=
  match bs with
  | [] => None
  | b :: bs' =>
      if hits r b then Some (O, b)
      else match first_hit r bs' with
           | Some (k, b') => Some (S k, b')
           | None => None
           end
  end.

Fixpoint replace (k : nat) (b : Bullet.t) (bs : list Bullet.t)
  : list Bullet.t :=
  match bs, k with
  | [], _ => []
  | _ :: bs', O => b :: bs'
  | b0 :: bs', S k' => b0 :: replace k' b bs'
  end.

(** What a hit does to the bullet. *)
Definition spend (bullet : Bullet.t) : Bullet.t :=
  if (0 <? Bullet.pierce bullet)%Z
  then Bullet.set_pierce (Bullet.pierce bullet - 1) bullet
  else Bullet.set_alive false bullet.

(** The player-contact check for one enemy.  [remove] cannot fail behind the
    [in] test, so the [ValueError] branch is not given an outcome. *)
Definition contact_check (player_rect : Rect.t) (i : nat) (enemy : Enemy.t)
  (p : Pass) : Enemy.t * Pass :=
  if Rect.colliderect (Enemy.rect enemy) player_rect then
    let s := world p in
    let s :=
      set_player
        (Player.set_health (Player.health (player s) - 10) (player s)) s in
    let s := spawn_particles (Enemy.position enemy) (Enemy.color enemy) s in
    let s := play "hit" s in
    let enemy := Enemy.take_damage enemy (Enemy.health enemy) in
    let l := write i enemy (live p) in
    if Enemy.is_dead enemy && contains enemy l then
      (enemy, mkPass s (match remove enemy l with Some l' => l' | None => l end))
    else (enemy, mkPass s l)
  else (enemy, p).

(** The bullet loop for one enemy. *)
Definition bullet_check (i : nat) (enemy : Enemy.t) (p : Pass)
  : outcome Pass :=
  let s := world p in
  match first_hit (Enemy.rect enemy) (bullets s) with
  | None => Returns p
  | Some (k, bullet) =>
      let enemy := Enemy.take_damage enemy (Bullet.damage bullet) in
      let l := write i enemy (live p) in
      let s :=
        spawn_particles (Bullet.position bullet) (Bullet.color bullet) s in
      let s := play "hit" s in
      let killed :=
        if Enemy.is_dead enemy then
          let s := set_score (score s + 5) s in
          let s :=
            spawn_particles (Enemy.position enemy) (Enemy.color enemy) s in
          match remove enemy l with
          | Some l' => Returns (mkPass s l')
          | None => Raises (mkPass s l)
          end
        else Returns (mkPass s l) in
      bind killed (fun p =>
        let s := world p in
        Returns (mkPass (set_bullets (replace k (spend bullet) (bullets s)) s)
                        (live p)))
  end.

Definition per_enemy (player_rect : Rect.t) (i : nat) (enemy : Enemy.t)
  (p : Pass) : outcome Pass :=
  let '(enemy, p) := contact_check player_rect i enemy p in
  bullet_check i enemy p.

Fixpoint enemy_loop (player_rect : Rect.t) (snapshot : list (nat * Enemy.t))
  (p : Pass) : outcome Pass :=
  match snapshot with
  | [] => Returns p
  | (i, enemy) :: rest =>
      bind (per_enemy player_rect i enemy p) (enemy_loop player_rect rest)
  end.

(** [self.enemies] as the pass leaves it. *)
Definition sync (p : Pass) : t := set_enemies (map snd (live p)) (world p).

Definition player_rect (s : t) : Rect.t :=
  Rect.set_center
    (Rect.make 0 0 (Player.radius (player s) * 2) (Player.radius (player s) * 2))
    (Player.position (player s)).

Definition snapshot (s : t) : list (nat * Enemy.t) :=
  combine (seq 0 (List.length (enemies s))) (enemies s).

Definition clamp_health (s : t) : t :=
  if (Player.health (player s) <=? 0)%Z
  then set_player (Player.set_health 0 (player s)) s
  else s.

Definition handle_collisions (s : t) : outcome t :=
  match enemy_loop (player_rect s) (snapshot s) (mkPass s (snapshot s)) with
  | Returns p => Returns (clamp_health (sync p))
  | Raises p => Raises (sync p)
  end.

(** *** One frame *)

(** The firing block of [update]. *)
Definition fire (keys : Input) (s : t) : t :=
  let mouse :=
    Vector2.make (IZR (fst (mouse_pos keys))) (IZR (snd (mouse_pos keys))) in
  match Player.weapon (player s) with
  | Some weapon =>
      if mouse_pressed keys && (0 <? Player.health (player s))%Z then
        let '(new_bullets, weapon) :=
          Weapon.try_fire weapon (Player.position (player s)) mouse in
        let s := set_player (Player.set_weapon (Some weapon) (player s)) s in
        match new_bullets with
        | [] => s
        | _ :: _ => play "shoot" (set_bullets (bullets s ++ new_bullets) s)
        end
      else s
  | None => s
  end.

(** [update] up to the call of [handle_collisions]. *)
Definition advance (dt : R) (keys : Input) (s : t) : t :=
  let s := set_elapsed (elapsed s + dt) s in
  let s := set_player (Player.handle_input (player s) keys dt) s in
  let s := set_player (Player.keep_in_bounds (player s) (bounds s)) s in
  let s :=
    match Player.weapon (player s) with
    | Some weapon =>
        set_player
          (Player.set_weapon (Some (Weapon.update weapon dt)) (player s)) s
    | None => s
    end in
  let s := fire keys s in
  let s :=
    set_bullets (map (fun b => Bullet.update b dt (bounds s)) (bullets s)) s in
  let s := set_bullets (filter Bullet.alive (bullets s)) s in
  set_enemies
    (map (fun e => Enemy.update e dt (Player.position (player s))) (enemies s))
    s.

(** The reset value of the spawn timer. *)
Definition next_spawn (s : t) : R :=
  Rmax 0.4 (spawn_interval s - elapsed s * 0.01).

(** [update] after [handle_collisions] has returned. *)
Definition settle (dt : R) (s : t) : t :=
  let s := set_particles (map (fun p => Particle.update p dt) (particles s)) s in
  let s :=
    set_particles
      (filter (fun p => Rltb 0 (Particle.lifetime p) &&
                        Rltb 0 (Particle.radius p)) (particles s)) s in
  let player_alive := (0 <? Player.health (player s))%Z in
  if negb player_alive then s
  else
    let s := set_spawn_timer (spawn_timer s - dt) s in
    if Rleb (spawn_timer s) 0 then
      let s := spawn_enemy_wave s in
      set_spawn_timer (next_spawn s) s
    else s.

Definition update (s : t) (dt : R) (keys : Input) : outcome t :=
  bind (handle_collisions (advance dt keys s))
       (fun s => Returns (settle dt s)).

(** [reset]: a fresh world with the weapon kept. *)
Definition reset (s : t) : option t :=
  match new (weapon_name s) (rng s) (audio s) with
  | Some s' =>
      match weapon_name s with
      | Some n => Some (if String.eqb n EmptyString then s' else play "power" s')
      | None => Some s'
      end
  | None => None
  end.

End GameWorld.

(** ** Sample data *)

Module Samples.

Definition origin : Vector2.t := Vector2.make 0 0.
Definition east : Vector2.t := Vector2.make 1 0.

(** The weapons of [settings.WEAPON_DEFS], as [create_weapon] builds them. *)
Definition seed_blaster : Weapon.t :=
  Weapon.make "Seed Blaster" (Color.make 255 235 120 255) 0.25 520 15 0 1 0 0.
Definition thorn_fork : Weapon.t :=
  Weapon.make "Thorn Fork" (Color.make 120 255 120 255) 0.6 420 12 12 3 0 0.
Definition solar_beam : Weapon.t :=
  Weapon.make "Solar Beam" (Color.make 255 180 80 255) 0.9 620 28 4 2 1 0.

(** The Seed Blaster right after a shot. *)
Definition seed_blaster_hot : Weapon.t :=
  Weapon.set_timer (Weapon.cooldown seed_blaster) seed_blaster.

(** A Thorn Fork cut down to one projectile, its spread kept. *)
Definition lone_fork : Weapon.t :=
  Weapon.make "Thorn Fork" (Color.make 120 255 120 255) 0.6 420 12 12 1 0 0.

End Samples.

(** ** Frames in sequence *)

(** The main loop calls [update] once a frame; an exception ends the run. *)
Fixpoint run (s : GameWorld.t) (frames : list (R * Input))
  : outcome GameWorld.t :=
  match frames with
  | [] => Returns s
  | (dt, keys) :: rest =>
      bind (GameWorld.update s dt keys) (fun s' => run s' rest)
  end.

(** [extends P l l']: [l'] is [l] with entries appended that all satisfy [P]. *)
Definition extends {A : Type} (P : A -> Prop) (l l' : list A) : Prop :=
  exists extra, l' = l ++ extra /\ Forall P extra.

(** What the collision pass keeps of the world: the clock and the spawner,
    the player apart from its health, the bullets apart from their [pierce]
    and [alive] marks; the score only grows, and the only sounds are hits. *)
Record quiet (s s' : GameWorld.t) : Prop := {
  q_bounds : GameWorld.bounds s' = GameWorld.bounds s;
  q_elapsed : GameWorld.elapsed s' = GameWorld.elapsed s;
  q_spawn_timer : GameWorld.spawn_timer s' = GameWorld.spawn_timer s;
  q_spawn_interval : GameWorld.spawn_interval s' = GameWorld.spawn_interval s;
  q_weapon_name : GameWorld.weapon_name s' = GameWorld.weapon_name s;
  q_position :
    Player.position (GameWorld.player s')
    = Player.position (GameWorld.player s);
  q_radius :
    Player.radius (GameWorld.player s') = Player.radius (GameWorld.player s);
  q_weapon :
    Player.weapon (GameWorld.player s') = Player.weapon (GameWorld.player s);
  q_health :
    (Player.health (GameWorld.player s')
     <= Player.health (GameWorld.player s))%Z;
  q_score : (GameWorld.score s <= GameWorld.score s')%Z;
  q_bullets :
    map Bullet.position (GameWorld.bullets s')
    = map Bullet.position (GameWorld.bullets s);
  q_audio :
    extends (fun n => n = "hit"%string) (GameWorld.audio s) (GameWorld.audio s');
  q_particles :
    extends (fun _ => True) (GameWorld.particles s) (GameWorld.particles s') }.

(** [cosmetic sounds n s s']: [s'] is [s] with the sounds [sounds] requested
    and [n] particles added, and nothing else changed but the generator. *)
Record cosmetic (sounds : list string) (n : nat) (s s' : GameWorld.t)
  : Prop := {
  c_bounds : GameWorld.bounds s' = GameWorld.bounds s;
  c_player : GameWorld.player s' = GameWorld.player s;
  c_enemies : GameWorld.enemies s' = GameWorld.enemies s;
  c_bullets : GameWorld.bullets s' = GameWorld.bullets s;
  c_elapsed : GameWorld.elapsed s' = GameWorld.elapsed s;
  c_spawn_timer : GameWorld.spawn_timer s' = GameWorld.spawn_timer s;
  c_spawn_interval :
    GameWorld.spawn_interval s' = GameWorld.spawn_interval s;
  c_score : GameWorld.score s' = GameWorld.score s;
  c_weapon_name : GameWorld.weapon_name s' = GameWorld.weapon_name s;
  c_audio : GameWorld.audio s' = GameWorld.audio s ++ sounds;
  c_particles :
    exists ps,
      GameWorld.particles s' = GameWorld.particles s ++ ps /\
      List.length ps = n }.

(** The test of the player-contact check, on an entry of the snapshot. *)
Definition touches (pr : Rect.t) (q : nat * Enemy.t) : bool :=
  Rect.colliderect (Enemy.rect (snd q)) pr.

(** An idle input: no key held, the pointer in the corner. *)
Definition idle : Input :=
  {| K_w := false; K_UP := false; K_s := false; K_DOWN := false;
     K_a := false; K_LEFT := false; K_d := false; K_RIGHT := false;
     mouse_pos := (0, 0)%Z; mouse_pressed := false |}.

(** The same with the fire button held. *)
Definition firing : Input :=
  {| K_w := false; K_UP := false; K_s := false; K_DOWN := false;
     K_a := false; K_LEFT := false; K_d := false; K_RIGHT := false;
     mouse_pos := (0, 0)%Z; mouse_pressed := true |}.

(** ** Sample worlds *)

Module Scenes.

(** A generator whose draws are all 0. *)
Definition still : Random.t := Random.make (fun _ => 0) 0.

(** [GameWorld()] *)
Definition fresh : GameWorld.t := GameWorld.init still [].

(** One frame at 60 frames a second, no input. *)
Definition tick : R := 1 / 60.
Definition one_frame : list (R * Input) := [(tick, idle)].

Definition arena : Rect.t :=
  Rect.make 0 0 settings.SCREEN_WIDTH settings.SCREEN_HEIGHT.

Definition centre : Vector2.t := Vector2.make 480 270.

Definition hero (weapon : option Weapon.t) (health : Z) : Player.t :=
  Player.make centre settings.PLAYER_SPEED 24 (Color.make 120 200 120 255)
              weapon health.

(** The enemies of [settings.ENEMY_TYPES], as [spawn_enemy_wave] builds
    them, placed at a point of the arena. *)
Definition sproutling (position : Vector2.t) : Enemy.t :=
  Enemy.make position (Vector2.make 0 0) 100 30 30
             (Color.make 120 255 120 255) 26 "Sproutling".
Definition root_beast (position : Vector2.t) : Enemy.t :=
  Enemy.make position (Vector2.make 0 0) 70 60 60
             (Color.make 205 120 60 255) 36 "Root Beast".

(** A bullet of the weapon, in flight at a point. *)
Definition bullet_of (w : Weapon.t) (position : Vector2.t) : Bullet.t :=
  Bullet.make position (Vector2.make (Weapon.bullet_speed w) 0)
              (Weapon.color w) (Weapon.bullet_damage w) 6 (Weapon.pierce w)
              true.

Definition seed : Bullet.t := bullet_of Samples.seed_blaster centre.

(** A Sproutling has reached the player, and a seed is inside it. *)
Definition ambush : GameWorld.t :=
  GameWorld.make arena (hero (Some Samples.seed_blaster) 100)
                 [sproutling centre] [seed] [] 30 1 1.4 0
                 (Some "Seed Blaster"%string) still [].

(** Three Sproutlings on a player with 20 health left; no bullet around. *)
Definition crowd : GameWorld.t :=
  GameWorld.make arena (hero (Some Samples.seed_blaster) 20)
                 [sproutling (Vector2.make 470 270); sproutling centre;
                  sproutling (Vector2.make 490 270)]
                 [] [] 30 1 1.4 0 (Some "Seed Blaster"%string) still [].

(** The player is dead; the weapon is ready and a seed is still in flight. *)
Definition fallen : GameWorld.t :=
  GameWorld.make arena (hero (Some Samples.seed_blaster) 0)
                 [sproutling (Vector2.make 100 100)] [seed] [] 30 1 1.4 15
                 (Some "Seed Blaster"%string) still [].

(** A Sproutling has reached a player with 10 health left; no bullet is in
    flight and the spawn timer has run out. *)
Definition last_stand : GameWorld.t :=
  GameWorld.make arena (hero (Some Samples.seed_blaster) 10)
                 [sproutling centre] [] [] 30 0 1.4 0
                 (Some "Seed Blaster"%string) still [].

(** Two Root Beasts away from the player, a Solar Beam bullet inside both. *)
Definition beam : Bullet.t :=
  bullet_of Samples.solar_beam (Vector2.make 102 100).
Definition beast1 : Enemy.t := root_beast (Vector2.make 100 100).
Definition beast2 : Enemy.t := root_beast (Vector2.make 105 100).
Definition hunt : GameWorld.t :=
  GameWorld.make arena (hero (Some Samples.solar_beam) 100)
                 [beast1; beast2] [beam] [] 30 1 1.4 0
                 (Some "Solar Beam"%string) still [].

End Scenes.

(** ** Sample inputs *)

Module Inputs.

(** W and D held: up and to the right. *)
Definition north_east : Input :=
  {| K_w := true; K_UP := false; K_s := false; K_DOWN := false;
     K_a := false; K_LEFT := false; K_d := true; K_RIGHT := false;
     mouse_pos := (0, 0)%Z; mouse_pressed := false |}.

(** A and the right arrow held: the two cancel. *)
Definition torn : Input :=
  {| K_w := false; K_UP := false; K_s := false; K_DOWN := false;
     K_a := true; K_LEFT := false; K_d := false; K_RIGHT := true;
     mouse_pos := (0, 0)%Z; mouse_pressed := false |}.

(** The down arrow alone. *)
Definition south : Input :=
  {| K_w := false; K_UP := false; K_s := false; K_DOWN := true;
     K_a := false; K_LEFT := false; K_d := false; K_RIGHT := false;
     mouse_pos := (0, 0)%Z; mouse_pressed := false |}.

(** The A key alone. *)
Definition west : Input :=
  {| K_w := false; K_UP := false; K_s := false; K_DOWN := false;
     K_a := true; K_LEFT := false; K_d := false; K_RIGHT := false;
     mouse_pos := (0, 0)%Z; mouse_pressed := false |}.

(** The fire button held, the pointer to the right of the arena's centre. *)
Definition shooting : Input :=
  {| K_w := false; K_UP := false; K_s := false; K_DOWN := false;
     K_a := false; K_LEFT := false; K_d := false; K_RIGHT := false;
     mouse_pos := (900, 270)%Z; mouse_pressed := true |}.

End Inputs.

(** ** game/audio.py *)

Module audio.

Definition SAMPLE_RATE : Z := 22050.

(** [int(max(-1.0, min(1.0, x)) * 32767)]: a sample as the synthesisers
    append it to their array of signed 16-bit integers. *)
Definition quantise (x : R) : Z := py_int (Rmax (-1) (Rmin 1 x) * 32767).

(** [max(1, int(SAMPLE_RATE * duration))] *)
Definition sample_count (duration : R) : Z :=
  Z.max 1 (py_int (IZR SAMPLE_RATE * duration)).

(** The inner loop of [_synth_tone]: the harmonics from number [idx] on,
    added to [sample]. *)
Fixpoint harmonic_sum (frequency t : R) (idx : Z) (harmonics : list R)
  (sample : R) : R :=
  match harmonics with
  | [] => sample
  | weight :: rest =>
      harmonic_sum frequency t (idx + 1) rest
        (sample + weight * sin (2 * PI * frequency * IZR (idx + 1) * t))
  end.

(** [harmonics or [1.0]]: [None] and the empty list both give [[1.0]]. *)
Definition _synth_tone (frequency duration volume : R)
  (harmonics : option (list R)) : list Z :=
  let harmonics :=
    match harmonics with
    | Some (h :: hs) => h :: hs
    | _ => [1]
    end in
  let total_weight :=
    Rmax (1 / 1000000) (fold_left Rplus (map Rabs harmonics) 0) in
  let sample_count := sample_count duration in
  let attack := Z.max 1 (py_int (IZR sample_count * 0.08)) in
  let release := Z.max 1 (py_int (IZR sample_count * 0.2)) in
  map (fun i =>
         let t := IZR i / IZR SAMPLE_RATE in
         let sample := harmonic_sum frequency t 0 harmonics 0 in
         let sample := sample / total_weight in
         let sample :=
           if (i <? attack)%Z then sample * (IZR i / IZR attack)
           else if (sample_count - release <? i)%Z
                then sample * Rmax 0 (IZR (sample_count - i) / IZR release)
                else sample in
         quantise (sample * volume))
      (range sample_count).

(** One turn of the loop of [_synth_noise]: the seed and the data so far. *)
Definition noise_step (decay volume : R) (st : Z * list Z) (i : Z)
  : Z * list Z :=
  let seed := Z.land (1103515245 * fst st + 12345) 2147483647 in
  let raw := IZR seed / 2147483647 * 2 - 1 in
  let envelope := Rmax 0 (1 - IZR i * decay) in
  let sample := raw * envelope * volume in
  (seed, snd st ++ [quantise sample]).

Definition _synth_noise (duration volume : R) : list Z :=
  let sample_count := sample_count duration in
  let decay := 1 / IZR sample_count in
  snd (fold_left (noise_step decay volume) (range sample_count)
                 (11325%Z, [])).

Definition _synth_chirp (start_freq end_freq duration volume : R) : list Z :=
  let sample_count := sample_count duration in
  map (fun i =>
         let progress := IZR i / IZR sample_count in
         let frequency := start_freq + (end_freq - start_freq) * progress in
         let t := IZR i / IZR SAMPLE_RATE in
         let sample := sin (2 * PI * frequency * t) in
         let envelope :=
           Rmin 1 (progress / 0.15) * Rmax 0 ((1 - progress) / 0.2) in
         quantise (sample * (envelope * volume)))
      (range sample_count).

(** The samples that [_build_sound_bytes(name)] hands to [_to_wave_bytes],
    which wraps them in a WAV container; [None] stands for the [ValueError]
    of an unknown name. *)
Definition sound_samples (name : string) : option (list Z) :=
  if String.eqb name "shoot" then
    Some (_synth_tone 880 0.12 0.45 (Some [1; 0.4]))
  else if String.eqb name "hit" then Some (_synth_noise 0.18 0.6)
  else if String.eqb name "power" then Some (_synth_chirp 440 880 0.38 0.55)
  else None.

(** The module state: the two globals, whether [pygame.mixer] is
    initialised, and two logs, of the sounds synthesised and of the sounds
    started.  The mixer, once initialised, is taken not to fail, so the
    [pygame.error] that [play] swallows does not appear. *)
Record t := make {
  _AUDIO_ENABLED : bool;
  _SOUND_CACHE : list (string * list Z);
  mixer : bool;
  built : list string;
  played : list string }.

Definition set_audio_enabled (enabled : bool) (st : t) : t :=
  make enabled (if enabled then _SOUND_CACHE st else []) (mixer st)
       (built st) (played st).

Definition is_audio_available (st : t) : bool :=
  _AUDIO_ENABLED st && mixer st.

(** [_load_sound(name)]: the sound and the state; [None] stands for the
    [ValueError] of [_build_sound_bytes], raised before the cache is
    written. *)
Definition _load_sound (name : string) (st : t) : option (list Z * t) :=
  match settings.lookup (_SOUND_CACHE st) name with
  | Some sound => Some (sound, st)
  | None =>
      match sound_samples name with
      | Some sound =>
          Some (sound,
                make (_AUDIO_ENABLED st) (_SOUND_CACHE st ++ [(name, sound)])
                     (mixer st) (built st ++ [name]) (played st))
      | None => None
      end
  end.

(** [play(name)]; [None] stands for the [ValueError], which the handler for
    [pygame.error] does not catch. *)
Definition play (name : string) (st : t) : option t :=
  if negb (is_audio_available st) then Some st
  else
    match _load_sound name st with
    | Some (_, st) =>
        Some (make (_AUDIO_ENABLED st) (_SOUND_CACHE st) (mixer st)
                   (built st) (played st ++ [name]))
    | None => None
    end.

(** The calls of [play] that a sound log stands for, in order. *)
Fixpoint replay (names : list string) (st : t) : option t :=
  match names with
  | [] => Some st
  | name :: rest =>
      match play name st with
      | Some st => replay rest st
      | None => None
      end
  end.

(** The note names of [_note_frequency]. *)
Definition notes : list string :=
  ["C"; "C#"; "D"; "D#"; "E"; "F"; "F#"; "G"; "G#"; "A"; "A#"; "B"]%string.

(** [notes.index(x)]; [None] stands for [ValueError]. *)
Fixpoint index (l : list string) (x : string) : option Z :=
  match l with
  | [] => None
  | y :: l' =>
      if String.eqb y x then Some 0%Z
      else option_map Z.succ (index l' x)
  end.

(** [name[:-1]] and [name[-1]]; [None] stands for the [IndexError] of the
    empty string. *)
Fixpoint split_last (name : string) : option (string * Ascii.ascii) :=
  match name with
  | EmptyString => None
  | String c EmptyString => Some (EmptyString, c)
  | String c rest =>
      match split_last rest with
      | Some (base, d) => Some (String c base, d)
      | None => None
      end
  end.

(** [int(c)] on one character; [None] stands for [ValueError]. *)
Definition digit (c : Ascii.ascii) : option Z :=
  let n := Z.of_nat (Ascii.nat_of_ascii c) in
  if ((48 <=? n) && (n <=? 57))%Z then Some (n - 48)%Z else None.

Definition _note_frequency (name : string) : option R :=
  match split_last name with
  | None => None
  | Some (base_note, c) =>
      match digit c with
      | None => None
      | Some octave =>
          match index notes base_note, index notes "A" with
          | Some semitone, Some a =>
              Some (440 * Rpower 2 (IZR (octave - 4)
                                    + IZR (semitone - a) / 12))
          | _, _ => None
          end
      end
  end.

(** The two voices of [_synth_music_loop]. *)
Definition melody : list string :=
  ["C5"; "E5"; "G5"; "E5"; "F5"; "A5"; "G5"; "E5";
   "D5"; "F5"; "A5"; "F5"; "G5"; "B5"; "A5"; "E5"]%string.
Definition bass : list string :=
  ["C3"; "C3"; "C3"; "C3"; "F3"; "F3"; "F3"; "F3";
   "G3"; "G3"; "G3"; "G3"; "F3"; "F3"; "F3"; "F3"]%string.

End audio.

(** ** main.py *)

Module main.

Inductive Key :=
| K_ESCAPE | K_q | K_UP | K_w | K_DOWN | K_s
| K_1 | K_KP1 | K_2 | K_KP2 | K_3 | K_KP3
| K_RETURN | K_SPACE | K_r | K_other.

Inductive Event := QUIT | KEYDOWN (key : Key) | OTHER.

Inductive State := menu | running.

(** The variables of the loop of [main]. *)
Record App := mkApp {
  state : State; highlighted : Z; world : GameWorld.t }.

(** How the handling of an event ends: the loop goes on, [sys.exit()] is
    called, or an exception leaves [main]. *)
Inductive Step := Goes (a : App) | Exits | Fails.

Definition weapon_names : list string := map fst settings.WEAPON_DEFS.

(** [l[i]]: a negative index counts from the end; [None] stands for
    [IndexError]. *)
Definition item (l : list string) (i : Z) : option string :=
  let n := Z.of_nat (List.length l) in
  if (0 <=? i)%Z then nth_error l (Z.to_nat i)
  else if (- n <=? i)%Z then nth_error l (Z.to_nat (n + i))
  else None.

Definition quits (key : Key) : bool :=
  match key with K_ESCAPE | K_q => true | _ => false end.

(** The keys that start the game from the menu. *)
Definition starts (key : Key) : bool :=
  match key with
  | K_RETURN | K_SPACE | K_1 | K_KP1 | K_2 | K_KP2 | K_3 | K_KP3 => true
  | _ => false
  end.

(** The highlight after a key of the menu. *)
Definition move (key : Key) (highlighted : Z) : Z :=
  let n := Z.of_nat (List.length weapon_names) in
  match key with
  | K_UP | K_w => ((highlighted - 1) mod n)%Z
  | K_DOWN | K_s => ((highlighted + 1) mod n)%Z
  | K_1 | K_KP1 => 0%Z
  | K_2 | K_KP2 => Z.min 1 (n - 1)
  | K_3 | K_KP3 => Z.min 2 (n - 1)
  | _ => highlighted
  end.

(** The body of the loop over [pygame.event.get()], for one event.  The
    generator and the sound log of the process pass from the old world to
    the new one. *)
Definition handle_event (a : App) (e : Event) : Step :=
  match e with
  | QUIT => Exits
  | OTHER => Goes a
  | KEYDOWN key =>
      match state a with
      | menu =>
          if quits key then Exits
          else
            let highlighted := move key (highlighted a) in
            if starts key then
              match item weapon_names highlighted with
              | None => Fails
              | Some weapon_name =>
                  match GameWorld.new (Some weapon_name)
                                      (GameWorld.rng (world a))
                                      (GameWorld.audio (world a)) with
                  | None => Fails
                  | Some w =>
                      Goes (mkApp running highlighted
                                  (GameWorld.play "power" w))
                  end
              end
            else Goes (mkApp menu highlighted (world a))
      | running =>
          let a :=
            match key with
            | K_ESCAPE =>
                mkApp menu (highlighted a)
                      (GameWorld.play "power"
                         (GameWorld.init (GameWorld.rng (world a))
                                         (GameWorld.audio (world a))))
            | _ => a
            end in
          match key with
          | K_r =>
              if (Player.health (GameWorld.player (world a)) <=? 0)%Z then
                match GameWorld.reset (world a) with
                | Some w => Goes (mkApp (state a) (highlighted a) w)
                | None => Fails
                end
              else Goes a
          | _ => Goes a
          end
      end
  end.

(** The events of one frame, in order. *)
Fixpoint handle_events (a : App) (events : list Event) : Step :=
  match events with
  | [] => Goes a
  | e :: rest =>
      match handle_event a e with
      | Goes a => handle_events a rest
      | Exits => Exits
      | Fails => Fails
      end
  end.

(** One turn of the loop of [main]: the events, then, unless the menu is
    shown, [world.update(dt)], whose [ValueError] nothing catches. *)
Definition frame (a : App) (events : list Event) (dt : R) (keys : Input)
  : Step :=
  match handle_events a events with
  | Goes a =>
      match state a with
      | menu => Goes a
      | running =>
          match GameWorld.update (world a) dt keys with
          | Returns w => Goes (mkApp running (highlighted a) w)
          | Raises _ => Fails
          end
      end
  | Exits => Exits
  | Fails => Fails
  end.

(** The loop of [main], over the events, the frame time and the input of
    each turn. *)
Fixpoint loop (a : App) (turns : list (list Event * R * Input)) : Step :=
  match turns with
  | [] => Goes a
  | (events, dt, keys) :: rest =>
      match frame a events dt keys with
      | Goes a => loop a rest
      | Exits => Exits
      | Fails => Fails
      end
  end.

(** The variables as [main] sets them before the loop. *)
Definition start (g : Random.t) (log : list string) : App :=
  mkApp menu 0 (GameWorld.init g log).

(** What the loop keeps true of its variables: the highlight is an index of
    [weapon_names], and the world's weapon name, if any, is one of them. *)
Definition steady (a : App) : Prop :=
  (0 <= highlighted a < Z.of_nat (List.length weapon_names))%Z /\
  match GameWorld.weapon_name (world a) with
  | None => True
  | Some n => In n weapon_names
  end.

End main.

(** ** Generators *)

(** What [random.random()] promises of its draws: each lies in [[0, 1)]. *)
Definition unit_draws (g : Random.t) : Prop :=
  forall n : nat, 0 <= Random.draws g n < 1.

(** An enemy as [spawn_enemy_wave] makes it: of one of the types of
    [settings.ENEMY_TYPES], at full health and at rest, its box clear of the
    screen. *)
Definition fresh_enemy (e : Enemy.t) : Prop :=
  (exists info,
     settings.lookup settings.ENEMY_TYPES (Enemy.name e) = Some info /\
     Enemy.speed e = settings.e_speed info /\
     Enemy.health e = settings.e_health info /\
     Enemy.max_health e = settings.e_health info /\
     Enemy.size e = settings.e_size info /\
     Enemy.color e = Color.rgb (settings.e_color info)) /\
  Enemy.velocity e = Vector2.make 0 0 /\
  0 < Enemy.health e /\
  Rect.colliderect
    (Enemy.rect e)
    (Rect.make 0 0 settings.SCREEN_WIDTH settings.SCREEN_HEIGHT) = false.

(** * Properties *)

(** ** Deciding comparisons of reals *)

Lemma Rltb_true (a b : R) : a < b -> Rltb a b = true.
Proof. intros H. unfold Rltb. destruct (Rlt_dec a b); [reflexivity | lra]. Qed.

Lemma Rltb_false (a b : R) : b <= a -> Rltb a b = false.
Proof. intros H. unfold Rltb. destruct (Rlt_dec a b); [lra | reflexivity]. Qed.

Lemma Rleb_true (a b : R) : a <= b -> Rleb a b = true.
Proof. intros H. unfold Rleb. destruct (Rle_dec a b); [reflexivity | lra]. Qed.

Lemma Rleb_false (a b : R) : b < a -> Rleb a b = false.
Proof. intros H. unfold Rleb. destruct (Rle_dec a b); [lra | reflexivity]. Qed.

Lemma Reqb_true (a b : R) : a = b -> Reqb a b = true.
Proof.
  intros H. unfold Reqb. destruct (Req_dec_T a b); [reflexivity | contradiction].
Qed.

Lemma Reqb_false (a b : R) : a <> b -> Reqb a b = false.
Proof.
  intros H. unfold Reqb. destruct (Req_dec_T a b); [contradiction | reflexivity].
Qed.

Lemma py_int_IZR (z : Z) : py_int (IZR z) = z.
Proof.
  unfold py_int. destruct (Rle_dec 0 (IZR z)) as [H | H].
  - symmetry. apply Int_part_spec. lra.
  - rewrite <- opp_IZR.
    replace (Int_part (IZR (- z))) with (- z)%Z; [lia |].
    apply Int_part_spec. lra.
Qed.

Lemma py_int_eq (z : Z) (x : R) : x = IZR z -> py_int x = z.
Proof. intros ->. apply py_int_IZR. Qed.

(** ** Angles *)

Section Trigonometry.

Import Vector2.

Lemma radians_plus (a b : R) : radians (a + b) = radians a + radians b.
Proof. unfold radians. lra. Qed.

Lemma radians_degrees (a : R) : radians (degrees a) = a.
Proof.
  unfold radians, degrees. pose proof PI_RGT_0. field. lra.
Qed.

Lemma length_squared_pos (v : t) :
  length_squared v <> 0 -> 0 < length_squared v.
Proof.
  unfold length_squared. intros H.
  pose proof (Rle_0_sqr (x v)) as Hx. pose proof (Rle_0_sqr (y v)) as Hy.
  unfold Rsqr in Hx, Hy. lra.
Qed.

Lemma sqrt_ratio (a b : R) :
  0 < a -> sqrt (1 + (b / a)²) = sqrt (a * a + b * b) / a.
Proof.
  intros Ha.
  replace (1 + (b / a)²) with ((a * a + b * b) / (a * a))
    by (unfold Rsqr; field; lra).
  rewrite sqrt_div; [| nra | nra].
  rewrite sqrt_square by lra. reflexivity.
Qed.

Lemma cos_atan_ratio (a b : R) :
  0 < a -> cos (atan (b / a)) = a / sqrt (a * a + b * b).
Proof.
  intros Ha. rewrite cos_atan, sqrt_ratio by assumption.
  assert (0 < sqrt (a * a + b * b)) by (apply sqrt_lt_R0; nra).
  field. lra.
Qed.

Lemma sin_atan_ratio (a b : R) :
  0 < a -> sin (atan (b / a)) = b / sqrt (a * a + b * b).
Proof.
  intros Ha. rewrite sin_atan, sqrt_ratio by assumption.
  assert (0 < sqrt (a * a + b * b)) by (apply sqrt_lt_R0; nra).
  field. lra.
Qed.

Lemma atan_ratio_neg (a b : R) :
  a < 0 -> atan (b / a) = atan ((- b) / (- a)).
Proof. intros Ha. f_equal. field. lra. Qed.

(** The angle that [atan2] returns is the angle of the vector. *)
Lemma cos_sin_atan2 (a b : R) :
  a * a + b * b <> 0 ->
  cos (atan2 b a) = a / sqrt (a * a + b * b) /\
  sin (atan2 b a) = b / sqrt (a * a + b * b).
Proof.
  intros Hn. unfold atan2.
  destruct (Rlt_dec 0 a) as [Hp | Hp].
  { split; [apply cos_atan_ratio | apply sin_atan_ratio]; assumption. }
  destruct (Rlt_dec a 0) as [Hm | Hm].
  { assert (Hc : cos (atan (b / a)) = - a / sqrt (a * a + b * b)).
    { rewrite atan_ratio_neg by assumption.
      rewrite cos_atan_ratio by lra. f_equal. f_equal. ring. }
    assert (Hs : sin (atan (b / a)) = - b / sqrt (a * a + b * b)).
    { rewrite atan_ratio_neg by assumption.
      rewrite sin_atan_ratio by lra. f_equal. f_equal. ring. }
    assert (0 < sqrt (a * a + b * b)) by (apply sqrt_lt_R0; nra).
    destruct (Rle_dec 0 b).
    - rewrite neg_cos, neg_sin, Hc, Hs. split; field; lra.
    - unfold Rminus. rewrite cos_plus, sin_plus, cos_neg, sin_neg, cos_PI, sin_PI.
      rewrite Hc, Hs. split; field; lra. }
  assert (a = 0) by lra. subst a.
  replace (0 * 0 + b * b) with (b * b) in * by ring.
  destruct (Rlt_dec 0 b) as [Hb | Hb].
  { rewrite cos_PI2, sin_PI2, sqrt_square by lra. split; field; lra. }
  destruct (Rlt_dec b 0) as [Hb' | Hb'].
  { rewrite cos_neg, sin_neg, cos_PI2, sin_PI2.
    replace (b * b) with ((- b) * (- b)) by ring.
    rewrite sqrt_square by lra. split; field; lra. }
  exfalso. apply Hn. assert (b = 0) by lra. subst b. ring.
Qed.

Lemma atan2_east : atan2 0 1 = 0.
Proof.
  unfold atan2. destruct (Rlt_dec 0 1); [| lra].
  replace (0 / 1) with 0 by field. apply atan_0.
Qed.

(** Turning the reference axis back by the angle measured from a vector to
    the axis, and on by [extra] degrees, gives the unit vector turned by
    [extra]. *)
Lemma rotate_back (d : t) (extra : R) :
  length_squared d <> 0 ->
  rotate (make 1 0) (- (angle_to d (make 1 0) - extra)) =
  rotate (normalize d) extra.
Proof.
  intros Hn. unfold rotate, angle_to, normalize, length. cbn [x y].
  rewrite atan2_east.
  replace (- (degrees (0 - atan2 (y d) (x d)) - extra))
    with (degrees (atan2 (y d) (x d)) + extra) by (unfold degrees; lra).
  rewrite radians_plus, radians_degrees, cos_plus, sin_plus.
  destruct (cos_sin_atan2 (x d) (y d) Hn) as [-> ->].
  fold (length_squared d).
  assert (0 < sqrt (length_squared d))
    by (apply sqrt_lt_R0, length_squared_pos, Hn).
  f_equal; field; lra.
Qed.

Lemma rotate_zero (v : t) : rotate v 0 = v.
Proof.
  unfold rotate, radians. replace (0 * PI / 180) with 0 by lra.
  rewrite cos_0, sin_0. destruct v as [a b]. cbn [x y]. f_equal; ring.
Qed.

End Trigonometry.

(** ** Weapon.try_fire and Weapon.update *)

Section Firing.

Import Vector2.

Lemma try_fire_blocked (w : Weapon.t) (position target : Vector2.t) :
  0 < Weapon.timer w -> Weapon.try_fire w position target = ([], w).
Proof.
  intros H. unfold Weapon.try_fire. rewrite Rltb_true by assumption.
  reflexivity.
Qed.

Lemma try_fire_ready (w : Weapon.t) (position target : Vector2.t) :
  Weapon.timer w <= 0 ->
  Weapon.try_fire w position target =
  (map (fun i =>
          Weapon.shot w position
               (Weapon.shot_angle w
                  (angle_to (Weapon.aim position target) (make 1 0)) i))
       (range (Weapon.projectiles w)),
   Weapon.set_timer (Weapon.cooldown w) w).
Proof.
  intros H. unfold Weapon.try_fire. rewrite Rltb_false by assumption.
  reflexivity.
Qed.

Lemma aim_direct (position target : Vector2.t) :
  length_squared (sub target position) <> 0 ->
  Weapon.aim position target = sub target position.
Proof. intros H. unfold Weapon.aim. rewrite Reqb_false by assumption. reflexivity. Qed.

Lemma range_length (n : Z) : List.length (range n) = Z.to_nat n.
Proof. unfold range. rewrite length_map, length_seq. reflexivity. Qed.

Lemma range_nth (n : Z) (i : nat) :
  (i < Z.to_nat n)%nat -> nth_error (range n) i = Some (Z.of_nat i).
Proof.
  intros H. unfold range. rewrite nth_error_map.
  rewrite nth_error_seq. apply Nat.ltb_lt in H. rewrite H. reflexivity.
Qed.

Lemma shot_angle_fan (w : Weapon.t) (base : R) (i : Z) :
  (1 < Weapon.projectiles w)%Z ->
  Weapon.shot_angle w base i =
  base - Weapon.spread w / 2
  + IZR i * (Weapon.spread w / IZR (Weapon.projectiles w - 1)).
Proof.
  intros H. unfold Weapon.shot_angle.
  apply Z.ltb_lt in H. rewrite H. apply Z.ltb_lt in H.
  rewrite Z.max_r by lia. reflexivity.
Qed.

Lemma shot_angle_single (w : Weapon.t) (base : R) (i : Z) :
  Weapon.projectiles w = 1%Z ->
  Weapon.shot_angle w base i = base - Weapon.spread w / 2.
Proof.
  intros H. unfold Weapon.shot_angle. rewrite H. cbn. ring.
Qed.

Lemma angle_to_east (position target : Vector2.t) :
  y target = y position -> x position < x target ->
  angle_to (Weapon.aim position target) (make 1 0) = 0.
Proof.
  intros Hy Hx.
  assert (Hn : length_squared (sub target position) <> 0).
  { unfold length_squared, sub. cbn [x y]. nra. }
  rewrite aim_direct by assumption.
  unfold angle_to, sub. cbn [x y].
  rewrite atan2_east. unfold atan2.
  destruct (Rlt_dec 0 (x target - x position)); [| lra].
  replace (y target - y position) with 0 by lra.
  replace (0 / (x target - x position)) with 0 by (field; lra).
  rewrite atan_0. unfold degrees. pose proof PI_RGT_0. field. lra.
Qed.

Lemma normalize_east (position target : Vector2.t) :
  y target = y position -> x position < x target ->
  normalize (sub target position) = (make 1 0).
Proof.
  intros Hy Hx. unfold normalize, length, length_squared, sub.
  cbn [x y].
  replace (y target - y position) with 0 by lra.
  replace ((x target - x position) * (x target - x position) + 0 * 0)
    with ((x target - x position) * (x target - x position)) by ring.
  rewrite sqrt_square by lra. f_equal; field; lra.
Qed.

End Firing.

Section FiringTheorems.

Import Vector2.

Lemma created_weapons :
  create_weapon "Seed Blaster" = Some Samples.seed_blaster /\
  create_weapon "Thorn Fork" = Some Samples.thorn_fork /\
  create_weapon "Solar Beam" = Some Samples.solar_beam /\
  create_weapon "Pea Shooter" = None.
Proof. repeat split; reflexivity. Qed.

(** C5: [try_fire] returns no bullet and leaves the weapon as it is while the
    timer is positive; a fire that goes through sets the timer to the
    cooldown; [Weapon.update] sets the timer to [max(0, timer - dt)], which is
    never negative; and a weapon of cooldown 0.25 that is fired, updated by
    0.1 and fired again gives bullets on the first call only. *)
Theorem cooldown_gate (w : Weapon.t) (position target : Vector2.t) (dt : R) :
  (0 < Weapon.timer w -> Weapon.try_fire w position target = ([], w)) /\
  (Weapon.timer w <= 0 ->
   Weapon.timer (snd (Weapon.try_fire w position target)) = Weapon.cooldown w) /\
  Weapon.timer (Weapon.update w dt) = Rmax 0 (Weapon.timer w - dt) /\
  0 <= Weapon.timer (Weapon.update w dt) /\
  (Weapon.cooldown w = 0.25 -> Weapon.timer w <= 0 ->
   (0 < Weapon.projectiles w)%Z ->
   let first := Weapon.try_fire w position target in
   let second :=
     Weapon.try_fire (Weapon.update (snd first) 0.1) position target in
   fst first <> [] /\ fst second = []).
Proof.
  split; [apply try_fire_blocked |].
  split; [intros H; rewrite try_fire_ready by assumption; reflexivity |].
  split; [reflexivity |].
  split; [cbn; apply Rmax_l |].
  intros Hc Ht Hp first second. subst first second.
  rewrite try_fire_ready by assumption. cbn [fst snd]. split.
  - intros Hnil. apply (f_equal (@List.length _)) in Hnil.
    rewrite length_map, range_length in Hnil. cbn in Hnil. lia.
  - rewrite try_fire_blocked; [reflexivity |].
    cbn. rewrite Hc. unfold Rmax. destruct (Rle_dec 0 (0.25 - 0.1)); lra.
Qed.

Lemma cooldown_gate_witness :
  (Weapon.cooldown Samples.seed_blaster = 0.25 /\
   Weapon.timer Samples.seed_blaster <= 0 /\
   (0 < Weapon.projectiles Samples.seed_blaster)%Z) /\
  (fst (Weapon.try_fire Samples.seed_blaster Samples.origin Samples.east)
     <> [] /\
   fst (Weapon.try_fire
          (Weapon.update
             (snd (Weapon.try_fire Samples.seed_blaster Samples.origin
                                   Samples.east)) 0.1)
          Samples.origin Samples.east) = []) /\
  Weapon.timer
    (snd (Weapon.try_fire Samples.seed_blaster Samples.origin Samples.east))
    = 0.25 /\
  0 < Weapon.timer Samples.seed_blaster_hot /\
  Weapon.try_fire Samples.seed_blaster_hot Samples.origin Samples.east
    = ([], Samples.seed_blaster_hot).
Proof.
  assert (Hc : Weapon.cooldown Samples.seed_blaster = 0.25) by reflexivity.
  assert (Ht : Weapon.timer Samples.seed_blaster <= 0) by (cbn; lra).
  assert (Hp : (0 < Weapon.projectiles Samples.seed_blaster)%Z)
    by (cbn; lia).
  assert (Hh : 0 < Weapon.timer Samples.seed_blaster_hot) by (cbn; lra).
  destruct (cooldown_gate Samples.seed_blaster Samples.origin Samples.east 0)
    as (_ & Hreset & _ & _ & Htwice).
  destruct (cooldown_gate Samples.seed_blaster_hot Samples.origin
              Samples.east 0) as (Hblocked & _).
  split; [exact (conj Hc (conj Ht Hp)) |].
  split; [exact (Htwice Hc Ht Hp) |].
  split; [exact (Hreset Ht) |].
  split; [exact Hh | exact (Hblocked Hh)].
Defined.

(** The shot of a weapon with one projectile: when it fires (timer not
    positive, aim not degenerate) it returns exactly one bullet, whose
    velocity is the unit vector of [target - position] turned by
    [spread / 2] degrees and scaled by [bullet_speed]; it is the aim
    direction itself when [spread] is 0. *)
Theorem single_shot (w : Weapon.t) (position target : Vector2.t) :
  Weapon.projectiles w = 1%Z ->
  Weapon.timer w <= 0 ->
  length_squared (sub target position) <> 0 ->
  fst (Weapon.try_fire w position target) =
    [ Bullet.make position
        (scale (rotate (normalize (sub target position)) (Weapon.spread w / 2))
               (Weapon.bullet_speed w))
        (Weapon.color w) (Weapon.bullet_damage w) 6 (Weapon.pierce w) true ] /\
  (Weapon.spread w = 0 ->
   map Bullet.velocity (fst (Weapon.try_fire w position target)) =
     [ scale (normalize (sub target position)) (Weapon.bullet_speed w) ]).
Proof.
  intros Hp Ht Hn.
  assert (Hfire :
    fst (Weapon.try_fire w position target) =
    [ Bullet.make position
        (scale (rotate (normalize (sub target position)) (Weapon.spread w / 2))
               (Weapon.bullet_speed w))
        (Weapon.color w) (Weapon.bullet_damage w) 6 (Weapon.pierce w) true ]).
  { rewrite try_fire_ready by assumption. cbn [fst]. rewrite Hp.
    change (range 1) with [0%Z]. cbn [map].
    rewrite shot_angle_single by assumption.
    rewrite aim_direct by assumption.
    unfold Weapon.shot. rewrite rotate_back by assumption. reflexivity. }
  split; [exact Hfire |].
  intros Hs. rewrite Hfire. cbn [map Bullet.velocity]. rewrite Hs.
  replace (0 / 2) with 0 by field. rewrite rotate_zero. reflexivity.
Qed.

Lemma single_shot_witness :
  (Weapon.projectiles Samples.seed_blaster = 1%Z /\
   Weapon.timer Samples.seed_blaster <= 0 /\
   length_squared (sub Samples.east Samples.origin) <> 0 /\
   Weapon.spread Samples.seed_blaster = 0) /\
  map Bullet.velocity
      (fst (Weapon.try_fire Samples.seed_blaster Samples.origin Samples.east))
  = [ scale (normalize (sub Samples.east Samples.origin)) 520 ].
Proof.
  assert (Hp : Weapon.projectiles Samples.seed_blaster = 1%Z) by reflexivity.
  assert (Ht : Weapon.timer Samples.seed_blaster <= 0) by (cbn; lra).
  assert (Hn : length_squared (sub Samples.east Samples.origin) <> 0)
    by (unfold length_squared; cbn [sub Samples.east Samples.origin x y]; lra).
  assert (Hs : Weapon.spread Samples.seed_blaster = 0) by reflexivity.
  split; [exact (conj Hp (conj Ht (conj Hn Hs))) |].
  exact (proj2 (single_shot Samples.seed_blaster Samples.origin Samples.east
                            Hp Ht Hn) Hs).
Defined.

(** C3: [try_fire] on a weapon with one projectile and a spread of 12
    degrees, timer at 0, aimed due east from the origin.  The claim asks for
    one bullet along the aim direction, the spread ignored; the code returns
    one bullet turned 6 degrees off east, half the spread, which is not the
    aim direction: [start_angle] takes [spread / 2] off the base angle for
    every number of projectiles, and only [spread_step] is set to 0 for a
    single one. *)
Theorem spread_turns_single_shot :
  Weapon.projectiles Samples.lone_fork = 1%Z /\
  Weapon.spread Samples.lone_fork = 12 /\
  Weapon.timer Samples.lone_fork <= 0 /\
  length_squared (sub Samples.east Samples.origin) <> 0 /\
  fst (Weapon.try_fire Samples.lone_fork Samples.origin Samples.east)
  = [ Bullet.make Samples.origin (scale (rotate (make 1 0) 6) 420)
                  (Color.make 120 255 120 255) 12 6 0 true ] /\
  map Bullet.velocity
      (fst (Weapon.try_fire Samples.lone_fork Samples.origin Samples.east))
  <> [ scale (normalize (sub Samples.east Samples.origin))
             (Weapon.bullet_speed Samples.lone_fork) ].
Proof.
  assert (Hp : Weapon.projectiles Samples.lone_fork = 1%Z) by reflexivity.
  assert (Hs : Weapon.spread Samples.lone_fork = 12) by reflexivity.
  assert (Ht : Weapon.timer Samples.lone_fork <= 0) by (cbn; lra).
  assert (Hn : length_squared (sub Samples.east Samples.origin) <> 0)
    by (unfold length_squared; cbn [sub Samples.east Samples.origin x y]; lra).
  repeat (split; [assumption |]).
  rewrite try_fire_ready by assumption. cbn [fst].
  rewrite Hp. change (range 1) with [0%Z]. cbn [map].
  rewrite shot_angle_single by assumption.
  rewrite (angle_to_east Samples.origin Samples.east) by (cbn; lra).
  rewrite (normalize_east Samples.origin Samples.east) by (cbn; lra).
  unfold Weapon.shot. rewrite Hs. replace (- (0 - 12 / 2)) with 6 by lra.
  split; [reflexivity |].
  cbn [Bullet.velocity]. intros Heq.
  injection Heq as _ Hy. cbn in Hy.
  assert (Hsin : 0 < sin (radians 6)).
  { pose proof PI_RGT_0. apply sin_gt_0; unfold radians; lra. }
  nra.
Qed.

(** C7: a weapon with [n > 1] projectiles that fires returns [n] bullets;
    bullet [i] leaves at the angle [base - spread/2 + i * spread/(n-1)], so
    the angles run from [base - spread/2] to [base + spread/2], both ends
    included, in equal steps.  With 3 projectiles and a spread of 12, fired
    due east, the bullets leave at 6, 0 and -6 degrees from east, the middle
    one along the aim direction.  When the aim is not degenerate the fan is
    centred on the unit vector of [target - position]: bullet [i] is that
    vector turned by [spread/2 - i * spread/(n-1)] degrees, the first by
    [spread/2], the last by [- spread/2], and with 3 projectiles and a
    spread of 12 the bullets are that vector turned by 6, 0 and -6 degrees,
    whatever the aim.  When [target = position] the fan is centred on east. *)
Theorem spread_fan (w : Weapon.t) (position target : Vector2.t) :
  (1 < Weapon.projectiles w)%Z ->
  Weapon.timer w <= 0 ->
  let n := Weapon.projectiles w in
  let base := angle_to (Weapon.aim position target) (make 1 0) in
  let step := Weapon.spread w / IZR (n - 1) in
  let bullets := fst (Weapon.try_fire w position target) in
  let d := sub target position in
  List.length bullets = Z.to_nat n /\
  (forall i : nat, (i < Z.to_nat n)%nat ->
   option_map Bullet.velocity (nth_error bullets i) =
   Some (scale
           (rotate (make 1 0)
                   (- (base - Weapon.spread w / 2 + IZR (Z.of_nat i) * step)))
           (Weapon.bullet_speed w))) /\
  base - Weapon.spread w / 2 + IZR (n - 1) * step
    = base + Weapon.spread w / 2 /\
  (n = 3%Z -> Weapon.spread w = 12 ->
   y target = y position -> x position < x target ->
   map Bullet.velocity bullets =
     [ scale (rotate (make 1 0) 6) (Weapon.bullet_speed w);
       scale (normalize (sub target position)) (Weapon.bullet_speed w);
       scale (rotate (make 1 0) (- 6)) (Weapon.bullet_speed w) ]) /\
  (length_squared d <> 0 ->
   (forall i : nat, (i < Z.to_nat n)%nat ->
    nth_error bullets i =
    Some (Bullet.make position
            (scale (rotate (normalize d)
                           (Weapon.spread w / 2 - IZR (Z.of_nat i) * step))
                   (Weapon.bullet_speed w))
            (Weapon.color w) (Weapon.bullet_damage w) 6 (Weapon.pierce w)
            true)) /\
   option_map Bullet.velocity (nth_error bullets 0) =
     Some (scale (rotate (normalize d) (Weapon.spread w / 2))
                 (Weapon.bullet_speed w)) /\
   option_map Bullet.velocity (nth_error bullets (Z.to_nat (n - 1))) =
     Some (scale (rotate (normalize d) (- (Weapon.spread w / 2)))
                 (Weapon.bullet_speed w))) /\
  (n = 3%Z -> Weapon.spread w = 12 -> length_squared d <> 0 ->
   map Bullet.velocity bullets =
     [ scale (rotate (normalize d) 6) (Weapon.bullet_speed w);
       scale (normalize d) (Weapon.bullet_speed w);
       scale (rotate (normalize d) (- 6)) (Weapon.bullet_speed w) ]) /\
  (length_squared d = 0 ->
   forall i : nat, (i < Z.to_nat n)%nat ->
   option_map Bullet.velocity (nth_error bullets i) =
   Some (scale (rotate (make 1 0)
                       (Weapon.spread w / 2 - IZR (Z.of_nat i) * step))
               (Weapon.bullet_speed w))).
Proof.
  intros Hp Ht n base step bullets d. subst n base step bullets d.
  assert (Hz : IZR (Weapon.projectiles w - 1) <> 0).
  { apply not_0_IZR. lia. }
  assert (Hfan : length_squared (sub target position) <> 0 ->
    forall i : nat, (i < Z.to_nat (Weapon.projectiles w))%nat ->
    nth_error (fst (Weapon.try_fire w position target)) i =
    Some (Bullet.make position
            (scale (rotate (normalize (sub target position))
                      (Weapon.spread w / 2
                       - IZR (Z.of_nat i)
                         * (Weapon.spread w / IZR (Weapon.projectiles w - 1))))
                   (Weapon.bullet_speed w))
            (Weapon.color w) (Weapon.bullet_damage w) 6 (Weapon.pierce w)
            true)).
  { intros Hd i Hi. rewrite try_fire_ready by assumption. cbn [fst].
    rewrite nth_error_map, range_nth by assumption. cbn [option_map].
    rewrite shot_angle_fan by assumption.
    rewrite aim_direct by assumption. unfold Weapon.shot.
    replace (angle_to (sub target position) (make 1 0) - Weapon.spread w / 2
             + IZR (Z.of_nat i)
               * (Weapon.spread w / IZR (Weapon.projectiles w - 1)))
      with (angle_to (sub target position) (make 1 0)
            - (Weapon.spread w / 2
               - IZR (Z.of_nat i)
                 * (Weapon.spread w / IZR (Weapon.projectiles w - 1))))
      by ring.
    rewrite rotate_back by assumption. reflexivity. }
  rewrite try_fire_ready in * by assumption. cbn [fst] in *.
  split; [rewrite length_map; apply range_length |].
  split.
  { intros i Hi. rewrite nth_error_map, range_nth by assumption.
    cbn [option_map]. rewrite shot_angle_fan by assumption. reflexivity. }
  split.
  { field. assumption. }
  split.
  { intros Hn Hs Hy Hx.
    rewrite Hn. change (range 3) with [0%Z; 1%Z; 2%Z]. cbn [map].
    rewrite !shot_angle_fan by assumption.
    rewrite angle_to_east, normalize_east by assumption.
    rewrite Hn, Hs. cbn [Weapon.shot Bullet.velocity].
    change (3 - 1)%Z with 2%Z.
    replace (- (0 - 12 / 2 + 0 * (12 / 2))) with 6 by field.
    replace (- (0 - 12 / 2 + 1 * (12 / 2))) with 0 by field.
    replace (- (0 - 12 / 2 + 2 * (12 / 2))) with (- 6) by field.
    rewrite rotate_zero. reflexivity. }
  split.
  { intros Hd. split; [exact (Hfan Hd) |]. split.
    - rewrite (Hfan Hd 0%nat) by lia. cbn [option_map Bullet.velocity].
      do 3 f_equal. cbn [Z.of_nat]. ring.
    - rewrite (Hfan Hd (Z.to_nat (Weapon.projectiles w - 1))) by lia.
      cbn [option_map Bullet.velocity]. do 3 f_equal.
      rewrite Z2Nat.id by lia. field. assumption. }
  split.
  { intros Hn Hs Hd.
    rewrite Hn. change (range 3) with [0%Z; 1%Z; 2%Z]. cbn [map].
    rewrite !shot_angle_fan by assumption.
    rewrite aim_direct by assumption.
    rewrite Hn, Hs. cbn [Weapon.shot Bullet.velocity].
    change (3 - 1)%Z with 2%Z.
    set (a := angle_to (sub target position) (make 1 0)).
    replace (a - 12 / 2 + 0 * (12 / 2)) with (a - 6) by field.
    replace (a - 12 / 2 + 1 * (12 / 2)) with (a - 0) by field.
    replace (a - 12 / 2 + 2 * (12 / 2)) with (a - - 6) by field.
    subst a. rewrite !rotate_back by assumption.
    rewrite rotate_zero. reflexivity. }
  intros Hd i Hi. rewrite nth_error_map, range_nth by assumption.
  cbn [option_map]. rewrite shot_angle_fan by assumption.
  unfold Weapon.aim. rewrite Reqb_true by assumption.
  unfold Weapon.shot. cbn [Bullet.velocity].
  replace (angle_to (make 1 0) (make 1 0)) with 0.
  - do 3 f_equal. ring.
  - unfold angle_to. cbn [x y]. unfold degrees. field.
    pose proof PI_RGT_0. lra.
Qed.

Lemma spread_fan_witness :
  ((1 < Weapon.projectiles Samples.thorn_fork)%Z /\
   Weapon.timer Samples.thorn_fork <= 0 /\
   Weapon.projectiles Samples.thorn_fork = 3%Z /\
   Weapon.spread Samples.thorn_fork = 12 /\
   y Samples.east = y Samples.origin /\
   x Samples.origin < x Samples.east /\
   length_squared (sub (make 3 4) Samples.origin) <> 0) /\
  map Bullet.velocity
      (fst (Weapon.try_fire Samples.thorn_fork Samples.origin Samples.east))
  = [ scale (rotate (make 1 0) 6) 420;
      scale (normalize (sub Samples.east Samples.origin)) 420;
      scale (rotate (make 1 0) (- 6)) 420 ] /\
  map Bullet.velocity
      (fst (Weapon.try_fire Samples.thorn_fork Samples.origin (make 3 4)))
  = [ scale (rotate (normalize (sub (make 3 4) Samples.origin)) 6) 420;
      scale (normalize (sub (make 3 4) Samples.origin)) 420;
      scale (rotate (normalize (sub (make 3 4) Samples.origin)) (- 6)) 420 ].
Proof.
  assert (Hp : (1 < Weapon.projectiles Samples.thorn_fork)%Z) by (cbn; lia).
  assert (Ht : Weapon.timer Samples.thorn_fork <= 0) by (cbn; lra).
  assert (Hn : Weapon.projectiles Samples.thorn_fork = 3%Z) by reflexivity.
  assert (Hs : Weapon.spread Samples.thorn_fork = 12) by reflexivity.
  assert (Hy : y Samples.east = y Samples.origin) by reflexivity.
  assert (Hx : x Samples.origin < x Samples.east) by (cbn; lra).
  assert (Hd : length_squared (sub (make 3 4) Samples.origin) <> 0)
    by (unfold length_squared; cbn [sub Samples.origin x y]; lra).
  split;
    [exact (conj Hp (conj Ht (conj Hn (conj Hs (conj Hy (conj Hx Hd)))))) |].
  split.
  - destruct (spread_fan Samples.thorn_fork Samples.origin Samples.east Hp Ht)
      as (_ & _ & _ & Heast & _).
    exact (Heast Hn Hs Hy Hx).
  - destruct (spread_fan Samples.thorn_fork Samples.origin (make 3 4) Hp Ht)
      as (_ & _ & _ & _ & _ & Hany & _).
    exact (Hany Hn Hs Hd).
Defined.

End FiringTheorems.

(** ** What the steps of a frame leave alone *)

Section Frames.

Import GameWorld.

Lemma extends_refl {A : Type} (P : A -> Prop) (l : list A) : extends P l l.
Proof. exists []. split; [symmetry; apply app_nil_r | constructor]. Qed.

Lemma extends_trans {A : Type} (P : A -> Prop) (l1 l2 l3 : list A) :
  extends P l1 l2 -> extends P l2 l3 -> extends P l1 l3.
Proof.
  intros (e1 & -> & H1) (e2 & -> & H2). exists (e1 ++ e2).
  split; [symmetry; apply app_assoc | apply Forall_app; split; assumption].
Qed.

Lemma extends_one {A : Type} (P : A -> Prop) (l : list A) (a : A) :
  P a -> extends P l (l ++ [a]).
Proof. intros H. exists [a]. split; [reflexivity | repeat constructor; exact H]. Qed.

Lemma extends_any {A : Type} (l extra : list A) :
  extends (fun _ => True) l (l ++ extra).
Proof.
  exists extra. split; [reflexivity |]. apply Forall_forall. intros; exact I.
Qed.

Lemma quiet_refl (s : t) : quiet s s.
Proof.
  constructor; try reflexivity; try lia; apply extends_refl.
Qed.

Lemma quiet_trans (s1 s2 s3 : t) : quiet s1 s2 -> quiet s2 s3 -> quiet s1 s3.
Proof.
  intros [] []. constructor; try congruence; try lia;
    eapply extends_trans; eassumption.
Qed.

Lemma spawn_particles_shape (position : Vector2.t) (color : Color.t) (s : t) :
  exists ps g,
    List.length ps = 12%nat /\
    spawn_particles position color s
    = set_rng g (set_particles (particles s ++ ps) s).
Proof.
  unfold spawn_particles.
  assert (Hlen : forall n pal g0,
            List.length (fst (burst n position pal g0)) = n).
  { induction n as [| n IH]; intros pal g0; [reflexivity |].
    cbn [burst]. unfold Random.uniform, Random.choice, Random.randbelow,
      Random.random.
    specialize (IH pal).
    match goal with
    | |- context [burst n position pal ?g1] =>
        specialize (IH g1); destruct (burst n position pal g1)
    end.
    cbn [fst List.length] in *. congruence. }
  match goal with
  | |- context [burst 12 position ?pal (rng s)] =>
      exists (fst (burst 12 position pal (rng s))),
             (snd (burst 12 position pal (rng s)));
      split; [apply Hlen | reflexivity]
  end.
Qed.


Lemma cosmetic_trans (a1 a2 : list string) (n1 n2 : nat) (s1 s2 s3 : t) :
  cosmetic a1 n1 s1 s2 -> cosmetic a2 n2 s2 s3 ->
  cosmetic (a1 ++ a2) (n1 + n2) s1 s3.
Proof.
  intros [? ? ? ? ? ? ? ? ? Ha1 (ps1 & Hp1 & Hl1)]
         [? ? ? ? ? ? ? ? ? Ha2 (ps2 & Hp2 & Hl2)].
  constructor; try congruence.
  - rewrite Ha2, Ha1. symmetry. apply app_assoc.
  - exists (ps1 ++ ps2). split.
    + rewrite Hp2, Hp1. symmetry. apply app_assoc.
    + rewrite length_app. congruence.
Qed.

Lemma cosmetic_quiet (a : list string) (n : nat) (s s' : t) :
  Forall (fun x => x = "hit"%string) a -> cosmetic a n s s' -> quiet s s'.
Proof.
  intros Ha [Hb Hp He Hbu Hel Ht Hi Hs Hw Hau (ps & Hps & _)].
  constructor; try assumption; try (rewrite Hp; reflexivity).
  - rewrite Hs. lia.
  - rewrite Hbu. reflexivity.
  - exists a. split; assumption.
  - rewrite Hps. apply extends_any.
Qed.

Lemma cosmetic_spawn_particles (position : Vector2.t) (color : Color.t)
  (s : t) :
  cosmetic [] 12 s (spawn_particles position color s).
Proof.
  destruct (spawn_particles_shape position color s) as (ps & g & Hl & ->).
  constructor; try reflexivity.
  - cbn. symmetry. apply app_nil_r.
  - exists ps. split; [reflexivity | exact Hl].
Qed.

Lemma cosmetic_play (name : string) (s : t) : cosmetic [name] 0 s (play name s).
Proof.
  constructor; try reflexivity.
  exists []. split; [cbn; symmetry; apply app_nil_r | reflexivity].
Qed.

(** A burst of particles and the sound of a hit. *)
Lemma cosmetic_burst_hit (position : Vector2.t) (color : Color.t) (s : t) :
  cosmetic ["hit"%string] 12 s
           (play "hit" (spawn_particles position color s)).
Proof.
  apply (cosmetic_trans [] ["hit"%string] 12 0 s
           (spawn_particles position color s)).
  - apply cosmetic_spawn_particles.
  - apply cosmetic_play.
Qed.

Lemma quiet_damage_player (s : t) :
  quiet s (set_player
             (Player.set_health (Player.health (player s) - 10) (player s)) s).
Proof.
  constructor; cbn; try reflexivity; try lia; apply extends_refl.
Qed.

Lemma quiet_award (s : t) : quiet s (set_score (score s + 5) s).
Proof.
  constructor; cbn; try reflexivity; try lia; apply extends_refl.
Qed.

End Frames.

(** ** The loops of the collision pass *)

Section Pass.

Import GameWorld.

Ltac splits := repeat match goal with |- _ /\ _ => split end.

(** Name a state and keep only what is known about it.  The state becomes
    a bound variable of the proof term, so that no later conversion can look
    inside it. *)
Ltac forget t x := generalize dependent t; intros x; intros.

Lemma first_hit_some (r : Rect.t) (bs : list Bullet.t) (k : nat)
  (b : Bullet.t) :
  first_hit r bs = Some (k, b) ->
  nth_error bs k = Some b /\ hits r b = true /\
  forall j b', (j < k)%nat -> nth_error bs j = Some b' -> hits r b' = false.
Proof.
  revert k. induction bs as [| b0 bs IH]; intros k H; [discriminate |].
  cbn [first_hit] in H. destruct (hits r b0) eqn:Hb0.
  - injection H as <- <-. splits; [reflexivity | assumption |].
    intros j b' Hj. lia.
  - destruct (first_hit r bs) as [[k' b''] |]; [| discriminate].
    injection H as <- <-. destruct (IH k' eq_refl) as (Hn & Hh & Hlt).
    splits; [exact Hn | exact Hh |].
    intros [| j] b' Hj Hnth; cbn in Hnth.
    + congruence.
    + apply (Hlt j); [lia | assumption].
Qed.

Lemma first_hit_none (r : Rect.t) (bs : list Bullet.t) :
  first_hit r bs = None -> Forall (fun b => hits r b = false) bs.
Proof.
  induction bs as [| b0 bs IH]; intros H; [constructor |].
  cbn [first_hit] in H. destruct (hits r b0) eqn:Hb0; [discriminate |].
  destruct (first_hit r bs) as [[k' b''] |]; [discriminate |].
  constructor; [assumption | apply IH; reflexivity].
Qed.

Lemma replace_length (k : nat) (b : Bullet.t) (bs : list Bullet.t) :
  List.length (replace k b bs) = List.length bs.
Proof.
  revert k. induction bs as [| b0 bs IH]; intros [| k]; cbn; congruence.
Qed.

Lemma replace_nth_same (k : nat) (b b0 : Bullet.t) (bs : list Bullet.t) :
  nth_error bs k = Some b0 -> nth_error (replace k b bs) k = Some b.
Proof.
  revert k. induction bs as [| b1 bs IH]; intros [| k] H; cbn in *;
    try discriminate; [reflexivity | apply IH; assumption].
Qed.

Lemma replace_nth_other (k j : nat) (b : Bullet.t) (bs : list Bullet.t) :
  j <> k -> nth_error (replace k b bs) j = nth_error bs j.
Proof.
  revert k j. induction bs as [| b1 bs IH]; intros [| k] [| j] H; cbn;
    try reflexivity; [contradiction | apply IH; congruence].
Qed.

Lemma replace_positions (k : nat) (b b0 : Bullet.t) (bs : list Bullet.t) :
  nth_error bs k = Some b0 -> Bullet.position b = Bullet.position b0 ->
  map Bullet.position (replace k b bs) = map Bullet.position bs.
Proof.
  revert k. induction bs as [| b1 bs IH]; intros [| k] H Hp; cbn in *;
    try discriminate.
  - injection H as ->. congruence.
  - f_equal. apply IH; assumption.
Qed.

Lemma position_spend (b : Bullet.t) :
  Bullet.position (spend b) = Bullet.position b.
Proof. unfold spend. destruct (0 <? Bullet.pierce b)%Z; reflexivity. Qed.

Lemma quiet_spend (s : t) (k : nat) (b : Bullet.t) :
  nth_error (bullets s) k = Some b ->
  quiet s (set_bullets (replace k (spend b) (bullets s)) s).
Proof.
  intros H. constructor; cbn; try reflexivity; try lia;
    try apply extends_refl.
  apply (replace_positions k _ b); [assumption | apply position_spend].
Qed.

Lemma write_length (i : nat) (e : Enemy.t) (l : list (nat * Enemy.t)) :
  List.length (write i e l) = List.length l.
Proof. apply length_map. Qed.

Lemma remove_length (e : Enemy.t) (l l' : list (nat * Enemy.t)) :
  remove e l = Some l' -> S (List.length l') = List.length l.
Proof.
  revert l'. induction l as [| q l IH]; intros l' H; [discriminate |].
  cbn [remove] in H. destruct (Enemy.eqb (snd q) e).
  - injection H as <-. reflexivity.
  - destruct (remove e l) as [l0 |]; [| discriminate].
    injection H as <-. cbn. f_equal. apply IH. reflexivity.
Qed.

Lemma remove_contains (e : Enemy.t) (l : list (nat * Enemy.t)) :
  contains e l = true -> exists l', remove e l = Some l'.
Proof.
  induction l as [| q l IH]; intros H; [discriminate |].
  cbn in *. destruct (Enemy.eqb (snd q) e); [eexists; reflexivity |].
  destruct (IH H) as [l' ->]. eexists; reflexivity.
Qed.

(** The player-contact check. *)
Lemma contact_check_facts (pr : Rect.t) (i : nat) (e : Enemy.t) (p : Pass) :
  let r := contact_check pr i e p in
  quiet (world p) (world (snd r)) /\
  (List.length (live (snd r)) <= List.length (live p))%nat /\
  enemies (world (snd r)) = enemies (world p) /\
  bullets (world (snd r)) = bullets (world p) /\
  score (world (snd r)) = score (world p) /\
  Enemy.rect (fst r) = Enemy.rect e /\
  Player.health (player (world (snd r))) =
    (if Rect.colliderect (Enemy.rect e) pr
     then Player.health (player (world p)) - 10
     else Player.health (player (world p)))%Z.
Proof.
  unfold contact_check. destruct p as [s l]. cbn [world live].
  destruct (Rect.colliderect (Enemy.rect e) pr).
  2: { cbn [fst snd world live].
       splits; try reflexivity; try lia; apply quiet_refl. }
  pose proof (quiet_damage_player s) as Hq1.
  match goal with
  | |- context [play "hit" (spawn_particles ?a ?c ?s1)] =>
      pose proof (cosmetic_burst_hit a c s1) as Hc;
      forget (play "hit" (spawn_particles a c s1)) s3;
      assert (He1 : enemies s1 = enemies s) by reflexivity;
      assert (Hb1 : bullets s1 = bullets s) by reflexivity;
      assert (Hs1 : score s1 = score s) by reflexivity;
      assert (Hh1 : Player.health (player s1)
                    = (Player.health (player s) - 10)%Z) by reflexivity;
      forget s1 s1'
  end.
  assert (Hq : quiet s s3).
  { apply (quiet_trans _ s1'); [exact Hq1 |].
    apply (cosmetic_quiet ["hit"%string] 12); [| exact Hc].
    repeat constructor. }
  destruct Hc as [_ Hp He Hb _ _ _ Hs _ _ _].
  set (e1 := Enemy.take_damage e (Enemy.health e)).
  destruct (Enemy.is_dead e1 && contains e1 (write i e1 l)) eqn:Hd;
    cbn [fst snd world live].
  - splits; try exact Hq; try congruence; try reflexivity.
    apply andb_prop in Hd. destruct Hd as [_ Hc].
    destruct (remove_contains _ _ Hc) as [l' Hr]. rewrite Hr.
    apply remove_length in Hr. rewrite write_length in Hr. lia.
  - splits; try exact Hq; try congruence; try reflexivity.
    rewrite write_length. lia.
Qed.

(** The bullet loop for one enemy. *)
Lemma bullet_check_facts (i : nat) (e : Enemy.t) (p : Pass) :
  let r := final (bullet_check i e p) in
  quiet (world p) (world r) /\
  (List.length (live r) <= List.length (live p))%nat /\
  enemies (world r) = enemies (world p) /\
  Player.health (player (world r)) = Player.health (player (world p)).
Proof.
  unfold bullet_check. destruct p as [s l]. cbn [world live].
  destruct (first_hit (Enemy.rect e) (bullets s)) as [[k b] |] eqn:Hf.
  2: { cbn [final world live].
       splits; try reflexivity; try lia; apply quiet_refl. }
  apply first_hit_some in Hf. destruct Hf as (Hn & _ & _).
  set (e1 := Enemy.take_damage e (Bullet.damage b)).
  pose proof (cosmetic_burst_hit (Bullet.position b) (Bullet.color b) s) as Hc.
  forget (play "hit" (spawn_particles (Bullet.position b) (Bullet.color b) s))
         s1.
  assert (Hq1 : quiet s s1).
  { apply (cosmetic_quiet ["hit"%string] 12); [| exact Hc]. repeat constructor. }
  destruct Hc as [_ Hp1 He1 Hb1 _ _ _ _ _ _ _].
  destruct (Enemy.is_dead e1).
  - pose proof (quiet_award s1) as Hq2.
    assert (Hp2 : player (set_score (score s1 + 5) s1) = player s1)
      by reflexivity.
    assert (He2 : enemies (set_score (score s1 + 5) s1) = enemies s1)
      by reflexivity.
    assert (Hb2 : bullets (set_score (score s1 + 5) s1) = bullets s1)
      by reflexivity.
    forget (set_score (score s1 + 5) s1) s2.
    pose proof (cosmetic_spawn_particles (Enemy.position e1) (Enemy.color e1)
                  s2) as Hc3.
    forget (spawn_particles (Enemy.position e1) (Enemy.color e1) s2) s3.
    assert (Hq3 : quiet s s3).
    { apply (quiet_trans _ s1); [exact Hq1 |].
      apply (quiet_trans _ s2); [exact Hq2 |].
      apply (cosmetic_quiet [] 12); [constructor | exact Hc3]. }
    destruct Hc3 as [_ Hp3 He3 Hb3 _ _ _ _ _ _ _].
    assert (Hn3 : nth_error (bullets s3) k = Some b) by congruence.
    pose proof (quiet_spend s3 k b Hn3) as Hq4.
    destruct (remove e1 (write i e1 l)) as [l' |] eqn:Hr;
      cbn [bind final world live].
    + splits.
      * apply (quiet_trans _ s3); assumption.
      * apply remove_length in Hr. rewrite write_length in Hr. lia.
      * cbn [enemies set_bullets]. congruence.
      * cbn [player set_bullets]. congruence.
    + splits; [assumption | rewrite write_length; lia | congruence
              | congruence].
  - assert (Hn1 : nth_error (bullets s1) k = Some b) by congruence.
    pose proof (quiet_spend s1 k b Hn1) as Hq4.
    cbn [bind final world live]. splits.
    + apply (quiet_trans _ s1); assumption.
    + rewrite write_length. lia.
    + cbn [enemies set_bullets]. congruence.
    + cbn [player set_bullets]. congruence.
Qed.

End Pass.

Section Collisions.

Import GameWorld.

Ltac splits := repeat match goal with |- _ /\ _ => split end.

Lemma per_enemy_facts (pr : Rect.t) (i : nat) (e : Enemy.t) (p : Pass) :
  let r := final (per_enemy pr i e p) in
  quiet (world p) (world r) /\
  (List.length (live r) <= List.length (live p))%nat /\
  Player.health (player (world r)) =
    (if touches pr (i, e)
     then Player.health (player (world p)) - 10
     else Player.health (player (world p)))%Z.
Proof.
  unfold per_enemy, touches. cbn [snd].
  pose proof (contact_check_facts pr i e p) as Hc. cbn zeta in Hc.
  destruct (contact_check pr i e p) as [e1 p1]. cbn [fst snd] in Hc.
  destruct Hc as (Hq & Hl & _ & _ & _ & _ & Hh).
  pose proof (bullet_check_facts i e1 p1) as Hb. cbn zeta in Hb.
  destruct Hb as (Hq' & Hl' & _ & Hh').
  cbn zeta. splits.
  - apply (quiet_trans _ (world p1)); assumption.
  - lia.
  - rewrite Hh'. exact Hh.
Qed.

Lemma enemy_loop_facts (pr : Rect.t) (snap : list (nat * Enemy.t)) (p : Pass) :
  let r := enemy_loop pr snap p in
  quiet (world p) (world (final r)) /\
  (List.length (live (final r)) <= List.length (live p))%nat /\
  (returned r = true ->
   Player.health (player (world (final r))) =
   (Player.health (player (world p))
    - 10 * Z.of_nat (List.length (filter (touches pr) snap)))%Z).
Proof.
  revert p. induction snap as [| [i e] snap IH]; intros p; cbn zeta.
  { cbn. splits; [apply quiet_refl | lia | intros _; lia]. }
  cbn [enemy_loop].
  pose proof (per_enemy_facts pr i e p) as Hp. cbn zeta in Hp.
  destruct (per_enemy pr i e p) as [p1 | p1]; cbn [bind final] in *.
  - destruct Hp as (Hq & Hl & Hh).
    specialize (IH p1). cbn zeta in IH. destruct IH as (Hq' & Hl' & Hh').
    splits.
    + apply (quiet_trans _ (world p1)); assumption.
    + lia.
    + intros Hr. rewrite (Hh' Hr), Hh. cbn [filter].
      destruct (touches pr (i, e)); cbn [List.length]; lia.
  - destruct Hp as (Hq & Hl & Hh).
    splits; [assumption | lia | discriminate].
Qed.

Lemma snapshot_length (s : t) :
  List.length (snapshot s) = List.length (enemies s).
Proof.
  unfold snapshot. rewrite length_combine, length_seq. apply Nat.min_id.
Qed.

Lemma snapshot_enemies (s : t) : map snd (snapshot s) = enemies s.
Proof.
  unfold snapshot. generalize 0%nat.
  induction (enemies s) as [| e l IH]; intros n; [reflexivity |].
  cbn. f_equal. apply IH.
Qed.

(** The pass, as the world sees it. *)
Lemma handle_collisions_shape (s : t) :
  exists p,
    quiet s (world p) /\
    (List.length (live p) <= List.length (enemies s))%nat /\
    (handle_collisions s = Returns (clamp_health (sync p)) /\
     Player.health (player (world p)) =
       (Player.health (player s)
        - 10 * Z.of_nat (List.length
                           (filter (touches (player_rect s)) (snapshot s))))%Z
     \/ handle_collisions s = Raises (sync p)).
Proof.
  unfold handle_collisions.
  pose proof (enemy_loop_facts (player_rect s) (snapshot s)
                (mkPass s (snapshot s))) as H.
  cbn zeta in H. cbn [world live] in H. rewrite snapshot_length in H.
  destruct (enemy_loop (player_rect s) (snapshot s) (mkPass s (snapshot s)))
    as [p | p]; cbn [final returned] in H; destruct H as (Hq & Hl & Hh);
    exists p; splits; try assumption.
  - left. split; [reflexivity | apply Hh; reflexivity].
  - right. reflexivity.
Qed.

(** A pass that returns leaves a health that is not negative. *)
Lemma handle_collisions_floor (s s' : t) :
  handle_collisions s = Returns s' -> (0 <= Player.health (player s'))%Z.
Proof.
  destruct (handle_collisions_shape s) as (p & _ & _ & [[-> _] | ->]);
    [| discriminate].
  intros H. injection H as <-. unfold clamp_health.
  destruct (Player.health (player (sync p)) <=? 0)%Z eqn:E; cbn; [lia |].
  apply Z.leb_gt in E. cbn in E. lia.
Qed.

(** What the pass leaves of the world, whether it returns or not. *)
Lemma handle_collisions_facts (s : t) :
  let s' := final (handle_collisions s) in
  elapsed s' = elapsed s /\
  spawn_timer s' = spawn_timer s /\
  spawn_interval s' = spawn_interval s /\
  (List.length (enemies s') <= List.length (enemies s))%nat /\
  map Bullet.position (bullets s') = map Bullet.position (bullets s) /\
  extends (fun n => n = "hit"%string) (audio s) (audio s') /\
  (score s <= score s')%Z /\
  ((Player.health (player s) <= 0)%Z -> (Player.health (player s') <= 0)%Z).
Proof.
  destruct (handle_collisions_shape s) as (p & Hq & Hl & [[-> _] | ->]);
    cbn [final]; destruct Hq; unfold clamp_health, sync.
  - destruct (Player.health (player _) <=? 0)%Z eqn:E; cbn in E |- *;
      rewrite ?length_map; splits; try assumption; try lia.
  - cbn. rewrite ?length_map. splits; try assumption; lia.
Qed.

(** Without a bullet that meets an enemy, the pass returns. *)
Lemma enemy_loop_returns (pr : Rect.t) (snap : list (nat * Enemy.t))
  (p : Pass) :
  Forall (fun q => first_hit (Enemy.rect (snd q)) (bullets (world p)) = None)
         snap ->
  returned (enemy_loop pr snap p) = true /\
  bullets (world (final (enemy_loop pr snap p))) = bullets (world p) /\
  score (world (final (enemy_loop pr snap p))) = score (world p).
Proof.
  revert p. induction snap as [| [i e] snap IH]; intros p H.
  { cbn. splits; reflexivity. }
  inversion H as [| q l Hq Hl]; subst. cbn [snd] in Hq.
  cbn [enemy_loop]. unfold per_enemy.
  pose proof (contact_check_facts pr i e p) as Hc. cbn zeta in Hc.
  destruct (contact_check pr i e p) as [e1 p1]. cbn [fst snd] in Hc.
  destruct Hc as (_ & _ & _ & Hb & Hs & Hr & _).
  unfold bullet_check. rewrite Hr, Hb, Hq. cbn [bind].
  rewrite <- Hb, <- Hs. apply IH. rewrite Hb. exact Hl.
Qed.

Lemma handle_collisions_returns (s : t) :
  Forall (fun e => first_hit (Enemy.rect e) (bullets s) = None) (enemies s) ->
  returned (handle_collisions s) = true /\
  score (final (handle_collisions s)) = score s.
Proof.
  intros H. unfold handle_collisions.
  destruct (enemy_loop_returns (player_rect s) (snapshot s)
              (mkPass s (snapshot s))) as (Hr & _ & Hs).
  { cbn [world]. rewrite <- (snapshot_enemies s) in H.
    rewrite Forall_map in H. exact H. }
  destruct (enemy_loop _ _ _) as [p | p]; [| discriminate].
  cbn [final world] in *. split; [reflexivity |].
  unfold clamp_health, sync.
  destruct (Player.health _ <=? 0)%Z; cbn; exact Hs.
Qed.

End Collisions.

(** ** The frame around the pass *)

Section Frame.

Import GameWorld.

Ltac splits := repeat match goal with |- _ /\ _ => split end.

Ltac forget t x := generalize dependent t; intros x; intros.

Ltac open_draws :=
  repeat match goal with
    | |- context [match ?x with pair _ _ => _ end] => destruct x
    | |- context [if ?c then _ else _] => destruct c
    end.

Lemma spawn_one_shape (s : t) :
  exists e g, spawn_one s = set_rng g (set_enemies (enemies s ++ [e]) s).
Proof.
  unfold spawn_one.
  destruct (Random.choices _ _ _ _) as [type_name g1].
  destruct (Random.choice _ _ _) as [spawn_edge g2].
  open_draws; eexists; eexists; reflexivity.
Qed.

Lemma spawn_many_shape (n : nat) (s : t) :
  exists es g,
    List.length es = n /\
    spawn_many n s = set_rng g (set_enemies (enemies s ++ es) s).
Proof.
  revert s. induction n as [| n IH]; intros s.
  - exists [], (rng s). split; [reflexivity |]. cbn. rewrite app_nil_r.
    destruct s; reflexivity.
  - cbn [spawn_many]. destruct (spawn_one_shape s) as (e & g & ->).
    destruct (IH (set_rng g (set_enemies (enemies s ++ [e]) s)))
      as (es & g' & Hl & ->).
    exists (e :: es), g'. split; [cbn; congruence |].
    cbn. rewrite <- app_assoc. reflexivity.
Qed.

Lemma spawn_enemy_wave_shape (s : t) :
  exists es g,
    List.length es = Z.to_nat (1 + Int_part (elapsed s / 12)) /\
    spawn_enemy_wave s = set_rng g (set_enemies (enemies s ++ es) s).
Proof. apply spawn_many_shape. Qed.

Lemma fire_dead (keys : Input) (s : t) :
  (Player.health (player s) <= 0)%Z -> fire keys s = s.
Proof.
  intros H. unfold fire. destruct (Player.weapon (player s)); [| reflexivity].
  apply Z.ltb_ge in H. rewrite H, andb_false_r. reflexivity.
Qed.

(** What the firing block leaves alone. *)
Lemma fire_facts (keys : Input) (s : t) :
  let s' := fire keys s in
  elapsed s' = elapsed s /\ spawn_timer s' = spawn_timer s /\
  spawn_interval s' = spawn_interval s /\ enemies s' = enemies s /\
  bounds s' = bounds s /\ score s' = score s /\
  Player.health (player s') = Player.health (player s) /\
  Player.position (player s') = Player.position (player s).
Proof.
  unfold fire. destruct (Player.weapon (player s)) as [w |];
    [| cbn zeta; splits; reflexivity].
  destruct (mouse_pressed keys && (0 <? Player.health (player s))%Z);
    [| cbn zeta; splits; reflexivity].
  destruct (Weapon.try_fire w _ _) as [[| b bs] w']; cbn; splits; reflexivity.
Qed.

(** The first steps of [advance]: the clock, the player, the weapon timer. *)
Lemma advance_start (dt : R) (keys : Input) (s : t) :
  exists s2,
    advance dt keys s =
      (let s3 := fire keys s2 in
       let s4 :=
         set_bullets
           (map (fun b => Bullet.update b dt (bounds s3)) (bullets s3)) s3 in
       let s5 := set_bullets (filter Bullet.alive (bullets s4)) s4 in
       set_enemies
         (map (fun e => Enemy.update e dt (Player.position (player s5)))
              (enemies s5)) s5) /\
    elapsed s2 = elapsed s + dt /\ spawn_timer s2 = spawn_timer s /\
    spawn_interval s2 = spawn_interval s /\ enemies s2 = enemies s /\
    score s2 = score s /\ bullets s2 = bullets s /\ audio s2 = audio s /\
    bounds s2 = bounds s /\
    Player.health (player s2) = Player.health (player s).
Proof.
  unfold advance.
  match goal with
  | |- context [fire keys ?x] => exists x
  end.
  split; [reflexivity |].
  cbn [player set_player set_elapsed].
  destruct (Player.weapon _); cbn; splits; reflexivity.
Qed.

Lemma advance_facts (dt : R) (keys : Input) (s : t) :
  let s' := advance dt keys s in
  elapsed s' = elapsed s + dt /\ spawn_timer s' = spawn_timer s /\
  spawn_interval s' = spawn_interval s /\
  List.length (enemies s') = List.length (enemies s) /\
  score s' = score s /\
  Player.health (player s') = Player.health (player s).
Proof.
  destruct (advance_start dt keys s)
    as (s2 & -> & He & Ht & Hi & Hn & Hs & _ & _ & _ & Hh).
  pose proof (fire_facts keys s2) as Hf. cbn zeta in Hf.
  destruct Hf as (He' & Ht' & Hi' & Hn' & _ & Hs' & Hh' & _).
  cbn zeta. forget (fire keys s2) s3.
  cbn [elapsed spawn_timer spawn_interval enemies score player
       set_enemies set_bullets].
  rewrite length_map. splits; congruence.
Qed.

(** The bullets and the sounds of [advance] when the player is dead. *)
Lemma advance_dead (dt : R) (keys : Input) (s : t) :
  (Player.health (player s) <= 0)%Z ->
  bullets (advance dt keys s) =
    filter Bullet.alive
           (map (fun b => Bullet.update b dt (bounds s)) (bullets s)) /\
  audio (advance dt keys s) = audio s.
Proof.
  intros H.
  destruct (advance_start dt keys s)
    as (s2 & -> & _ & _ & _ & _ & _ & Hb & Ha & Hbd & Hh).
  rewrite fire_dead by lia.
  cbn zeta. cbn [bullets audio bounds set_enemies set_bullets].
  rewrite Hb, Ha, Hbd. split; reflexivity.
Qed.

(** The particle steps of [settle] touch the particles only. *)
Lemma settle_unfold (dt : R) (s : t) :
  exists s1,
    settle dt s =
      (if negb (0 <? Player.health (player s1))%Z then s1
       else
         let s2 := set_spawn_timer (spawn_timer s1 - dt) s1 in
         if Rleb (spawn_timer s2) 0 then
           let s3 := spawn_enemy_wave s2 in
           set_spawn_timer (next_spawn s3) s3
         else s2) /\
    elapsed s1 = elapsed s /\ spawn_interval s1 = spawn_interval s /\
    spawn_timer s1 = spawn_timer s /\
    player s1 = player s /\ bullets s1 = bullets s /\ audio s1 = audio s /\
    score s1 = score s /\ enemies s1 = enemies s /\ rng s1 = rng s.
Proof.
  unfold settle.
  match goal with
  | |- context [set_spawn_timer (spawn_timer ?x - dt) ?x] => exists x
  end.
  split; [reflexivity |]. cbn. splits; reflexivity.
Qed.

Lemma settle_facts (dt : R) (s : t) :
  let s' := settle dt s in
  elapsed s' = elapsed s /\ spawn_interval s' = spawn_interval s /\
  player s' = player s /\ bullets s' = bullets s /\ audio s' = audio s /\
  score s' = score s.
Proof.
  destruct (settle_unfold dt s)
    as (s1 & -> & He & Hi & Ht & Hp & Hb & Ha & Hs & Hn & Hg).
  cbn zeta.
  destruct (negb (0 <? Player.health (player s1))%Z);
    [splits; assumption |].
  cbn [spawn_timer set_spawn_timer].
  destruct (Rleb (spawn_timer s1 - dt) 0); [| cbn; splits; assumption].
  destruct (spawn_enemy_wave_shape
              (set_spawn_timer (spawn_timer s1 - dt) s1))
    as (es & g & _ & ->).
  cbn. splits; assumption.
Qed.

(** A dead player: the spawner is not run. *)
Lemma settle_dead (dt : R) (s : t) :
  (Player.health (player s) <= 0)%Z ->
  spawn_timer (settle dt s) = spawn_timer s /\
  enemies (settle dt s) = enemies s /\
  rng (settle dt s) = rng s.
Proof.
  intros H.
  destruct (settle_unfold dt s)
    as (s1 & -> & _ & _ & Ht & Hp & _ & _ & _ & Hn & Hg).
  rewrite Hp. apply Z.ltb_ge in H. rewrite H. cbn [negb].
  splits; assumption.
Qed.

(** A living player whose spawn timer runs out: the timer is set again. *)
Lemma settle_wave (dt : R) (s : t) :
  (0 < Player.health (player s))%Z -> spawn_timer s - dt <= 0 ->
  spawn_timer (settle dt s) = Rmax 0.4 (spawn_interval s - elapsed s * 0.01).
Proof.
  intros H Hle.
  destruct (settle_unfold dt s)
    as (s1 & -> & He & Hi & Ht & Hp & _ & _ & _ & _ & _).
  rewrite Hp. apply Z.ltb_lt in H. rewrite H. cbn [negb]. cbn zeta.
  cbn [spawn_timer set_spawn_timer]. rewrite Ht.
  rewrite Rleb_true by assumption.
  destruct (spawn_enemy_wave_shape
              (set_spawn_timer (spawn_timer s - dt) s1))
    as (es & g & _ & ->).
  cbn [spawn_timer set_spawn_timer]. unfold next_spawn. cbn.
  rewrite He, Hi. reflexivity.
Qed.

Lemma update_final (s : t) (dt : R) (keys : Input) :
  final (update s dt keys) =
  match handle_collisions (advance dt keys s) with
  | Returns s1 => settle dt s1
  | Raises s1 => s1
  end.
Proof.
  unfold update. destruct (handle_collisions _); reflexivity.
Qed.

Lemma update_returned (s : t) (dt : R) (keys : Input) :
  returned (update s dt keys)
  = returned (handle_collisions (advance dt keys s)).
Proof.
  unfold update. destruct (handle_collisions _); reflexivity.
Qed.

(** Every frame adds [dt] to the clock and keeps the baseline interval. *)
Lemma update_clock (s : t) (dt : R) (keys : Input) :
  elapsed (final (update s dt keys)) = elapsed s + dt /\
  spawn_interval (final (update s dt keys)) = spawn_interval s.
Proof.
  rewrite update_final.
  pose proof (advance_facts dt keys s) as Ha. cbn zeta in Ha.
  destruct Ha as (He & _ & Hi & _).
  pose proof (handle_collisions_facts (advance dt keys s)) as Hc.
  cbn zeta in Hc. destruct Hc as (He' & _ & Hi' & _).
  destruct (handle_collisions (advance dt keys s)) as [s1 | s1];
    cbn [final] in *.
  - pose proof (settle_facts dt s1) as Hs. cbn zeta in Hs.
    destruct Hs as (He'' & Hi'' & _). split; congruence.
  - split; congruence.
Qed.

End Frame.

(** ** An enemy on top of the player, with a bullet inside it *)

Section ContactAndHit.

Import GameWorld.

Ltac splits := repeat match goal with |- _ /\ _ => split end.

Lemma eqb_refl (e : Enemy.t) : Enemy.eqb e e = true.
Proof. unfold Enemy.eqb. destruct (Enemy.eq_dec e e); congruence. Qed.

Lemma is_dead_after_contact (e : Enemy.t) :
  Enemy.is_dead (Enemy.take_damage e (Enemy.health e)) = true.
Proof. unfold Enemy.is_dead. cbn. apply Rleb_true. lra. Qed.

Lemma snapshot_one (s : t) (e : Enemy.t) :
  enemies s = [e] -> snapshot s = [(0%nat, e)].
Proof. intros H. unfold snapshot. rewrite H. reflexivity. Qed.

(** The contact check removes the only enemy of the world. *)
Lemma contact_check_one (pr : Rect.t) (e : Enemy.t) (s : t) :
  Rect.colliderect (Enemy.rect e) pr = true ->
  exists s3,
    contact_check pr 0 e (mkPass s [(0%nat, e)]) =
      (Enemy.take_damage e (Enemy.health e), mkPass s3 []) /\
    cosmetic ["hit"%string] 12
      (set_player
         (Player.set_health (Player.health (player s) - 10) (player s)) s)
      s3.
Proof.
  intros H. unfold contact_check. rewrite H. cbn [world live].
  rewrite is_dead_after_contact.
  unfold write. cbn [map fst Nat.eqb]. unfold contains. cbn [existsb snd].
  rewrite eqb_refl. cbn [orb andb remove snd]. rewrite eqb_refl.
  eexists. split; [reflexivity | apply cosmetic_burst_hit].
Qed.

(** Then the bullet loop still runs for it: the hit is played, the score is
    awarded, and [self.enemies.remove(enemy)] finds nothing to remove. *)
Lemma bullet_check_gone (i : nat) (e : Enemy.t) (s : t) (k : nat)
  (b : Bullet.t) :
  first_hit (Enemy.rect e) (bullets s) = Some (k, b) ->
  Enemy.health e - Bullet.damage b <= 0 ->
  exists s1 s3,
    bullet_check i e (mkPass s []) = Raises (mkPass s3 []) /\
    cosmetic ["hit"%string] 12 s s1 /\
    cosmetic [] 12 (set_score (score s1 + 5) s1) s3.
Proof.
  intros Hf Hd. unfold bullet_check. cbn [world live]. rewrite Hf.
  unfold Enemy.is_dead. cbn [Enemy.take_damage Enemy.set_health Enemy.health].
  rewrite Rleb_true by assumption.
  cbn [write map remove bind].
  eexists. eexists. split; [reflexivity |].
  split; [apply cosmetic_burst_hit | apply cosmetic_spawn_particles].
Qed.

(** The whole pass on such a world. *)
Lemma contact_then_hit (s : t) (e : Enemy.t) (k : nat) (b : Bullet.t) :
  enemies s = [e] ->
  Rect.colliderect (Enemy.rect e) (player_rect s) = true ->
  first_hit (Enemy.rect e) (bullets s) = Some (k, b) ->
  0 <= Bullet.damage b ->
  exists s',
    handle_collisions s = Raises s' /\
    score s' = (score s + 5)%Z /\
    enemies s' = [] /\
    bullets s' = bullets s /\
    Player.health (player s') = (Player.health (player s) - 10)%Z /\
    audio s' = audio s ++ ["hit"; "hit"]%string /\
    List.length (particles s') = (List.length (particles s) + 36)%nat.
Proof.
  intros He Hc Hf Hd. unfold handle_collisions.
  rewrite (snapshot_one s e He). cbn [enemy_loop]. unfold per_enemy.
  destruct (contact_check_one (player_rect s) e s Hc) as (s3 & -> & C1).
  destruct (bullet_check_gone 0 (Enemy.take_damage e (Enemy.health e)) s3 k b)
    as (s4 & s5 & -> & C2 & C3).
  { change (Enemy.rect (Enemy.take_damage e (Enemy.health e)))
      with (Enemy.rect e).
    rewrite (c_bullets _ _ _ _ C1). exact Hf. }
  { cbn [Enemy.take_damage Enemy.set_health Enemy.health]. lra. }
  cbn [bind]. eexists. split; [reflexivity |].
  unfold sync. cbn [world live map].
  destruct C1 as [_ P1 _ B1 _ _ _ S1 _ A1 (ps1 & Q1 & L1)].
  destruct C2 as [_ P2 _ B2 _ _ _ S2 _ A2 (ps2 & Q2 & L2)].
  destruct C3 as [_ P3 _ B3 _ _ _ S3 _ A3 (ps3 & Q3 & L3)].
  cbn [score player bullets audio particles set_score set_player] in *.
  cbn [score player bullets audio particles enemies set_enemies].
  splits.
  - rewrite S3, S2, S1. reflexivity.
  - reflexivity.
  - rewrite B3, B2, B1. reflexivity.
  - rewrite P3, P2, P1. reflexivity.
  - rewrite A3, A2, A1, app_nil_r, <- app_assoc. reflexivity.
  - rewrite Q3, Q2, Q1, !length_app, L1, L2, L3. lia.
Qed.

End ContactAndHit.

(** ** The sample worlds, measured *)

Section Measures.

Import GameWorld.

Lemma sproutling_rect (a b : Z) :
  Enemy.rect (Scenes.sproutling (Vector2.make (IZR a) (IZR b)))
  = Rect.make (a - 13) (b - 13) 26 26.
Proof.
  unfold Enemy.rect, Scenes.sproutling.
  cbn [Enemy.position Enemy.size Vector2.x Vector2.y].
  f_equal; apply py_int_eq; rewrite minus_IZR; lra.
Qed.

Lemma root_beast_rect (a b : Z) :
  Enemy.rect (Scenes.root_beast (Vector2.make (IZR a) (IZR b)))
  = Rect.make (a - 18) (b - 18) 36 36.
Proof.
  unfold Enemy.rect, Scenes.root_beast.
  cbn [Enemy.position Enemy.size Vector2.x Vector2.y].
  f_equal; apply py_int_eq; rewrite minus_IZR; lra.
Qed.

(** The square around a player who stands at the centre of the arena. *)
Lemma hero_rect (s : t) (weapon : option Weapon.t) (health : Z) :
  player s = Scenes.hero weapon health ->
  player_rect s = Rect.make 456 246 48 48.
Proof.
  intros H. unfold player_rect, Rect.set_center. rewrite H.
  unfold Scenes.hero, Scenes.centre.
  cbn [Player.radius Player.position Vector2.x Vector2.y Rect.w Rect.h].
  rewrite !py_int_IZR. reflexivity.
Qed.

Lemma hits_at (r : Rect.t) (w : Weapon.t) (a b : Z) :
  hits r (Scenes.bullet_of w (Vector2.make (IZR a) (IZR b)))
  = ((Rect.x r <=? a) && (a <? Rect.x r + Rect.w r) &&
     (Rect.y r <=? b) && (b <? Rect.y r + Rect.h r))%Z.
Proof.
  unfold hits, Rect.collidepoint, Scenes.bullet_of.
  cbn [Bullet.alive Bullet.position Vector2.x Vector2.y andb].
  rewrite !py_int_IZR. reflexivity.
Qed.

Lemma ambush_contact :
  Rect.colliderect (Enemy.rect (Scenes.sproutling Scenes.centre))
                   (player_rect Scenes.ambush) = true.
Proof.
  rewrite (hero_rect Scenes.ambush (Some Samples.seed_blaster) 100 eq_refl).
  unfold Scenes.centre. rewrite (sproutling_rect 480 270). reflexivity.
Qed.

Lemma ambush_hit :
  first_hit (Enemy.rect (Scenes.sproutling Scenes.centre))
            (bullets Scenes.ambush) = Some (0%nat, Scenes.seed).
Proof.
  unfold Scenes.centre. rewrite (sproutling_rect 480 270).
  cbn [bullets Scenes.ambush first_hit].
  unfold Scenes.seed, Scenes.centre. rewrite (hits_at _ _ 480 270).
  reflexivity.
Qed.

End Measures.

(** ** The collision pass: contact, bullets, score and health *)

Section ContactTheorems.

Import GameWorld.

Ltac splits := repeat match goal with |- _ /\ _ => split end.

Lemma returned_final {A : Type} (m : outcome A) :
  returned m = true -> m = Returns (final m).
Proof. destruct m; [reflexivity | discriminate]. Qed.

(** C1, at an input where the code departs from it: a Sproutling stands on
    the player with a seed inside it.  The contact check removes the enemy,
    and the bullet loop still runs for it: a second hit is played, a second
    and a third burst of particles are made, 5 points are awarded, and the
    second [remove] raises [ValueError] before the bullet is spent. *)
Theorem contact_kill_still_hit :
  enemies Scenes.ambush = [Scenes.sproutling Scenes.centre] /\
  Rect.colliderect (Enemy.rect (Scenes.sproutling Scenes.centre))
                   (player_rect Scenes.ambush) = true /\
  returned (handle_collisions Scenes.ambush) = false /\
  enemies (final (handle_collisions Scenes.ambush)) = [] /\
  audio (final (handle_collisions Scenes.ambush)) = ["hit"; "hit"]%string /\
  List.length (particles (final (handle_collisions Scenes.ambush))) = 36%nat /\
  score (final (handle_collisions Scenes.ambush)) = 5%Z /\
  bullets (final (handle_collisions Scenes.ambush)) = [Scenes.seed].
Proof.
  destruct (contact_then_hit Scenes.ambush (Scenes.sproutling Scenes.centre)
              0 Scenes.seed eq_refl ambush_contact ambush_hit)
    as (s' & -> & Hs & He & Hb & _ & Ha & Hp).
  { cbn. lra. }
  cbn [final returned].
  splits; try reflexivity; try assumption; apply ambush_contact.
Qed.

(** C2, where the code departs from it: when the only enemy of the world
    touches the player and holds a live bullet that deals no negative damage,
    the enemy is removed by the contact check, and the pass still adds 5 to
    the score before it raises. *)
Theorem contact_kill_scores (s : t) (e : Enemy.t) (k : nat) (b : Bullet.t) :
  enemies s = [e] ->
  Rect.colliderect (Enemy.rect e) (player_rect s) = true ->
  first_hit (Enemy.rect e) (bullets s) = Some (k, b) ->
  0 <= Bullet.damage b ->
  returned (handle_collisions s) = false /\
  enemies (final (handle_collisions s)) = [] /\
  score (final (handle_collisions s)) = (score s + 5)%Z.
Proof.
  intros He Hc Hf Hd.
  destruct (contact_then_hit s e k b He Hc Hf Hd)
    as (s' & -> & Hs & Hn & _).
  cbn [final returned]. splits; [reflexivity | assumption | assumption].
Qed.

Lemma contact_kill_scores_witness :
  (enemies Scenes.ambush = [Scenes.sproutling Scenes.centre] /\
   Rect.colliderect (Enemy.rect (Scenes.sproutling Scenes.centre))
                    (player_rect Scenes.ambush) = true /\
   first_hit (Enemy.rect (Scenes.sproutling Scenes.centre))
             (bullets Scenes.ambush) = Some (0%nat, Scenes.seed) /\
   0 <= Bullet.damage Scenes.seed) /\
  returned (handle_collisions Scenes.ambush) = false /\
  enemies (final (handle_collisions Scenes.ambush)) = [] /\
  score (final (handle_collisions Scenes.ambush))
  = (score Scenes.ambush + 5)%Z.
Proof.
  assert (Hd : 0 <= Bullet.damage Scenes.seed)
    by (unfold Scenes.seed, Scenes.bullet_of, Bullet.damage,
          Samples.seed_blaster, Weapon.bullet_damage; lra).
  split.
  - exact (conj eq_refl (conj ambush_contact (conj ambush_hit Hd))).
  - exact (contact_kill_scores Scenes.ambush
             (Scenes.sproutling Scenes.centre) 0 Scenes.seed
             eq_refl ambush_contact ambush_hit Hd).
Defined.

End ContactTheorems.

(** ** Bullets that pierce *)

Section PierceTheorems.

Import GameWorld.

Ltac splits := repeat match goal with |- _ /\ _ => split end.

Lemma write_marks (i : nat) (e : Enemy.t) (l : list (nat * Enemy.t)) :
  Forall (fun q => fst q = i -> snd q = e) (write i e l).
Proof.
  unfold write. apply Forall_map, Forall_forall. intros [j x] _.
  cbn [fst snd]. destruct (Nat.eqb_spec j i); cbn [fst snd]; congruence.
Qed.

Lemma remove_Forall (P : nat * Enemy.t -> Prop) (e : Enemy.t)
  (l l' : list (nat * Enemy.t)) :
  remove e l = Some l' -> Forall P l -> Forall P l'.
Proof.
  revert l'. induction l as [| q l IH]; intros l' H HP; [discriminate |].
  inversion HP as [| ? ? Hq Hl]; subst. cbn [remove] in H.
  destruct (Enemy.eqb (snd q) e).
  - injection H as <-. exact Hl.
  - destruct (remove e l) as [l0 |]; [| discriminate].
    injection H as <-. constructor; [exact Hq | apply IH; [reflexivity | exact Hl]].
Qed.

(** What a returning bullet loop has done. *)
Lemma bullet_check_hit (i : nat) (e : Enemy.t) (p p' : Pass) (k : nat)
  (b : Bullet.t) :
  first_hit (Enemy.rect e) (bullets (world p)) = Some (k, b) ->
  bullet_check i e p = Returns p' ->
  bullets (world p') = replace k (spend b) (bullets (world p)) /\
  Forall (fun q => fst q = i ->
                   Enemy.health (snd q) = Enemy.health e - Bullet.damage b)
         (live p').
Proof.
  intros Hf. unfold bullet_check. destruct p as [s l]. cbn [world live] in *.
  rewrite Hf.
  set (e1 := Enemy.take_damage e (Bullet.damage b)).
  assert (Hm : Forall (fun q => fst q = i ->
                 Enemy.health (snd q) = Enemy.health e - Bullet.damage b)
                 (write i e1 l)).
  { eapply Forall_impl; [| apply write_marks].
    intros q Hq Hi. rewrite (Hq Hi). reflexivity. }
  pose proof (cosmetic_burst_hit (Bullet.position b) (Bullet.color b) s) as Hc.
  generalize dependent
    (play "hit" (spawn_particles (Bullet.position b) (Bullet.color b) s)).
  intros s1 Hc.
  destruct Hc as [_ _ _ Hb1 _ _ _ _ _ _ _].
  destruct (Enemy.is_dead e1).
  - assert (Hb2 : bullets (set_score (score s1 + 5) s1) = bullets s1)
      by reflexivity.
    generalize dependent (set_score (score s1 + 5) s1). intros s2 Hb2.
    pose proof (cosmetic_spawn_particles (Enemy.position e1) (Enemy.color e1)
                  s2) as Hc3.
    generalize dependent
      (spawn_particles (Enemy.position e1) (Enemy.color e1) s2).
    intros s3 Hc3.
    destruct Hc3 as [_ _ _ Hb3 _ _ _ _ _ _ _].
    destruct (remove e1 (write i e1 l)) as [l' |] eqn:Hr; cbn [bind];
      [| discriminate].
    intros H. injection H as <-. cbn [world live bullets set_bullets].
    split; [congruence | exact (remove_Forall _ _ _ _ Hr Hm)].
  - cbn [bind]. intros H. injection H as <-.
    cbn [world live bullets set_bullets]. split; [congruence | exact Hm].
Qed.

Lemma bullet_check_miss (i : nat) (e : Enemy.t) (p : Pass) :
  first_hit (Enemy.rect e) (bullets (world p)) = None ->
  bullet_check i e p = Returns p.
Proof. intros Hf. unfold bullet_check. rewrite Hf. reflexivity. Qed.

(** A hit that the enemy survives is processed to its end. *)
Lemma bullet_check_survives (i : nat) (e : Enemy.t) (p : Pass) (k : nat)
  (b : Bullet.t) :
  first_hit (Enemy.rect e) (bullets (world p)) = Some (k, b) ->
  0 < Enemy.health e - Bullet.damage b ->
  returned (bullet_check i e p) = true.
Proof.
  intros Hf Hh. unfold bullet_check. rewrite Hf.
  unfold Enemy.is_dead. cbn [Enemy.take_damage Enemy.set_health Enemy.health].
  rewrite Rleb_false by assumption. reflexivity.
Qed.

Lemma hits_spend (r : Rect.t) (b : Bullet.t) :
  hits r (spend b) = (0 <? Bullet.pierce b)%Z && hits r b.
Proof.
  unfold hits, spend. destruct (0 <? Bullet.pierce b)%Z; reflexivity.
Qed.

(** Where the bullet loop of one enemy returns, it has run its body for one
    bullet at most, the first live bullet inside the enemy's box: that bullet
    alone changes, and the enemy loses that bullet's damage.  A bullet hit
    with pierce 1 stays alive with pierce 0 and passes the test of the loop
    wherever it passed before, so it can hit again; a bullet hit with pierce
    0 is marked not alive and passes the test for no enemy. *)
Lemma pierce_and_single_hit (i : nat) (e : Enemy.t) (p : Pass) (r : Rect.t)
  (b0 : Bullet.t) :
  match first_hit (Enemy.rect e) (bullets (world p)) with
  | None => bullet_check i e p = Returns p
  | Some (k, b) =>
      nth_error (bullets (world p)) k = Some b /\
      hits (Enemy.rect e) b = true /\
      (forall j b', (j < k)%nat -> nth_error (bullets (world p)) j = Some b' ->
                    hits (Enemy.rect e) b' = false) /\
      (forall p', bullet_check i e p = Returns p' ->
         bullets (world p') = replace k (spend b) (bullets (world p)) /\
         nth_error (bullets (world p')) k = Some (spend b) /\
         (forall j, j <> k ->
            nth_error (bullets (world p')) j = nth_error (bullets (world p)) j) /\
         Forall (fun q => fst q = i ->
                   Enemy.health (snd q) = Enemy.health e - Bullet.damage b)
                (live p'))
  end /\
  (Bullet.pierce b0 = 1%Z -> Bullet.alive b0 = true ->
   Bullet.alive (spend b0) = true /\ Bullet.pierce (spend b0) = 0%Z /\
   hits r (spend b0) = hits r b0) /\
  (Bullet.pierce b0 = 0%Z ->
   Bullet.alive (spend b0) = false /\ hits r (spend b0) = false).
Proof.
  splits.
  - destruct (first_hit (Enemy.rect e) (bullets (world p)))
      as [[k b] |] eqn:Hf; [| apply bullet_check_miss; exact Hf].
    destruct (first_hit_some _ _ _ _ Hf) as (Hn & Hh & Hlt).
    splits; try assumption.
    intros p' Hr. destruct (bullet_check_hit i e p p' k b Hf Hr) as (Hb & Hm).
    splits; try assumption.
    + rewrite Hb. apply (replace_nth_same k _ b). exact Hn.
    + intros j Hj. rewrite Hb. apply replace_nth_other. exact Hj.
  - intros Hp Ha. rewrite hits_spend. unfold spend. rewrite Hp.
    cbn. splits; [exact Ha | reflexivity | reflexivity].
  - intros Hp. rewrite hits_spend. unfold spend. rewrite Hp.
    cbn. split; reflexivity.
Qed.

Lemma hunt_first :
  first_hit (Enemy.rect Scenes.beast1) (bullets Scenes.hunt)
  = Some (0%nat, Scenes.beam).
Proof.
  unfold Scenes.beast1. rewrite (root_beast_rect 100 100).
  cbn [bullets Scenes.hunt first_hit].
  unfold Scenes.beam. rewrite (hits_at _ _ 102 100). reflexivity.
Qed.

Lemma hunt_second :
  hits (Enemy.rect Scenes.beast2) Scenes.beam = true.
Proof.
  unfold Scenes.beast2. rewrite (root_beast_rect 105 100).
  unfold Scenes.beam. rewrite (hits_at _ _ 102 100). reflexivity.
Qed.

Lemma pierce_and_single_hit_witness :
  first_hit (Enemy.rect Scenes.beast1) (bullets Scenes.hunt)
    = Some (0%nat, Scenes.beam) /\
  Bullet.pierce Scenes.beam = 1%Z /\ Bullet.alive Scenes.beam = true /\
  bullet_check 0 Scenes.beast1 (mkPass Scenes.hunt (snapshot Scenes.hunt))
    = Returns (final (bullet_check 0 Scenes.beast1
                        (mkPass Scenes.hunt (snapshot Scenes.hunt)))) /\
  bullets (world (final (bullet_check 0 Scenes.beast1
                           (mkPass Scenes.hunt (snapshot Scenes.hunt)))))
    = [spend Scenes.beam] /\
  Bullet.alive (spend Scenes.beam) = true /\
  Bullet.pierce (spend Scenes.beam) = 0%Z /\
  hits (Enemy.rect Scenes.beast2) (spend Scenes.beam) = true /\
  Bullet.alive (spend (spend Scenes.beam)) = false.
Proof.
  pose proof (pierce_and_single_hit 0 Scenes.beast1
                (mkPass Scenes.hunt (snapshot Scenes.hunt))
                (Enemy.rect Scenes.beast2) Scenes.beam) as H1.
  pose proof (pierce_and_single_hit 0 Scenes.beast1
                (mkPass Scenes.hunt (snapshot Scenes.hunt))
                (Enemy.rect Scenes.beast2) (spend Scenes.beam)) as H2.
  cbn [world] in H1. rewrite hunt_first in H1.
  destruct H1 as ((_ & _ & _ & Hret) & Hone & _).
  destruct H2 as (_ & _ & Hzero).
  assert (Hr : returned (bullet_check 0 Scenes.beast1
                           (mkPass Scenes.hunt (snapshot Scenes.hunt)))
               = true).
  { apply (bullet_check_survives _ _ _ 0 Scenes.beam); [exact hunt_first |].
    unfold Scenes.beast1, Scenes.root_beast, Scenes.beam, Scenes.bullet_of,
      Samples.solar_beam, Enemy.health, Bullet.damage, Weapon.bullet_damage.
    lra. }
  apply returned_final in Hr.
  destruct (Hret _ Hr) as (Hb & _).
  destruct (Hone eq_refl eq_refl) as (Ha & Hp & Hh).
  destruct (Hzero Hp) as (Hd & _).
  splits; try assumption; try reflexivity.
  - exact hunt_first.
  - rewrite Hh. exact hunt_second.
Defined.

(** C6, at an input where the code departs from it: in the world of the
    Sproutling that stands on the player, the seed has pierce 0, is alive and
    is the first bullet inside the enemy's box.  The bullet loop processes
    that hit (the second hit of the log) and [remove] raises before the
    bullet is spent: the seed that hit is left alive. *)
Theorem hit_bullet_left_alive :
  first_hit (Enemy.rect (Scenes.sproutling Scenes.centre))
            (bullets Scenes.ambush) = Some (0%nat, Scenes.seed) /\
  Bullet.pierce Scenes.seed = 0%Z /\
  Bullet.alive Scenes.seed = true /\
  Bullet.alive (spend Scenes.seed) = false /\
  returned (handle_collisions Scenes.ambush) = false /\
  audio (final (handle_collisions Scenes.ambush)) = ["hit"; "hit"]%string /\
  nth_error (bullets (final (handle_collisions Scenes.ambush))) 0
  = Some Scenes.seed.
Proof.
  destruct (contact_then_hit Scenes.ambush (Scenes.sproutling Scenes.centre)
              0 Scenes.seed eq_refl ambush_contact ambush_hit)
    as (s' & -> & _ & _ & Hb & _ & Ha & _).
  { unfold Scenes.seed, Scenes.bullet_of, Bullet.damage,
      Samples.seed_blaster, Weapon.bullet_damage. lra. }
  cbn [final returned]. rewrite Hb.
  splits; try reflexivity; [exact ambush_hit | exact Ha].
Qed.

End PierceTheorems.

(** ** Whole frames: health, fire, spawner *)

Section HealthTheorems.

Import GameWorld.

Ltac splits := repeat match goal with |- _ /\ _ => split end.

Lemma new_health (weapon_name : option string) (g : Random.t)
  (log : list string) (s0 : t) :
  new weapon_name g log = Some s0 -> Player.health (player s0) = 100%Z.
Proof.
  unfold new, set_weapon_by_name.
  destruct weapon_name as [n |].
  - destruct (String.eqb n EmptyString).
    + intros H. injection H as <-. reflexivity.
    + destruct (create_weapon n); [| discriminate].
      intros H. injection H as <-. reflexivity.
  - intros H. injection H as <-. reflexivity.
Qed.

Lemma update_floor (s s' : t) (dt : R) (keys : Input) :
  update s dt keys = Returns s' -> (0 <= Player.health (player s'))%Z.
Proof.
  unfold update.
  destruct (handle_collisions (advance dt keys s)) as [s1 | s1] eqn:E;
    cbn [bind]; [| discriminate].
  intros H. injection H as <-.
  pose proof (settle_facts dt s1) as Hs. cbn zeta in Hs.
  destruct Hs as (_ & _ & -> & _).
  exact (handle_collisions_floor _ _ E).
Qed.

Lemma run_cons (s : t) (dt : R) (keys : Input) (rest : list (R * Input)) :
  run s ((dt, keys) :: rest) = bind (update s dt keys) (fun s' => run s' rest).
Proof. reflexivity. Qed.

Lemma bind_returns {A : Type} (a : A) (f : A -> outcome A) :
  bind (Returns a) f = f a.
Proof. reflexivity. Qed.

Lemma run_floor (frames : list (R * Input)) (s0 s : t) :
  (0 <= Player.health (player s0))%Z ->
  run s0 frames = Returns s -> (0 <= Player.health (player s))%Z.
Proof.
  revert s0. induction frames as [| [dt keys] frames IH]; intros s0 H0 H.
  - injection H as <-. exact H0.
  - rewrite run_cons in H.
    pose proof (fun s' => update_floor s0 s' dt keys) as Hu.
    generalize dependent (update s0 dt keys). intros o H Hu.
    destruct o as [s1 | s1]; [| discriminate].
    rewrite bind_returns in H.
    apply (IH s1); [exact (Hu s1 eq_refl) | exact H].
Qed.

(** With no bullet in flight the pass returns, and the health it leaves is
    the health it found less 10 for every enemy in contact, floored at 0. *)
Lemma pass_without_bullets (s : t) :
  bullets s = [] ->
  returned (handle_collisions s) = true /\
  Player.health (player (final (handle_collisions s))) =
  Z.max 0 (Player.health (player s)
           - 10 * Z.of_nat (List.length
                              (filter (touches (player_rect s))
                                      (snapshot s)))).
Proof.
  intros Hb.
  assert (Hr : returned (handle_collisions s) = true).
  { apply handle_collisions_returns. rewrite Hb.
    apply Forall_forall. intros; reflexivity. }
  split; [exact Hr |].
  destruct (handle_collisions_shape s) as (p & _ & _ & [[E Hh] | E]);
    rewrite E in *; [| discriminate].
  cbn [final]. unfold clamp_health, sync.
  cbn [player set_enemies]. rewrite <- Hh.
  destruct (Player.health (player (world p)) <=? 0)%Z eqn:Hz.
  - apply Z.leb_le in Hz. cbn. lia.
  - apply Z.leb_gt in Hz. cbn. lia.
Qed.

Lemma fire_idle (keys : Input) (s : t) :
  mouse_pressed keys = false -> fire keys s = s.
Proof.
  intros H. unfold fire. rewrite H.
  destruct (Player.weapon (player s)); reflexivity.
Qed.

Lemma advance_idle (dt : R) (keys : Input) (s : t) :
  mouse_pressed keys = false ->
  bullets (advance dt keys s) =
    filter Bullet.alive
           (map (fun b => Bullet.update b dt (bounds s)) (bullets s)).
Proof.
  intros H.
  destruct (advance_start dt keys s)
    as (s2 & -> & _ & _ & _ & _ & _ & Hb & _ & Hbd & _).
  rewrite fire_idle by assumption.
  cbn zeta. cbn [bullets bounds set_enemies set_bullets].
  rewrite Hb, Hbd. reflexivity.
Qed.

Lemma snapshot_nil (s : t) : enemies s = [] -> snapshot s = [].
Proof. intros H. unfold snapshot. rewrite H. reflexivity. Qed.

(** A frame of a world without enemies and without bullets, the fire button
    not held: the frame returns and the health is kept. *)
Lemma calm_frame (s : t) (dt : R) (keys : Input) :
  enemies s = [] -> bullets s = [] -> mouse_pressed keys = false ->
  returned (update s dt keys) = true /\
  Player.health (player (final (update s dt keys)))
  = Z.max 0 (Player.health (player s)).
Proof.
  intros He Hb Hk.
  assert (Hb' : bullets (advance dt keys s) = []).
  { rewrite advance_idle by assumption. rewrite Hb. reflexivity. }
  pose proof (advance_facts dt keys s) as Ha. cbn zeta in Ha.
  destruct Ha as (_ & _ & _ & Hn & _ & Hh).
  rewrite He in Hn. apply length_zero_iff_nil in Hn.
  destruct (pass_without_bullets _ Hb') as (Hr & Hp).
  rewrite (snapshot_nil _ Hn) in Hp. cbn [filter List.length Z.of_nat] in Hp.
  rewrite Z.mul_0_r, Z.sub_0_r, Hh in Hp.
  rewrite update_returned, update_final. split; [exact Hr |].
  apply returned_final in Hr. rewrite Hr.
  pose proof (settle_facts dt (final (handle_collisions (advance dt keys s))))
    as Hs. cbn zeta in Hs. destruct Hs as (_ & _ & -> & _).
  exact Hp.
Qed.

Lemma crowd_contacts :
  filter (touches (player_rect Scenes.crowd)) (snapshot Scenes.crowd)
  = snapshot Scenes.crowd /\
  List.length (snapshot Scenes.crowd) = 3%nat.
Proof.
  rewrite (hero_rect Scenes.crowd (Some Samples.seed_blaster) 20 eq_refl).
  unfold snapshot. cbn [enemies Scenes.crowd List.length seq combine filter].
  unfold touches, Scenes.centre. cbn [snd].
  rewrite (sproutling_rect 470 270), (sproutling_rect 480 270),
    (sproutling_rect 490 270).
  split; reflexivity.
Qed.

(** C8: from a fresh world, every frame that returns leaves a health that is
    not negative; so does every single [update], and every collision pass,
    from any world, whatever damage the contacts of the frame add up to. *)
Theorem health_floor (weapon_name : option string) (g : Random.t)
  (log : list string) (s0 : t) (frames : list (R * Input)) (s : t)
  (u u' : t) (dt : R) (keys : Input) (w w' : t) :
  (new weapon_name g log = Some s0 -> run s0 frames = Returns s ->
   (0 <= Player.health (player s))%Z) /\
  (update u dt keys = Returns u' -> (0 <= Player.health (player u'))%Z) /\
  (handle_collisions w = Returns w' -> (0 <= Player.health (player w'))%Z).
Proof.
  splits.
  - intros Hn Hr. apply (run_floor frames s0); [| exact Hr].
    rewrite (new_health _ _ _ _ Hn). lia.
  - apply update_floor.
  - apply handle_collisions_floor.
Qed.

Lemma health_floor_witness :
  new None Scenes.still [] = Some Scenes.fresh /\
  run Scenes.fresh Scenes.one_frame
    = Returns (final (run Scenes.fresh Scenes.one_frame)) /\
  (0 <= Player.health (player (final (run Scenes.fresh Scenes.one_frame))))%Z /\
  update Scenes.fresh Scenes.tick idle
    = Returns (final (update Scenes.fresh Scenes.tick idle)) /\
  (0 <= Player.health
          (player (final (update Scenes.fresh Scenes.tick idle))))%Z /\
  (Player.health (player Scenes.crowd) - 10 * 3 < 0)%Z /\
  handle_collisions Scenes.crowd
    = Returns (final (handle_collisions Scenes.crowd)) /\
  Player.health (player (final (handle_collisions Scenes.crowd))) = 0%Z /\
  (0 <= Player.health (player (final (handle_collisions Scenes.crowd))))%Z.
Proof.
  destruct (calm_frame Scenes.fresh Scenes.tick idle eq_refl eq_refl eq_refl)
    as (Hu & _).
  apply returned_final in Hu.
  assert (Hrun : run Scenes.fresh Scenes.one_frame
                 = Returns (final (run Scenes.fresh Scenes.one_frame))).
  { apply returned_final. unfold Scenes.one_frame. rewrite run_cons.
    rewrite Hu. reflexivity. }
  destruct (pass_without_bullets Scenes.crowd eq_refl) as (Hr & Hh).
  destruct crowd_contacts as (Hf & Hl).
  rewrite Hf, Hl in Hh.
  apply returned_final in Hr.
  destruct (health_floor None Scenes.still [] Scenes.fresh Scenes.one_frame
              (final (run Scenes.fresh Scenes.one_frame))
              Scenes.fresh (final (update Scenes.fresh Scenes.tick idle))
              Scenes.tick idle
              Scenes.crowd (final (handle_collisions Scenes.crowd)))
    as (Hfresh & Hupd & Hpass).
  splits.
  - reflexivity.
  - exact Hrun.
  - exact (Hfresh eq_refl Hrun).
  - exact Hu.
  - exact (Hupd Hu).
  - cbn. lia.
  - exact Hr.
  - rewrite Hh. reflexivity.
  - exact (Hpass Hr).
Defined.

End HealthTheorems.

(** ** A dead player and the wave spawner *)

Section SpawnerTheorems.

Import GameWorld.

Ltac splits := repeat match goal with |- _ /\ _ => split end.

Lemma extends_count (l l' : list string) :
  extends (fun n => n = "hit"%string) l l' ->
  count_occ string_dec l' "shoot"%string = count_occ string_dec l "shoot"%string.
Proof.
  intros (extra & -> & H). rewrite count_occ_app.
  replace (count_occ string_dec extra "shoot"%string) with 0%nat; [lia |].
  symmetry. apply count_occ_not_In. intros Hin.
  rewrite Forall_forall in H. specialize (H _ Hin). discriminate.
Qed.

(** A frame that starts with a dead player, seen from its end. *)
Lemma dead_frame (s : t) (dt : R) (keys : Input) :
  (Player.health (player s) <= 0)%Z ->
  let s1 := final (handle_collisions (advance dt keys s)) in
  let s' := final (update s dt keys) in
  (Player.health (player s') <= 0)%Z /\
  spawn_timer s' = spawn_timer s /\
  enemies s' = enemies s1 /\
  (List.length (enemies s') <= List.length (enemies s))%nat /\
  map Bullet.position (bullets s')
    = map Bullet.position
          (filter Bullet.alive
                  (map (fun b => Bullet.update b dt (bounds s)) (bullets s))) /\
  extends (fun n => n = "hit"%string) (audio s) (audio s').
Proof.
  intros H. cbn zeta. rewrite update_final.
  pose proof (advance_facts dt keys s) as Ha. cbn zeta in Ha.
  destruct Ha as (_ & Hat & _ & Han & _ & Hah).
  destruct (advance_dead dt keys s H) as (Hab & Haa).
  pose proof (handle_collisions_facts (advance dt keys s)) as Hc.
  cbn zeta in Hc.
  destruct Hc as (_ & Hct & _ & Hcn & Hcb & Hca & _ & Hch).
  rewrite Hah in Hch. specialize (Hch H). rewrite Hab in Hcb.
  rewrite Haa in Hca. rewrite Han in Hcn. rewrite Hat in Hct.
  generalize dependent (handle_collisions (advance dt keys s)).
  intros o Hct Hcn Hcb Hca Hch.
  destruct o as [s1 | s1]; cbn [final] in *.
  - pose proof (settle_facts dt s1) as Hs. cbn zeta in Hs.
    destruct Hs as (_ & _ & Hsp & Hsb & Hsa & _).
    destruct (settle_dead dt s1 Hch) as (Hst & Hsn & _).
    rewrite Hsp, Hst, Hsn, Hsb, Hsa. splits; try assumption; reflexivity.
  - splits; try assumption; reflexivity.
Qed.

(** C10: when the player is dead at the start of a frame, every bullet the
    frame leaves is a bullet it found, moved and still alive; no bullet is
    added, the only sounds requested are hits, and none is a shot, whatever
    the input and the weapon. *)
Theorem dead_player_holds_fire (s : t) (dt : R) (keys : Input) :
  (Player.health (player s) <= 0)%Z ->
  map Bullet.position (bullets (final (update s dt keys)))
    = map Bullet.position
          (filter Bullet.alive
                  (map (fun b => Bullet.update b dt (bounds s)) (bullets s))) /\
  (List.length (bullets (final (update s dt keys)))
   <= List.length (bullets s))%nat /\
  extends (fun n => n = "hit"%string) (audio s)
          (audio (final (update s dt keys))) /\
  count_occ string_dec (audio (final (update s dt keys))) "shoot"%string
  = count_occ string_dec (audio s) "shoot"%string.
Proof.
  intros H. pose proof (dead_frame s dt keys H) as Hd. cbn zeta in Hd.
  destruct Hd as (_ & _ & _ & _ & Hb & Ha).
  splits; [exact Hb | | exact Ha | apply extends_count; exact Ha].
  apply (f_equal (@List.length _)) in Hb. rewrite !length_map in Hb.
  rewrite Hb.
  etransitivity; [apply filter_length_le | rewrite length_map; lia].
Qed.

Lemma dead_player_holds_fire_witness :
  ((Player.health (player Scenes.fallen) <= 0)%Z /\
   mouse_pressed firing = true /\
   Player.weapon (player Scenes.fallen) = Some Samples.seed_blaster /\
   Weapon.timer Samples.seed_blaster <= 0) /\
  (List.length (bullets (final (update Scenes.fallen Scenes.tick firing)))
   <= List.length (bullets Scenes.fallen))%nat /\
  count_occ string_dec
            (audio (final (update Scenes.fallen Scenes.tick firing)))
            "shoot"%string = 0%nat.
Proof.
  assert (Hh : (Player.health (player Scenes.fallen) <= 0)%Z)
    by (cbn; lia).
  assert (Ht : Weapon.timer Samples.seed_blaster <= 0)
    by (unfold Samples.seed_blaster, Weapon.timer; lra).
  destruct (dead_player_holds_fire Scenes.fallen Scenes.tick firing Hh)
    as (_ & Hl & _ & Hc).
  split; [exact (conj Hh (conj eq_refl (conj eq_refl Ht))) |].
  split; [exact Hl | exact Hc].
Defined.

(** C4, amended: a frame in which the player is dead when [update] looks at
    the health, that is after the collision pass, leaves [spawn_timer] and
    [spawn_interval] as they were, spawns no enemy and draws no random number
    (the enemies and the generator it leaves are those the collision pass
    left, the enemies no more than it found); [elapsed] is advanced by [dt]
    all the same.  This holds for the frame that starts with a dead player,
    who is still dead after the pass, and for the frame in which the player
    dies. *)
Theorem dead_player_halts_spawner (s : t) (dt : R) (keys : Input) :
  let s1 := final (handle_collisions (advance dt keys s)) in
  let s' := final (update s dt keys) in
  (Player.health (player s) <= 0)%Z \/ (Player.health (player s1) <= 0)%Z ->
  (Player.health (player s1) <= 0)%Z /\
  Player.health (player s') = Player.health (player s1) /\
  spawn_timer s' = spawn_timer s /\
  spawn_interval s' = spawn_interval s /\
  elapsed s' = elapsed s + dt /\
  enemies s' = enemies s1 /\
  (List.length (enemies s') <= List.length (enemies s))%nat /\
  rng s' = rng s1.
Proof.
  cbn zeta. intros H.
  pose proof (advance_facts dt keys s) as Ha. cbn zeta in Ha.
  destruct Ha as (_ & Ht & _ & Hn & _ & Hh).
  pose proof (handle_collisions_facts (advance dt keys s)) as Hc.
  cbn zeta in Hc. destruct Hc as (_ & Ht' & _ & Hn' & _ & _ & _ & Hd).
  rewrite Hh in Hd.
  assert (Hdead :
    (Player.health
       (player (final (handle_collisions (advance dt keys s)))) <= 0)%Z).
  { destruct H as [H | H]; [exact (Hd H) | exact H]. }
  clear H Hd Hh.
  destruct (update_clock s dt keys) as (Hclock & Hint).
  rewrite update_final in *.
  destruct (handle_collisions (advance dt keys s)) as [s1 | s1];
    cbn [final] in *.
  - destruct (settle_dead dt s1 Hdead) as (St & Sn & Sg).
    pose proof (settle_facts dt s1) as Hs. cbn zeta in Hs.
    destruct Hs as (_ & _ & Sp & _).
    rewrite Sp, St, Sn, Sg. splits; try reflexivity; try assumption;
      try congruence; lia.
  - splits; try reflexivity; try assumption; try congruence; lia.
Qed.

(** C4 as stated fails: the frame of a dead player, who is dead at its start
    and when [update] looks at the health, moves [elapsed]. *)
Lemma dead_player_clock_runs :
  (Player.health (player Scenes.fallen) <= 0)%Z /\
  (Player.health
     (player (final (handle_collisions
                       (advance Scenes.tick idle Scenes.fallen)))) <= 0)%Z /\
  elapsed (final (update Scenes.fallen Scenes.tick idle))
  <> elapsed Scenes.fallen.
Proof.
  assert (Hh : (Player.health (player Scenes.fallen) <= 0)%Z) by (cbn; lia).
  split; [exact Hh |]. split.
  - pose proof (advance_facts Scenes.tick idle Scenes.fallen) as Ha.
    cbn zeta in Ha. destruct Ha as (_ & _ & _ & _ & _ & Hk).
    pose proof (handle_collisions_facts
                  (advance Scenes.tick idle Scenes.fallen)) as Hc.
    cbn zeta in Hc. destruct Hc as (_ & _ & _ & _ & _ & _ & _ & Hd).
    apply Hd. rewrite Hk. exact Hh.
  - destruct (update_clock Scenes.fallen Scenes.tick idle) as (-> & _).
    unfold Scenes.fallen, Scenes.tick, elapsed. lra.
Qed.

Lemma new_interval (weapon_name : option string) (g : Random.t)
  (log : list string) (s0 : t) :
  new weapon_name g log = Some s0 -> spawn_interval s0 = 1.4.
Proof.
  unfold new, set_weapon_by_name.
  destruct weapon_name as [n |].
  - destruct (String.eqb n EmptyString).
    + intros H. injection H as <-. reflexivity.
    + destruct (create_weapon n); [| discriminate].
      intros H. injection H as <-. reflexivity.
  - intros H. injection H as <-. reflexivity.
Qed.

(** No frame changes the baseline interval. *)
Lemma run_interval (frames : list (R * Input)) (s0 s : t) :
  run s0 frames = Returns s -> spawn_interval s = spawn_interval s0.
Proof.
  revert s0. induction frames as [| [dt keys] frames IH]; intros s0 H.
  - injection H as <-. reflexivity.
  - rewrite run_cons in H.
    destruct (update_clock s0 dt keys) as (_ & Hi).
    generalize dependent (update s0 dt keys). intros o H Hi.
    destruct o as [s1 | s1]; [| discriminate].
    rewrite bind_returns in H. cbn [final] in Hi.
    rewrite (IH s1 H). exact Hi.
Qed.

(** C9: a frame that returns with the player alive and the spawn timer run
    out leaves the timer at [max(0.4, 1.4 - elapsed * 0.01)], 1.4 being the
    baseline interval of every world that a run from a fresh world reaches;
    that value is never below 0.4, does not grow with [elapsed], and is
    smaller at [elapsed = 60] than at [elapsed = 0]. *)
Theorem wave_timer_reset (weapon_name : option string) (g : Random.t)
  (log : list string) (s0 : t) (frames : list (R * Input))
  (s : t) (dt : R) (keys : Input) (a b : t) :
  (new weapon_name g log = Some s0 -> run s0 frames = Returns s ->
   spawn_interval s = 1.4) /\
  (spawn_interval s = 1.4 ->
   returned (update s dt keys) = true ->
   (0 < Player.health (player (final (update s dt keys))))%Z ->
   spawn_timer s - dt <= 0 ->
   spawn_timer (final (update s dt keys))
   = Rmax 0.4 (1.4 - elapsed (final (update s dt keys)) * 0.01)) /\
  (spawn_interval a = 1.4 -> spawn_interval b = 1.4 ->
   0.4 <= next_spawn a /\
   (elapsed a <= elapsed b -> next_spawn b <= next_spawn a) /\
   (elapsed a = 0 -> elapsed b = 60 -> next_spawn b < next_spawn a)).
Proof.
  splits.
  - intros Hn Hr. rewrite (run_interval _ _ _ Hr). exact (new_interval _ _ _ _ Hn).
  - intros Hi Hr Hh Ht.
    rewrite update_returned in Hr. rewrite update_final in *.
    pose proof (advance_facts dt keys s) as Ha. cbn zeta in Ha.
    destruct Ha as (_ & Hat & Hai & _).
    pose proof (handle_collisions_facts (advance dt keys s)) as Hc.
    cbn zeta in Hc. destruct Hc as (_ & Hct & Hci & _).
    rewrite Hat in Hct. rewrite Hai in Hci.
    generalize dependent (handle_collisions (advance dt keys s)).
    intros o Hr Hh Hct Hci.
    destruct o as [s1 | s1]; [| discriminate]. cbn [final] in *.
    pose proof (settle_facts dt s1) as Hs. cbn zeta in Hs.
    destruct Hs as (Hse & _ & Hsp & _).
    rewrite Hsp in Hh. rewrite Hse.
    rewrite settle_wave; [| exact Hh | rewrite Hct; exact Ht].
    rewrite Hci, Hi. reflexivity.
  - intros Ha Hb. unfold next_spawn. rewrite Ha, Hb. splits.
    + apply Rmax_l.
    + intros H. apply Rle_max_compat_l. lra.
    + intros -> ->. unfold Rmax.
      destruct (Rle_dec 0.4 (1.4 - 60 * 0.01));
        destruct (Rle_dec 0.4 (1.4 - 0 * 0.01)); lra.
Qed.

Lemma wave_timer_reset_witness :
  (new None Scenes.still [] = Some Scenes.fresh /\
   run Scenes.fresh [] = Returns Scenes.fresh /\
   spawn_interval Scenes.fresh = 1.4 /\
   returned (update Scenes.fresh Scenes.tick idle) = true /\
   (0 < Player.health
          (player (final (update Scenes.fresh Scenes.tick idle))))%Z /\
   spawn_timer Scenes.fresh - Scenes.tick <= 0) /\
  spawn_timer (final (update Scenes.fresh Scenes.tick idle))
  = Rmax 0.4
      (1.4 - elapsed (final (update Scenes.fresh Scenes.tick idle)) * 0.01) /\
  (elapsed Scenes.fresh = 0 /\
   elapsed (set_elapsed 60 Scenes.fresh) = 60 /\
   spawn_interval (set_elapsed 60 Scenes.fresh) = 1.4) /\
  0.4 <= next_spawn Scenes.fresh /\
  next_spawn (set_elapsed 60 Scenes.fresh) < next_spawn Scenes.fresh.
Proof.
  destruct (calm_frame Scenes.fresh Scenes.tick idle eq_refl eq_refl eq_refl)
    as (Hr & Hh).
  assert (Hp : (0 < Player.health
                      (player (final (update Scenes.fresh Scenes.tick idle))))%Z)
    by (rewrite Hh; cbn; lia).
  assert (Ht : spawn_timer Scenes.fresh - Scenes.tick <= 0)
    by (unfold Scenes.fresh, Scenes.tick, init, spawn_timer; lra).
  destruct (wave_timer_reset None Scenes.still [] Scenes.fresh []
              Scenes.fresh Scenes.tick idle Scenes.fresh
              (set_elapsed 60 Scenes.fresh)) as (Hbase & Hreset & Hshape).
  pose proof (Hbase eq_refl eq_refl) as Hi.
  destruct (Hshape Hi eq_refl) as (Hfloor & _ & Hless).
  splits; try assumption; try reflexivity.
  - exact (Hreset Hi Hr Hp Ht).
  - exact (Hless eq_refl eq_refl).
Defined.

End SpawnerTheorems.

(** * Further properties of the entities *)

(** ** Player: input and bounds *)

Section PlayerMotion.

Import Vector2.

Ltac splits := repeat match goal with |- _ /\ _ => split end.

Lemma clamp_low (lo hi v : R) : lo <= Rmax lo (Rmin hi v).
Proof. apply Rmax_l. Qed.

Lemma clamp_high (lo hi v : R) : lo <= hi -> Rmax lo (Rmin hi v) <= hi.
Proof.
  intros H. apply Rmax_lub; [exact H | apply Rmin_l].
Qed.

Lemma clamp_inside (lo hi v : R) : lo <= v <= hi -> Rmax lo (Rmin hi v) = v.
Proof.
  intros [Hl Hh]. rewrite Rmin_right by exact Hh. apply Rmax_right. exact Hl.
Qed.

(** X1: [keep_in_bounds] puts each coordinate of the player at least
    [radius] inside the low edge, and, when the rectangle is at least
    [2 * radius] wide and high, at most [radius] inside the high edge; a
    player already inside is not moved, and nothing but the position
    changes. *)
Theorem keep_in_bounds_range (p : Player.t) (bounds : Rect.t) :
  let p' := Player.keep_in_bounds p bounds in
  let lo_x := IZR (Rect.left bounds + Player.radius p) in
  let hi_x := IZR (Rect.right bounds - Player.radius p) in
  let lo_y := IZR (Rect.top bounds + Player.radius p) in
  let hi_y := IZR (Rect.bottom bounds - Player.radius p) in
  (lo_x <= x (Player.position p') /\ lo_y <= y (Player.position p')) /\
  (lo_x <= hi_x -> x (Player.position p') <= hi_x) /\
  (lo_y <= hi_y -> y (Player.position p') <= hi_y) /\
  (lo_x <= x (Player.position p) <= hi_x ->
   lo_y <= y (Player.position p) <= hi_y ->
   Player.keep_in_bounds p bounds = p) /\
  Player.keep_in_bounds p' bounds = p' /\
  Player.health p' = Player.health p /\
  Player.weapon p' = Player.weapon p /\
  Player.radius p' = Player.radius p /\
  Player.speed p' = Player.speed p.
Proof.
  cbn zeta. unfold Player.keep_in_bounds, Player.set_position.
  cbn [Player.position Player.radius Player.health Player.weapon Player.speed
       Player.color x y].
  splits; try reflexivity.
  - apply clamp_low.
  - apply clamp_low.
  - apply clamp_high.
  - apply clamp_high.
  - intros Hx Hy. rewrite !clamp_inside by assumption.
    destruct p as [[px py] sp r c w h]. reflexivity.
  - f_equal. f_equal.
    + unfold Rmax, Rmin. repeat destruct (Rle_dec _ _); lra.
    + unfold Rmax, Rmin. repeat destruct (Rle_dec _ _); lra.
Qed.

Lemma keep_in_bounds_range_witness :
  (IZR (Rect.left Scenes.arena + Player.radius (Scenes.hero None 100))
   <= IZR (Rect.right Scenes.arena - Player.radius (Scenes.hero None 100)) /\
   IZR (Rect.top Scenes.arena + Player.radius (Scenes.hero None 100))
   <= IZR (Rect.bottom Scenes.arena - Player.radius (Scenes.hero None 100))) /\
  24 <= x (Player.position
             (Player.keep_in_bounds
                (Player.set_position (make 2000 (-5)) (Scenes.hero None 100))
                Scenes.arena)) <= 936 /\
  24 <= y (Player.position
             (Player.keep_in_bounds
                (Player.set_position (make 2000 (-5)) (Scenes.hero None 100))
                Scenes.arena)) <= 516 /\
  Player.keep_in_bounds (Scenes.hero None 100) Scenes.arena
  = Scenes.hero None 100.
Proof.
  pose proof (keep_in_bounds_range
                (Player.set_position (make 2000 (-5)) (Scenes.hero None 100))
                Scenes.arena) as H.
  pose proof (keep_in_bounds_range (Scenes.hero None 100) Scenes.arena) as H0.
  cbn zeta in H, H0.
  destruct H as ((Hlx & Hly) & Hhx & Hhy & _).
  destruct H0 as (_ & _ & _ & Hin & _).
  assert (Ex : IZR (Rect.left Scenes.arena + Player.radius (Scenes.hero None 100))
               = 24) by (cbn; lra).
  assert (Fx : IZR (Rect.right Scenes.arena - Player.radius (Scenes.hero None 100))
               = 936) by (cbn; lra).
  assert (Ey : IZR (Rect.top Scenes.arena + Player.radius (Scenes.hero None 100))
               = 24) by (cbn; lra).
  assert (Fy : IZR (Rect.bottom Scenes.arena - Player.radius (Scenes.hero None 100))
               = 516) by (cbn; lra).
  change (Player.radius
            (Player.set_position (make 2000 (-5)) (Scenes.hero None 100)))
    with (Player.radius (Scenes.hero None 100)) in *.
  rewrite Ex, Fx, Ey, Fy in *.
  splits; try lra.
  apply Hin; unfold Scenes.hero, Scenes.centre; cbn [Player.position x y]; lra.
Defined.

End PlayerMotion.

Section PlayerInput.

Import Vector2.

Ltac splits := repeat match goal with |- _ /\ _ => split end.

Lemma normalize_unit (v : Vector2.t) :
  0 < length_squared v -> length_squared (normalize v) = 1.
Proof.
  intros H. unfold normalize, length.
  assert (Hs : 0 < sqrt (length_squared v)) by (apply sqrt_lt_R0; exact H).
  assert (Hq : sqrt (length_squared v) * sqrt (length_squared v)
               = length_squared v) by (apply sqrt_sqrt; lra).
  unfold length_squared at 1. cbn [x y].
  replace (x v / sqrt (length_squared v) * (x v / sqrt (length_squared v))
           + y v / sqrt (length_squared v) * (y v / sqrt (length_squared v)))
    with ((x v * x v + y v * y v)
          / (sqrt (length_squared v) * sqrt (length_squared v)))
    by (field; lra).
  rewrite Hq. unfold length_squared. field.
  unfold length_squared in H. lra.
Qed.

(** The direction that the held keys ask for, before it is normalised. *)
Lemma handle_input_steps (p : Player.t) (keys : Input) (dt : R) :
  let up := K_w keys || K_UP keys in
  let down := K_s keys || K_DOWN keys in
  let left := K_a keys || K_LEFT keys in
  let right := K_d keys || K_RIGHT keys in
  let v :=
    make ((if right then 1 else 0) - (if left then 1 else 0))
         ((if down then 1 else 0) - (if up then 1 else 0)) in
  let n := if Rltb 0 (length_squared v) then normalize v else v in
  Player.handle_input p keys dt =
  Player.set_position
    (add (Player.position p) (scale (scale n (Player.speed p)) dt)) p.
Proof.
  cbn zeta. unfold Player.handle_input.
  destruct (K_w keys || K_UP keys), (K_s keys || K_DOWN keys),
    (K_a keys || K_LEFT keys), (K_d keys || K_RIGHT keys);
    match goal with
    | |- Player.set_position (add _ (scale (scale
           (if Rltb 0 (length_squared ?a) then _ else _) _) _)) _ =
         Player.set_position (add _ (scale (scale
           (if Rltb 0 (length_squared ?b) then _ else _) _) _)) _ =>
        replace a with b; [reflexivity | f_equal; ring]
    end.
Qed.

(** X2: one call of [handle_input] moves the player by exactly
    [speed * dt] when the held keys ask for a direction, diagonals included,
    and not at all when no key is held or opposite keys cancel; a direction
    without a horizontal (vertical) part leaves [x] ([y]) as it is.  The
    direction is that of the keys: W or the up arrow takes [y] down by
    [speed * dt], S or the down arrow takes it up, A or the left arrow takes
    [x] down, D or the right arrow takes it up, and on a diagonal each
    coordinate moves the same way by [speed * dt / sqrt 2].  Nothing but the
    position changes. *)
Theorem handle_input_step (p : Player.t) (keys : Input) (dt : R) :
  let up := K_w keys || K_UP keys in
  let down := K_s keys || K_DOWN keys in
  let left := K_a keys || K_LEFT keys in
  let right := K_d keys || K_RIGHT keys in
  let p' := Player.handle_input p keys dt in
  let d := sub (Player.position p') (Player.position p) in
  let step := Player.speed p * dt in
  (up = down -> left = right -> Player.position p' = Player.position p) /\
  (up <> down \/ left <> right ->
   length_squared d = (Player.speed p * dt) * (Player.speed p * dt)) /\
  (left = right -> x (Player.position p') = x (Player.position p)) /\
  (up = down -> y (Player.position p') = y (Player.position p)) /\
  Player.health p' = Player.health p /\
  Player.weapon p' = Player.weapon p /\
  Player.radius p' = Player.radius p /\
  Player.speed p' = Player.speed p /\
  Player.color p' = Player.color p /\
  (left = right -> up <> down ->
   Player.position p' =
   make (x (Player.position p))
        (y (Player.position p) + (if down then step else - step))) /\
  (up = down -> left <> right ->
   Player.position p' =
   make (x (Player.position p) + (if right then step else - step))
        (y (Player.position p))) /\
  (up <> down -> left <> right ->
   Player.position p' =
   make (x (Player.position p) + (if right then step else - step) / sqrt 2)
        (y (Player.position p) + (if down then step else - step) / sqrt 2)).
Proof.
  cbn zeta. pose proof (handle_input_steps p keys dt) as H. cbn zeta in H.
  rewrite H. clear H.
  cbn [Player.position Player.set_position Player.health Player.weapon
       Player.radius Player.speed Player.color].
  set (up := K_w keys || K_UP keys). set (down := K_s keys || K_DOWN keys).
  set (left := K_a keys || K_LEFT keys).
  set (right := K_d keys || K_RIGHT keys).
  set (v := make _ _).
  assert (Hn : 0 < length_squared v ->
               length_squared
                 (sub (add (Player.position p)
                           (scale (scale (normalize v) (Player.speed p)) dt))
                      (Player.position p))
               = (Player.speed p * dt) * (Player.speed p * dt)).
  { intros Hv. pose proof (normalize_unit v Hv) as Hu.
    unfold length_squared in Hu |- *. unfold sub, add, scale. cbn [x y].
    ring_simplify in Hu. nra. }
  assert (Hz : forall a : R, a * (a - a) = 0) by (intros; ring).
  assert (H2 : 0 < sqrt 2) by (apply sqrt_lt_R0; lra).
  splits; try reflexivity.
  - intros Hud Hlr. subst v. rewrite Hud, Hlr.
    replace (make ((if right then 1 else 0) - (if right then 1 else 0))
                  ((if down then 1 else 0) - (if down then 1 else 0)))
      with (make 0 0) by (f_equal; ring).
    rewrite Rltb_false by (unfold length_squared; cbn [x y]; lra).
    destruct (Player.position p) as [px py]. unfold add, scale. cbn [x y].
    f_equal; ring.
  - intros Hne.
    assert (Hv : 0 < length_squared v).
    { subst v. unfold length_squared. cbn [x y].
      destruct up, down, left, right;
        try lra; destruct Hne as [Hc | Hc]; exfalso; apply Hc; reflexivity. }
    rewrite Rltb_true by exact Hv. apply Hn. exact Hv.
  - intros Hlr. subst v. rewrite Hlr.
    unfold add, scale. cbn [x y].
    destruct (Rltb 0 _); unfold normalize; cbn [x y]; unfold Rdiv; ring.
  - intros Hud. subst v. rewrite Hud.
    unfold add, scale. cbn [x y].
    destruct (Rltb 0 _); unfold normalize; cbn [x y]; unfold Rdiv; ring.
  - intros Hlr Hud. subst v. rewrite Hlr.
    replace ((if right then 1 else 0) - (if right then 1 else 0)) with 0
      by ring.
    destruct up, down; try (exfalso; apply Hud; reflexivity);
      (rewrite Rltb_true by (unfold length_squared; cbn [x y]; lra));
      unfold normalize, length, length_squared, add, scale; cbn [x y];
      match goal with
      | |- context [sqrt ?a] => replace a with (1 * 1) by ring
      end;
      rewrite sqrt_square by lra; f_equal; field.
  - intros Hud Hlr. subst v. rewrite Hud.
    replace ((if down then 1 else 0) - (if down then 1 else 0)) with 0
      by ring.
    destruct left, right; try (exfalso; apply Hlr; reflexivity);
      (rewrite Rltb_true by (unfold length_squared; cbn [x y]; lra));
      unfold normalize, length, length_squared, add, scale; cbn [x y];
      match goal with
      | |- context [sqrt ?a] => replace a with (1 * 1) by ring
      end;
      rewrite sqrt_square by lra; f_equal; field.
  - intros Hud Hlr. subst v.
    destruct up, down; try (exfalso; apply Hud; reflexivity);
      destruct left, right; try (exfalso; apply Hlr; reflexivity);
      (rewrite Rltb_true by (unfold length_squared; cbn [x y]; lra));
      unfold normalize, length, length_squared, add, scale; cbn [x y];
      match goal with
      | |- context [sqrt ?a] => replace a with 2 by ring
      end;
      f_equal; field; lra.
Qed.

Lemma handle_input_step_witness :
  (K_a Inputs.torn || K_LEFT Inputs.torn
   = K_d Inputs.torn || K_RIGHT Inputs.torn /\
   K_w Inputs.torn || K_UP Inputs.torn
   = K_s Inputs.torn || K_DOWN Inputs.torn) /\
  Player.position
    (Player.handle_input (Scenes.hero None 100) Inputs.torn Scenes.tick)
  = Scenes.centre /\
  K_w Inputs.north_east || K_UP Inputs.north_east
  <> K_s Inputs.north_east || K_DOWN Inputs.north_east /\
  length_squared
    (sub (Player.position
            (Player.handle_input (Scenes.hero None 100) Inputs.north_east
                                 Scenes.tick))
         Scenes.centre)
  = (240 * Scenes.tick) * (240 * Scenes.tick) /\
  K_a Inputs.north_east || K_LEFT Inputs.north_east
  <> K_d Inputs.north_east || K_RIGHT Inputs.north_east /\
  Player.position
    (Player.handle_input (Scenes.hero None 100) Inputs.north_east Scenes.tick)
  = make (480 + 240 * Scenes.tick / sqrt 2)
         (270 + - (240 * Scenes.tick) / sqrt 2) /\
  Player.position
    (Player.handle_input (Scenes.hero None 100) Inputs.south Scenes.tick)
  = make 480 (270 + 240 * Scenes.tick) /\
  Player.position
    (Player.handle_input (Scenes.hero None 100) Inputs.west Scenes.tick)
  = make (480 + - (240 * Scenes.tick)) 270.
Proof.
  pose proof (handle_input_step (Scenes.hero None 100) Inputs.torn
                Scenes.tick) as H1.
  pose proof (handle_input_step (Scenes.hero None 100) Inputs.north_east
                Scenes.tick) as H2.
  pose proof (handle_input_step (Scenes.hero None 100) Inputs.south
                Scenes.tick) as H3.
  pose proof (handle_input_step (Scenes.hero None 100) Inputs.west
                Scenes.tick) as H4.
  cbn zeta in H1, H2, H3, H4.
  destruct H1 as (Hstay & _).
  destruct H2 as (_ & Hmove & _ & _ & _ & _ & _ & _ & _ & _ & _ & Hdiag).
  destruct H3 as (_ & _ & _ & _ & _ & _ & _ & _ & _ & Hsouth & _).
  destruct H4 as (_ & _ & _ & _ & _ & _ & _ & _ & _ & _ & Hwest & _).
  splits.
  - reflexivity.
  - reflexivity.
  - exact (Hstay eq_refl eq_refl).
  - discriminate.
  - apply Hmove. left. discriminate.
  - discriminate.
  - apply Hdiag; discriminate.
  - apply Hsouth; [reflexivity | discriminate].
  - apply Hwest; [reflexivity | discriminate].
Defined.

End PlayerInput.

(** ** Enemies, bullets and particles in motion *)

Section Motion.

Import Vector2.

Ltac splits := repeat match goal with |- _ /\ _ => split end.

Lemma length_squared_zero (v : Vector2.t) :
  length_squared v = 0 -> x v = 0 /\ y v = 0.
Proof. unfold length_squared. intros H. split; nra. Qed.

Lemma length_squared_nonneg (v : Vector2.t) : 0 <= length_squared v.
Proof. unfold length_squared. nra. Qed.

(** X3: [Enemy.update] makes the enemy seek the player.  Away from the
    player its velocity has magnitude [speed], and the step shortens the
    vector to the player by [speed * dt]: the new distance is
    [|distance - speed * dt|], so a step longer than the distance carries the
    enemy past the player.  On the player it stays where it is with a zero
    velocity.  Health and the other attributes are not touched. *)
Theorem enemy_seeks_player (e : Enemy.t) (dt : R) (player_pos : Vector2.t) :
  let d := sub player_pos (Enemy.position e) in
  let e' := Enemy.update e dt player_pos in
  (length_squared d = 0 ->
   Enemy.position e' = Enemy.position e /\ Enemy.velocity e' = make 0 0) /\
  (length_squared d <> 0 ->
   length_squared (Enemy.velocity e') = Enemy.speed e * Enemy.speed e /\
   sub player_pos (Enemy.position e')
   = scale d (1 - Enemy.speed e * dt / length d) /\
   length_squared (sub player_pos (Enemy.position e'))
   = (length d - Enemy.speed e * dt) * (length d - Enemy.speed e * dt)) /\
  Enemy.health e' = Enemy.health e /\
  Enemy.max_health e' = Enemy.max_health e /\
  Enemy.speed e' = Enemy.speed e /\
  Enemy.size e' = Enemy.size e /\
  Enemy.name e' = Enemy.name e /\
  Enemy.color e' = Enemy.color e.
Proof.
  cbn zeta. unfold Enemy.update.
  cbn [Enemy.position Enemy.velocity Enemy.health Enemy.max_health
       Enemy.speed Enemy.size Enemy.name Enemy.color].
  set (d := sub player_pos (Enemy.position e)).
  splits; try reflexivity.
  - intros Hz. rewrite Rltb_false by lra.
    destruct (length_squared_zero d Hz) as (Hx & Hy).
    unfold scale, add. rewrite Hx, Hy. cbn [x y].
    destruct (Enemy.position e) as [ex ey]. cbn [x y].
    split; f_equal; ring.
  - intros Hz. pose proof (length_squared_nonneg d) as Hp.
    rewrite Rltb_true by lra.
    assert (Hl : 0 < length d) by (apply sqrt_lt_R0; lra).
    assert (Hq : length d * length d = x d * x d + y d * y d).
    { unfold length. rewrite sqrt_sqrt by lra. reflexivity. }
    assert (Hs : sub player_pos
                   (add (Enemy.position e)
                        (scale (scale (normalize d) (Enemy.speed e)) dt))
                 = scale d (1 - Enemy.speed e * dt / length d)).
    { assert (Hx : x d = x player_pos - x (Enemy.position e)) by reflexivity.
      assert (Hy : y d = y player_pos - y (Enemy.position e)) by reflexivity.
      remember (length d) as L eqn:HL.
      unfold normalize. rewrite <- HL.
      unfold sub, add, scale. cbn [x y]. rewrite Hx, Hy.
      f_equal; field; lra. }
    splits.
    + pose proof (normalize_unit d ltac:(lra)) as Hu.
      unfold length_squared in Hu |- *. unfold scale. cbn [x y].
      transitivity ((x (normalize d) * x (normalize d)
                     + y (normalize d) * y (normalize d))
                    * (Enemy.speed e * Enemy.speed e)); [ring |].
      rewrite Hu. ring.
    + exact Hs.
    + rewrite Hs. unfold length_squared, scale. cbn [x y].
      transitivity ((x d * x d + y d * y d)
                    * ((length d - Enemy.speed e * dt) / length d)
                    * ((length d - Enemy.speed e * dt) / length d));
        [field; lra |].
      rewrite <- Hq. field. lra.
Qed.

Lemma enemy_seeks_player_witness :
  (length_squared
     (sub Scenes.centre (Enemy.position (Scenes.sproutling Scenes.centre)))
   = 0 /\
   length_squared
     (sub Scenes.centre
          (Enemy.position (Scenes.sproutling (make 380 270)))) <> 0) /\
  Enemy.position
    (Enemy.update (Scenes.sproutling Scenes.centre) Scenes.tick Scenes.centre)
  = Scenes.centre /\
  length_squared
    (Enemy.velocity
       (Enemy.update (Scenes.sproutling (make 380 270)) Scenes.tick
                     Scenes.centre))
  = 100 * 100.
Proof.
  assert (Hz : length_squared
                 (sub Scenes.centre
                      (Enemy.position (Scenes.sproutling Scenes.centre)))
               = 0).
  { unfold length_squared, sub, Scenes.sproutling, Scenes.centre.
    cbn [Enemy.position x y]. lra. }
  assert (Hn : length_squared
                 (sub Scenes.centre
                      (Enemy.position (Scenes.sproutling (make 380 270))))
               <> 0).
  { unfold length_squared, sub, Scenes.sproutling, Scenes.centre.
    cbn [Enemy.position x y]. lra. }
  destruct (enemy_seeks_player (Scenes.sproutling Scenes.centre) Scenes.tick
              Scenes.centre) as (Hstay & _).
  destruct (enemy_seeks_player (Scenes.sproutling (make 380 270)) Scenes.tick
              Scenes.centre) as (_ & Hmove & _).
  split; [exact (conj Hz Hn) |].
  split; [exact (proj1 (Hstay Hz)) | exact (proj1 (Hmove Hn))].
Defined.

(** X4: [Bullet.update] leaves a bullet that is not alive exactly as it is;
    it moves a live bullet by [velocity * dt] and keeps it alive exactly when
    the new position is inside [bounds].  So a bullet that is alive after the
    call was alive before and lies inside [bounds]: no bullet comes back to
    life.  Velocity, damage and pierce are not touched. *)
Theorem bullet_flight (b : Bullet.t) (dt : R) (bounds : Rect.t) :
  let b' := Bullet.update b dt bounds in
  let moved := add (Bullet.position b) (scale (Bullet.velocity b) dt) in
  (Bullet.alive b = false -> b' = b) /\
  (Bullet.alive b = true ->
   Bullet.position b' = moved /\
   Bullet.alive b' = Rect.collidepoint bounds (x moved) (y moved)) /\
  (Bullet.alive b' = true ->
   Bullet.alive b = true /\
   Rect.collidepoint bounds (x (Bullet.position b')) (y (Bullet.position b'))
   = true) /\
  Bullet.velocity b' = Bullet.velocity b /\
  Bullet.damage b' = Bullet.damage b /\
  Bullet.pierce b' = Bullet.pierce b.
Proof.
  cbn zeta. unfold Bullet.update.
  destruct (Bullet.alive b) eqn:Ha; cbn [negb].
  - cbn [Bullet.position Bullet.set_position].
    destruct (Rect.collidepoint bounds _ _) eqn:Hc; cbn [negb];
      cbn [Bullet.position Bullet.alive Bullet.velocity Bullet.damage
           Bullet.pierce Bullet.set_position Bullet.set_alive];
      rewrite ?Ha; splits; try reflexivity; try discriminate.
    + intros _. split; reflexivity.
    + intros _. split; [reflexivity | exact Hc].
    + intros _. split; reflexivity.
  - rewrite Ha. splits; try reflexivity; discriminate.
Qed.

Lemma bullet_flight_witness :
  Bullet.alive Scenes.seed = true /\
  Bullet.position (Bullet.update Scenes.seed 1 Scenes.arena)
  = add Scenes.centre (scale (make 520 0) 1) /\
  Bullet.alive (Bullet.update Scenes.seed 1 Scenes.arena) = false /\
  Bullet.alive (Bullet.set_alive false Scenes.seed) = false /\
  Bullet.update (Bullet.set_alive false Scenes.seed) 1 Scenes.arena
  = Bullet.set_alive false Scenes.seed.
Proof.
  destruct (bullet_flight Scenes.seed 1 Scenes.arena) as (_ & Hlive & _).
  destruct (bullet_flight (Bullet.set_alive false Scenes.seed) 1 Scenes.arena)
    as (Hdead & _).
  destruct (Hlive eq_refl) as (Hp & Ha).
  splits; [reflexivity | exact Hp | | reflexivity | exact (Hdead eq_refl)].
  rewrite Ha. unfold Rect.collidepoint, Scenes.seed, Scenes.bullet_of,
    Scenes.centre, Samples.seed_blaster.
  cbn [Bullet.position Bullet.velocity Weapon.bullet_speed add scale x y].
  rewrite (py_int_eq 1000) by lra. rewrite (py_int_eq 270) by lra.
  reflexivity.
Defined.

(** X5: [Particle.update] never leaves a negative radius, takes [dt] off the
    lifetime, moves the particle by [velocity * dt], and for [dt >= 0] never
    grows the radius of a particle whose radius was not negative; once
    [40 * dt] reaches the radius, the radius is 0. *)
Theorem particle_decay (p : Particle.t) (dt : R) :
  let p' := Particle.update p dt in
  0 <= Particle.radius p' /\
  Particle.lifetime p' = Particle.lifetime p - dt /\
  Particle.position p'
  = add (Particle.position p) (scale (Particle.velocity p) dt) /\
  (0 <= dt -> 0 <= Particle.radius p ->
   Particle.radius p' <= Particle.radius p) /\
  (Particle.radius p <= 40 * dt -> Particle.radius p' = 0) /\
  Particle.velocity p' = Particle.velocity p /\
  Particle.color p' = Particle.color p.
Proof.
  cbn zeta. unfold Particle.update.
  cbn [Particle.radius Particle.lifetime Particle.position
       Particle.velocity Particle.color].
  splits; try reflexivity.
  - apply Rmax_l.
  - intros Hd Hr. apply Rmax_lub; lra.
  - intros H. apply Rmax_left. lra.
Qed.

Lemma particle_decay_witness :
  (0 <= Scenes.tick /\ 0 <= 4 /\ 4 <= 40 * (1 / 10)) /\
  Particle.radius
    (Particle.update
       (Particle.make Scenes.centre (make 120 0) (Color.make 255 180 80 255)
                      0.5 4) Scenes.tick) <= 4 /\
  Particle.radius
    (Particle.update
       (Particle.make Scenes.centre (make 120 0) (Color.make 255 180 80 255)
                      0.5 4) (1 / 10)) = 0.
Proof.
  assert (Ht : 0 <= Scenes.tick) by (unfold Scenes.tick; lra).
  destruct (particle_decay
              (Particle.make Scenes.centre (make 120 0)
                             (Color.make 255 180 80 255) 0.5 4) Scenes.tick)
    as (_ & _ & _ & Hshrink & _).
  destruct (particle_decay
              (Particle.make Scenes.centre (make 120 0)
                             (Color.make 255 180 80 255) 0.5 4) (1 / 10))
    as (_ & _ & _ & _ & Hgone & _).
  cbn [Particle.radius] in Hshrink, Hgone.
  split; [split; [exact Ht | split; lra] |].
  split; [apply Hshrink; [exact Ht | lra] | apply Hgone; lra].
Defined.

End Motion.

(** ** Weapons *)

Section Volley.

Import Vector2.

Ltac splits := repeat match goal with |- _ /\ _ => split end.

Lemma rotate_length_squared (v : Vector2.t) (deg : R) :
  length_squared (rotate v deg) = length_squared v.
Proof.
  unfold length_squared, rotate. cbn [x y].
  pose proof (sin2_cos2 (radians deg)) as H. unfold Rsqr in H.
  set (c := cos (radians deg)) in *. set (s := sin (radians deg)) in *.
  replace ((c * x v - s * y v) * (c * x v - s * y v)
           + (s * x v + c * y v) * (s * x v + c * y v))
    with ((s * s + c * c) * (x v * x v + y v * y v)) by ring.
  rewrite H. ring.
Qed.

Lemma scale_length_squared (v : Vector2.t) (k : R) :
  length_squared (scale v k) = length_squared v * (k * k).
Proof. unfold length_squared, scale. cbn [x y]. ring. Qed.

Lemma shot_speed (w : Weapon.t) (position : Vector2.t) (angle : R) :
  length_squared (Bullet.velocity (Weapon.shot w position angle))
  = Weapon.bullet_speed w * Weapon.bullet_speed w.
Proof.
  unfold Weapon.shot. cbn [Bullet.velocity].
  rewrite scale_length_squared, rotate_length_squared.
  unfold length_squared. cbn [x y]. ring.
Qed.

Lemma range_empty (n : Z) : (n <= 0)%Z -> range n = [].
Proof.
  intros H. unfold range. replace (Z.to_nat n) with 0%nat by lia. reflexivity.
Qed.

(** X6: a weapon whose timer is not positive fires, whatever its spread and
    wherever it aims: [try_fire] returns one bullet for each of its
    [projectiles] (none when that number is not positive), every bullet
    starts at the firing position, flies at exactly [bullet_speed], is alive,
    has radius 6 and carries the weapon's damage, pierce and colour; and the
    timer is set to the cooldown, also when no bullet was made. *)
Theorem volley (w : Weapon.t) (position target : Vector2.t) :
  Weapon.timer w <= 0 ->
  let fired := Weapon.try_fire w position target in
  List.length (fst fired) = Z.to_nat (Weapon.projectiles w) /\
  Forall (fun b =>
            Bullet.position b = position /\
            length_squared (Bullet.velocity b)
            = Weapon.bullet_speed w * Weapon.bullet_speed w /\
            Bullet.alive b = true /\ Bullet.radius b = 6 /\
            Bullet.damage b = Weapon.bullet_damage w /\
            Bullet.pierce b = Weapon.pierce w /\
            Bullet.color b = Weapon.color w) (fst fired) /\
  snd fired = Weapon.set_timer (Weapon.cooldown w) w /\
  ((Weapon.projectiles w <= 0)%Z -> fst fired = []).
Proof.
  intros Ht. cbn zeta. rewrite (try_fire_ready w position target Ht).
  cbn [fst snd]. splits.
  - rewrite length_map. apply range_length.
  - apply Forall_map, Forall_forall. intros i _.
    splits; try reflexivity. apply shot_speed.
  - reflexivity.
  - intros Hn. rewrite (range_empty _ Hn). reflexivity.
Qed.

Lemma volley_witness :
  (Weapon.timer Samples.thorn_fork <= 0 /\
   Weapon.timer (Weapon.make "Husk" (Color.make 0 0 0 255) 0.5 300 1 0 0 0 0)
   <= 0 /\ (0 <= 0)%Z) /\
  List.length
    (fst (Weapon.try_fire Samples.thorn_fork Scenes.centre Samples.origin))
  = 3%nat /\
  Weapon.try_fire (Weapon.make "Husk" (Color.make 0 0 0 255) 0.5 300 1 0 0 0 0)
                  Scenes.centre Samples.origin
  = ([], Weapon.make "Husk" (Color.make 0 0 0 255) 0.5 300 1 0 0 0 0.5).
Proof.
  assert (H1 : Weapon.timer Samples.thorn_fork <= 0) by (cbn; lra).
  assert (H2 : Weapon.timer
                 (Weapon.make "Husk" (Color.make 0 0 0 255) 0.5 300 1 0 0 0 0)
               <= 0) by (cbn; lra).
  destruct (volley Samples.thorn_fork Scenes.centre Samples.origin H1)
    as (Hlen & _).
  destruct (volley (Weapon.make "Husk" (Color.make 0 0 0 255) 0.5 300 1 0 0 0 0)
                   Scenes.centre Samples.origin H2) as (_ & _ & Hsnd & Hnone).
  split; [split; [exact H1 | split; [exact H2 | lia]] |].
  split; [exact Hlen |].
  rewrite (surjective_pairing (Weapon.try_fire _ _ _)).
  rewrite Hsnd, Hnone by (cbn; lia). reflexivity.
Defined.

(** X7: aiming at the very point the weapon is fired from is the same as
    aiming one unit to the east of it: [try_fire] replaces the zero aim
    vector by [(1, 0)]. *)
Theorem aim_at_self (w : Weapon.t) (position : Vector2.t) :
  Weapon.aim position position = make 1 0 /\
  Weapon.try_fire w position position
  = Weapon.try_fire w position (add position (make 1 0)).
Proof.
  assert (Hself : Weapon.aim position position = make 1 0).
  { unfold Weapon.aim. rewrite Reqb_true; [reflexivity |].
    unfold length_squared, sub. cbn [x y]. ring. }
  assert (Heast : Weapon.aim position (add position (make 1 0)) = make 1 0).
  { unfold Weapon.aim. rewrite Reqb_false.
    - unfold sub, add. cbn [x y]. f_equal; ring.
    - unfold length_squared, sub, add. cbn [x y]. lra. }
  split; [exact Hself |].
  unfold Weapon.try_fire. rewrite Hself, Heast. reflexivity.
Qed.



End Volley.

(** ** The weapon table *)

Section Armoury.

Import GameWorld.

Ltac splits := repeat match goal with |- _ /\ _ => split end.

Lemma lookup_absent {A : Type} (d : list (string * A)) (key : string) :
  ~ In key (map fst d) -> settings.lookup d key = None.
Proof.
  induction d as [| [k v] d IH]; intros Hn; [reflexivity |].
  cbn [settings.lookup]. destruct (String.eqb k key) eqn:E.
  - apply String.eqb_eq in E. exfalso. apply Hn. left. exact E.
  - apply IH. intros Hin. apply Hn. right. exact Hin.
Qed.

Lemma lookup_present {A : Type} (d : list (string * A)) (key : string) :
  In key (map fst d) -> exists v, settings.lookup d key = Some v /\ In v (map snd d).
Proof.
  induction d as [| [k v] d IH]; intros Hin; [destruct Hin |].
  cbn [settings.lookup]. destruct (String.eqb k key) eqn:E.
  - exists v. split; [reflexivity | left; reflexivity].
  - destruct Hin as [Hk | Hin].
    + cbn [fst] in Hk. apply String.eqb_neq in E. contradiction.
    + destruct (IH Hin) as (v' & Hv & Hi). exists v'.
      split; [exact Hv | right; exact Hi].
Qed.

(** X9: [create_weapon] succeeds exactly on the keys of
    [settings.WEAPON_DEFS]; any other name is a [KeyError].  The weapon it
    returns bears the name asked for and is ready to fire (timer 0); its
    cooldown, bullet speed and damage are positive, it fires at least one
    projectile, and its spread and pierce are not negative. *)
Theorem create_weapon_table (name : string) :
  (In name (map fst settings.WEAPON_DEFS) ->
   exists w,
     create_weapon name = Some w /\
     Weapon.name w = name /\ Weapon.timer w = 0 /\
     0 < Weapon.cooldown w /\ 0 < Weapon.bullet_speed w /\
     0 < Weapon.bullet_damage w /\ 0 <= Weapon.spread w /\
     (1 <= Weapon.projectiles w)%Z /\ (0 <= Weapon.pierce w)%Z) /\
  (~ In name (map fst settings.WEAPON_DEFS) -> create_weapon name = None).
Proof.
  split.
  - intros Hin. cbn [map fst settings.WEAPON_DEFS] in Hin.
    destruct Hin as [<- | [<- | [<- | []]]];
      eexists; (split; [reflexivity |]);
      cbn [Weapon.name Weapon.timer Weapon.cooldown Weapon.bullet_speed
           Weapon.bullet_damage Weapon.spread Weapon.projectiles Weapon.pierce
           settings.w_cooldown settings.w_bullet_speed
           settings.w_bullet_damage settings.w_spread settings.w_projectiles
           settings.w_piercing];
      splits; try reflexivity; try lra; try lia.
  - intros Hn. unfold create_weapon. rewrite (lookup_absent _ _ Hn).
    reflexivity.
Qed.

Lemma create_weapon_table_witness :
  (In "Solar Beam"%string (map fst settings.WEAPON_DEFS) /\
   ~ In "Pea Shooter"%string (map fst settings.WEAPON_DEFS)) /\
  (exists w, create_weapon "Solar Beam" = Some w /\ Weapon.timer w = 0) /\
  create_weapon "Pea Shooter" = None.
Proof.
  assert (Hin : In "Solar Beam"%string (map fst settings.WEAPON_DEFS)).
  { cbn. tauto. }
  assert (Hout : ~ In "Pea Shooter"%string (map fst settings.WEAPON_DEFS)).
  { cbn. intros [H | [H | [H | []]]]; discriminate H. }
  destruct (create_weapon_table "Solar Beam") as (Hsome & _).
  destruct (create_weapon_table "Pea Shooter") as (_ & Hnone).
  destruct (Hsome Hin) as (w & Hw & _ & Ht & _).
  split; [exact (conj Hin Hout) |].
  split; [exists w; exact (conj Hw Ht) | exact (Hnone Hout)].
Defined.

End Armoury.

(** ** The collision pass on enemies that are alive *)

Section SafePass.

Import GameWorld.

Ltac splits := repeat match goal with |- _ /\ _ => split end.

Ltac forget t x := generalize dependent t; intros x; intros.

Lemma write_other (i : nat) (e : Enemy.t) (l : list (nat * Enemy.t)) :
  Forall (fun q => fst q <> i) l -> write i e l = l.
Proof.
  intros H. unfold write. induction H as [| q l Hq _ IH]; [reflexivity |].
  cbn [map]. rewrite IH. apply Nat.eqb_neq in Hq. rewrite Hq. reflexivity.
Qed.

Lemma write_at (i : nat) (e e0 : Enemy.t) (L R : list (nat * Enemy.t)) :
  Forall (fun q => fst q <> i) L -> Forall (fun q => fst q <> i) R ->
  write i e (L ++ (i, e0) :: R) = L ++ (i, e) :: R.
Proof.
  intros HL HR. pose proof (write_other i e L HL) as EL.
  pose proof (write_other i e R HR) as ER. unfold write in *.
  rewrite map_app. cbn [map fst]. rewrite EL, ER, Nat.eqb_refl. reflexivity.
Qed.

Lemma eqb_health (a b : Enemy.t) :
  Enemy.health a <> Enemy.health b -> Enemy.eqb a b = false.
Proof.
  intros H. unfold Enemy.eqb. destruct (Enemy.eq_dec a b); [| reflexivity].
  subst. contradiction.
Qed.

Lemma enemy_eqb_refl (e : Enemy.t) : Enemy.eqb e e = true.
Proof. unfold Enemy.eqb. destruct (Enemy.eq_dec e e); congruence. Qed.

Lemma remove_at (i : nat) (e : Enemy.t) (L R : list (nat * Enemy.t)) :
  Forall (fun q => Enemy.health (snd q) <> Enemy.health e) L ->
  remove e (L ++ (i, e) :: R) = Some (L ++ R).
Proof.
  intros H. induction H as [| q L Hq _ IH]; cbn [app remove snd].
  - rewrite enemy_eqb_refl. reflexivity.
  - rewrite (eqb_health _ _ Hq), IH. reflexivity.
Qed.

Lemma contains_at (i : nat) (e : Enemy.t) (L R : list (nat * Enemy.t)) :
  contains e (L ++ (i, e) :: R) = true.
Proof.
  unfold contains. rewrite existsb_app. cbn [existsb snd].
  rewrite enemy_eqb_refl. rewrite orb_true_l. apply orb_true_r.
Qed.

Lemma remove_absent (e : Enemy.t) (l : list (nat * Enemy.t)) :
  Forall (fun q => Enemy.health (snd q) <> Enemy.health e) l ->
  remove e l = None.
Proof.
  intros H. induction H as [| q l Hq _ IH]; cbn [remove]; [reflexivity |].
  rewrite (eqb_health _ _ Hq), IH. reflexivity.
Qed.

Lemma is_dead_spec (e : Enemy.t) :
  (Enemy.is_dead e = true -> Enemy.health e <= 0) /\
  (Enemy.is_dead e = false -> 0 < Enemy.health e).
Proof.
  unfold Enemy.is_dead, Rleb. destruct (Rle_dec (Enemy.health e) 0);
    split; intros H; try discriminate; lra.
Qed.

Lemma alive_differs (l : list (nat * Enemy.t)) (e : Enemy.t) :
  Forall (fun q => 0 < Enemy.health (snd q)) l -> Enemy.health e <= 0 ->
  Forall (fun q => Enemy.health (snd q) <> Enemy.health e) l.
Proof.
  intros H He. eapply Forall_impl; [| exact H]. cbn beta. intros q Hq. lra.
Qed.

Lemma first_hit_misses (r : Rect.t) (bs : list Bullet.t) :
  Forall (fun b => hits r b = false) bs -> first_hit r bs = None.
Proof.
  intros H. induction H as [| b bs Hb _ IH]; cbn [first_hit]; [reflexivity |].
  rewrite Hb, IH. reflexivity.
Qed.

Lemma replace_Forall (P : Bullet.t -> Prop) (k : nat) (b : Bullet.t)
  (bs : list Bullet.t) :
  Forall P bs -> P b -> Forall P (replace k b bs).
Proof.
  intros H Hb. revert k.
  induction H as [| b0 bs H0 H1 IH]; intros k; destruct k; cbn [replace];
    try constructor; auto.
Qed.

Lemma spend_misses (r : Rect.t) (k : nat) (b : Bullet.t)
  (bs : list Bullet.t) :
  nth_error bs k = Some b ->
  Forall (fun b => hits r b = false) bs ->
  Forall (fun b => hits r b = false) (replace k (spend b) bs).
Proof.
  intros Hn H. apply replace_Forall; [exact H |].
  rewrite hits_spend. rewrite Forall_forall in H.
  rewrite (H b (nth_error_In _ _ Hn)). apply andb_false_r.
Qed.

(** The contact check at the turn of the enemy with index [i]. *)
Lemma contact_check_step (pr : Rect.t) (i : nat) (e : Enemy.t) (s : t)
  (L R : list (nat * Enemy.t)) :
  Forall (fun q => fst q <> i) L -> Forall (fun q => fst q <> i) R ->
  Forall (fun q => 0 < Enemy.health (snd q)) L ->
  exists s',
    bullets s' = bullets s /\ score s' = score s /\
    contact_check pr i e (mkPass s (L ++ (i, e) :: R)) =
      (if Rect.colliderect (Enemy.rect e) pr
       then (Enemy.take_damage e (Enemy.health e), mkPass s' (L ++ R))
       else (e, mkPass s' (L ++ (i, e) :: R))).
Proof.
  intros HL HR Hh. unfold contact_check. cbn [world live].
  destruct (Rect.colliderect (Enemy.rect e) pr).
  2: { exists s. splits; reflexivity. }
  match goal with
  | |- context [play "hit" (spawn_particles ?a ?c ?s1)] =>
      pose proof (cosmetic_burst_hit a c s1) as Hc;
      forget (play "hit" (spawn_particles a c s1)) s3;
      assert (Hb1 : bullets s1 = bullets s) by reflexivity;
      assert (Hs1 : score s1 = score s) by reflexivity;
      forget s1 s1'
  end.
  destruct Hc as [_ _ _ Hb _ _ _ Hs _ _ _].
  rewrite (write_at i _ e L R HL HR).
  rewrite is_dead_after_contact, contains_at. cbn [andb].
  rewrite remove_at.
  - exists s3. splits; [congruence | congruence | reflexivity].
  - apply alive_differs; [exact Hh |].
    unfold Enemy.take_damage. cbn [Enemy.health Enemy.set_health]. lra.
Qed.

(** The bullet loop at the turn of an enemy: what it returns or raises. *)
Lemma bullet_check_step (i : nat) (e : Enemy.t) (s : t)
  (l : list (nat * Enemy.t)) (k : nat) (b : Bullet.t) :
  first_hit (Enemy.rect e) (bullets s) = Some (k, b) ->
  let e1 := Enemy.take_damage e (Bullet.damage b) in
  exists s' s'',
    bullets s' = replace k (spend b) (bullets s) /\
    bullets s'' = bullets s /\
    score s' = (if Enemy.is_dead e1 then score s + 5 else score s)%Z /\
    bullet_check i e (mkPass s l) =
      (if Enemy.is_dead e1 then
         match remove e1 (write i e1 l) with
         | Some l' => Returns (mkPass s' l')
         | None => Raises (mkPass s'' (write i e1 l))
         end
       else Returns (mkPass s' (write i e1 l))).
Proof.
  intros Hf. cbn zeta. unfold bullet_check. cbn [world live]. rewrite Hf.
  set (e1 := Enemy.take_damage e (Bullet.damage b)).
  pose proof (cosmetic_burst_hit (Bullet.position b) (Bullet.color b) s) as Hc.
  forget (play "hit" (spawn_particles (Bullet.position b) (Bullet.color b) s))
         s1.
  destruct Hc as [_ _ _ Hb1 _ _ _ Hs1 _ _ _].
  destruct (Enemy.is_dead e1).
  - assert (Hb2 : bullets (set_score (score s1 + 5) s1) = bullets s1)
      by reflexivity.
    assert (Hs2 : score (set_score (score s1 + 5) s1) = (score s1 + 5)%Z)
      by reflexivity.
    forget (set_score (score s1 + 5) s1) s2.
    pose proof (cosmetic_spawn_particles (Enemy.position e1) (Enemy.color e1)
                  s2) as Hc3.
    forget (spawn_particles (Enemy.position e1) (Enemy.color e1) s2) s3.
    destruct Hc3 as [_ _ _ Hb3 _ _ _ Hs3 _ _ _].
    exists (set_bullets (replace k (spend b) (bullets s3)) s3), s3.
    splits.
    + cbn [bullets set_bullets]. congruence.
    + congruence.
    + cbn [score set_bullets]. congruence.
    + destruct (remove e1 (write i e1 l)); cbn [bind world live]; reflexivity.
  - exists (set_bullets (replace k (spend b) (bullets s1)) s1), s1.
    cbn [bind world live]. splits.
    + cbn [bullets set_bullets]. congruence.
    + congruence.
    + cbn [score set_bullets]. congruence.
    + reflexivity.
Qed.

Lemma alive_ids_lt (i : nat) (l : list (nat * Enemy.t)) :
  Forall (fun q => (fst q < i)%nat /\ 0 < Enemy.health (snd q)) l ->
  Forall (fun q => fst q <> i) l /\
  Forall (fun q => 0 < Enemy.health (snd q)) l.
Proof.
  intros H. split; (eapply Forall_impl; [| exact H]); cbn beta;
    intros q [H1 H2]; [lia | exact H2].
Qed.

Lemma alive_ids_gt (i : nat) (l : list (nat * Enemy.t)) :
  Forall (fun q => (i < fst q)%nat /\ 0 < Enemy.health (snd q)) l ->
  Forall (fun q => fst q <> i) l /\
  Forall (fun q => 0 < Enemy.health (snd q)) l.
Proof.
  intros H. split; (eapply Forall_impl; [| exact H]); cbn beta;
    intros q [H1 H2]; [lia | exact H2].
Qed.

Lemma alive_ids_step (i : nat) (l : list (nat * Enemy.t)) :
  Forall (fun q => (fst q < i)%nat /\ 0 < Enemy.health (snd q)) l ->
  Forall (fun q => (fst q < S i)%nat /\ 0 < Enemy.health (snd q)) l.
Proof.
  intros H. eapply Forall_impl; [| exact H]. cbn beta. intros q [H1 H2].
  split; [lia | exact H2].
Qed.

Lemma alive_ids_snoc (i : nat) (e : Enemy.t) (l : list (nat * Enemy.t)) :
  Forall (fun q => (fst q < i)%nat /\ 0 < Enemy.health (snd q)) l ->
  0 < Enemy.health e ->
  Forall (fun q => (fst q < S i)%nat /\ 0 < Enemy.health (snd q))
         (l ++ [(i, e)]).
Proof.
  intros H He. apply Forall_app. split; [apply alive_ids_step; exact H |].
  constructor; [| constructor]. cbn [fst snd]. split; [lia | exact He].
Qed.

(** One turn of the loop over the snapshot: the enemy with index [i] is at
    the head of what is left of the snapshot, [L] holds the enemies that the
    earlier turns have kept. *)
Lemma per_enemy_step (pr : Rect.t) (i : nat) (e : Enemy.t) (s : t)
  (L R : list (nat * Enemy.t)) :
  Forall (fun q => (fst q < i)%nat /\ 0 < Enemy.health (snd q)) L ->
  Forall (fun q => (i < fst q)%nat /\ 0 < Enemy.health (snd q)) R ->
  0 < Enemy.health e ->
  exists s' L',
    final (per_enemy pr i e (mkPass s (L ++ (i, e) :: R)))
    = mkPass s' (L' ++ R) /\
    Forall (fun q => (fst q < S i)%nat /\ 0 < Enemy.health (snd q)) L' /\
    (forall r, Forall (fun b => hits r b = false) (bullets s) ->
               Forall (fun b => hits r b = false) (bullets s')) /\
    (Rect.colliderect (Enemy.rect e) pr = false \/
     Forall (fun b => hits (Enemy.rect e) b = false) (bullets s) ->
     returned (per_enemy pr i e (mkPass s (L ++ (i, e) :: R))) = true) /\
    (bullets s = [] ->
     bullets s' = [] /\ score s' = score s /\
     map snd L' =
       map snd L ++ (if Rect.colliderect (Enemy.rect e) pr then [] else [e])).
Proof.
  intros HL HR He.
  destruct (alive_ids_lt _ _ HL) as [HLi HLh].
  destruct (alive_ids_gt _ _ HR) as [HRi HRh].
  unfold per_enemy.
  destruct (contact_check_step pr i e s L R HLi HRi HLh)
    as (s1 & Hb1 & Hs1 & ->).
  destruct (Rect.colliderect (Enemy.rect e) pr) eqn:Ht.
  - (* the enemy touches the player: it is killed and taken off the list *)
    set (e0 := Enemy.take_damage e (Enemy.health e)).
    assert (Hr0 : Enemy.rect e0 = Enemy.rect e) by reflexivity.
    assert (Hw : forall e1, write i e1 (L ++ R) = L ++ R).
    { intros e1. apply write_other. apply Forall_app. split; assumption. }
    destruct (first_hit (Enemy.rect e0) (bullets s1)) as [[k b] |] eqn:Hf.
    + destruct (bullet_check_step i e0 s1 (L ++ R) k b Hf)
        as (s2 & s3 & Hb2 & Hb3 & Hs2 & ->).
      rewrite Hw. apply first_hit_some in Hf. destruct Hf as (Hn & Hhit & _).
      assert (Hmiss : forall r,
                 Forall (fun b => hits r b = false) (bullets s) ->
                 Forall (fun b => hits r b = false) (bullets s2)).
      { intros r Hr. rewrite Hb2. apply spend_misses; [exact Hn |].
        rewrite Hb1. exact Hr. }
      assert (Hsafe : Forall (fun b => hits (Enemy.rect e) b = false)
                             (bullets s) -> False).
      { intros Hr. rewrite <- Hb1, Forall_forall in Hr.
        rewrite Hr0 in Hhit.
        rewrite (Hr b (nth_error_In _ _ Hn)) in Hhit. discriminate. }
      assert (Hnil : bullets s = [] -> False).
      { intros Hnil. rewrite <- Hb1 in Hnil. rewrite Hnil in Hn.
        destruct k; discriminate. }
      destruct (Enemy.is_dead (Enemy.take_damage e0 (Bullet.damage b)))
        eqn:Hd.
      * rewrite remove_absent.
        2: { apply alive_differs;
               [apply Forall_app; split; assumption |].
             apply is_dead_spec. exact Hd. }
        exists s3, L. cbn [final returned]. splits.
        -- reflexivity.
        -- apply alive_ids_step. exact HL.
        -- intros r Hr. rewrite Hb3, Hb1. exact Hr.
        -- intros [H | H]; [discriminate | destruct (Hsafe H)].
        -- intros H. destruct (Hnil H).
      * exists s2, L. cbn [final returned]. splits.
        -- reflexivity.
        -- apply alive_ids_step. exact HL.
        -- exact Hmiss.
        -- reflexivity.
        -- intros H. destruct (Hnil H).
    + rewrite (bullet_check_miss i e0 (mkPass s1 (L ++ R)) Hf).
      exists s1, L. cbn [final returned]. splits.
      * reflexivity.
      * apply alive_ids_step. exact HL.
      * intros r Hr. rewrite Hb1. exact Hr.
      * reflexivity.
      * intros H. splits; [congruence | exact Hs1 |].
        rewrite app_nil_r. reflexivity.
  - (* the enemy does not touch the player *)
    destruct (first_hit (Enemy.rect e) (bullets s1)) as [[k b] |] eqn:Hf.
    + destruct (bullet_check_step i e s1 (L ++ (i, e) :: R) k b Hf)
        as (s2 & s3 & Hb2 & Hb3 & Hs2 & ->).
      rewrite (write_at i _ e L R HLi HRi).
      apply first_hit_some in Hf. destruct Hf as (Hn & Hhit & _).
      assert (Hmiss : forall r,
                 Forall (fun b => hits r b = false) (bullets s) ->
                 Forall (fun b => hits r b = false) (bullets s2)).
      { intros r Hr. rewrite Hb2. apply spend_misses; [exact Hn |].
        rewrite Hb1. exact Hr. }
      assert (Hnil : bullets s = [] -> False).
      { intros Hnil. rewrite <- Hb1 in Hnil. rewrite Hnil in Hn.
        destruct k; discriminate. }
      destruct (Enemy.is_dead (Enemy.take_damage e (Bullet.damage b)))
        eqn:Hd.
      * rewrite remove_at.
        2: { apply alive_differs; [exact HLh |].
             apply is_dead_spec. exact Hd. }
        exists s2, L. cbn [final returned]. splits.
        -- reflexivity.
        -- apply alive_ids_step. exact HL.
        -- exact Hmiss.
        -- reflexivity.
        -- intros H. destruct (Hnil H).
      * exists s2, (L ++ [(i, Enemy.take_damage e (Bullet.damage b))]).
        cbn [final returned]. splits.
        -- rewrite <- app_assoc. reflexivity.
        -- apply alive_ids_snoc; [exact HL |].
           apply is_dead_spec. exact Hd.
        -- exact Hmiss.
        -- reflexivity.
        -- intros H. destruct (Hnil H).
    + rewrite (bullet_check_miss i e (mkPass s1 (L ++ (i, e) :: R)) Hf).
      exists s1, (L ++ [(i, e)]). cbn [final returned]. splits.
      * rewrite <- app_assoc. reflexivity.
      * apply alive_ids_snoc; assumption.
      * intros r Hr. rewrite Hb1. exact Hr.
      * reflexivity.
      * intros H. splits; [congruence | exact Hs1 |].
        rewrite map_app. reflexivity.
Qed.

Lemma combine_seq_alive (es : list Enemy.t) (i : nat) :
  Forall (fun e => 0 < Enemy.health e) es ->
  Forall (fun q => (i < fst q)%nat /\ 0 < Enemy.health (snd q))
         (combine (seq (S i) (List.length es)) es).
Proof.
  intros H. revert i.
  induction H as [| e es He _ IH]; intros i; cbn [List.length seq combine];
    constructor.
  - cbn [fst snd]. split; [lia | exact He].
  - eapply Forall_impl; [| apply (IH (S i))]. cbn beta. intros q [H1 H2].
    split; [lia | exact H2].
Qed.

(** The loop over the snapshot, from the turn of the enemy with index [i]
    on. *)
Lemma enemy_loop_alive (pr : Rect.t) (es : list Enemy.t) :
  forall (i : nat) (s : t) (L : list (nat * Enemy.t)),
  Forall (fun q => (fst q < i)%nat /\ 0 < Enemy.health (snd q)) L ->
  Forall (fun e => 0 < Enemy.health e) es ->
  let snap := combine (seq i (List.length es)) es in
  let r := enemy_loop pr snap (mkPass s (L ++ snap)) in
  Forall (fun q => 0 < Enemy.health (snd q)) (live (final r)) /\
  (Forall (fun e => Rect.colliderect (Enemy.rect e) pr = false \/
                    Forall (fun b => hits (Enemy.rect e) b = false)
                           (bullets s)) es ->
   returned r = true) /\
  (bullets s = [] ->
   map snd (live (final r))
   = map snd L
     ++ filter (fun e => negb (Rect.colliderect (Enemy.rect e) pr)) es /\
   score (world (final r)) = score s).
Proof.
  induction es as [| e es IH]; intros i s L HL Hes; cbn zeta.
  - cbn [List.length seq combine enemy_loop final returned live world filter].
    rewrite !app_nil_r. splits; try reflexivity.
    + eapply Forall_impl; [| exact HL]. cbn beta. tauto.
    + intros _. split; reflexivity.
  - cbn [List.length seq combine enemy_loop].
    inversion Hes as [| e' es' He Hes']; subst e' es'.
    pose proof (combine_seq_alive es i Hes') as HR.
    destruct (per_enemy_step pr i e s L _ HL HR He)
      as (s' & L' & Hfin & HL' & Hmiss & Hret & Hnil).
    specialize (IH (S i) s' L' HL' Hes'). cbn zeta in IH.
    destruct IH as (IH1 & IH2 & IH3).
    generalize dependent
      (per_enemy pr i e
         (mkPass s (L ++ (i, e) :: combine (seq (S i) (List.length es)) es))).
    intros m Hfin Hret.
    destruct m as [p' | p']; cbn [final] in Hfin; subst p'; cbn [bind].
    + splits.
      * exact IH1.
      * intros Hsafe. inversion Hsafe as [| e' es' Hse Hsafe']; subst e' es'.
        apply IH2. eapply Forall_impl; [| exact Hsafe']. cbn beta.
        intros e1 [H | H]; [left; exact H | right; apply Hmiss; exact H].
      * intros Hb. destruct (Hnil Hb) as (Hb' & Hs' & Hm).
        destruct (IH3 Hb') as (IHm & IHs). split; [| congruence].
        rewrite IHm, Hm. cbn [filter].
        destruct (Rect.colliderect (Enemy.rect e) pr); cbn [negb app];
          [rewrite app_nil_r | rewrite <- app_assoc]; reflexivity.
    + cbn [final returned live world]. splits.
      * apply Forall_app. split.
        -- eapply Forall_impl; [| exact HL']. cbn beta. tauto.
        -- eapply Forall_impl; [| exact HR]. cbn beta. tauto.
      * intros Hsafe. inversion Hsafe as [| e' es' Hse Hsafe']; subst e' es'.
        cbn [returned] in Hret. exact (Hret Hse).
      * intros Hb. cbn [returned] in Hret.
        assert (Hno : false = true) by (apply Hret; right; rewrite Hb;
                                        constructor).
        discriminate Hno.
Qed.

Lemma enemies_clamp_sync (p : Pass) :
  enemies (clamp_health (sync p)) = map snd (live p) /\
  score (clamp_health (sync p)) = score (world p) /\
  enemies (sync p) = map snd (live p) /\
  score (sync p) = score (world p).
Proof.
  unfold clamp_health.
  destruct (Player.health (player (sync p)) <=? 0)%Z; splits; reflexivity.
Qed.

(** The whole pass on a world whose enemies are alive. *)
Lemma handle_collisions_alive (s : t) :
  Forall (fun e => 0 < Enemy.health e) (enemies s) ->
  Forall (fun e => 0 < Enemy.health e)
         (enemies (final (handle_collisions s))) /\
  (Forall (fun e => Rect.colliderect (Enemy.rect e) (player_rect s) = false \/
                    Forall (fun b => hits (Enemy.rect e) b = false)
                           (bullets s)) (enemies s) ->
   returned (handle_collisions s) = true) /\
  (bullets s = [] ->
   enemies (final (handle_collisions s))
   = filter (fun e => negb (Rect.colliderect (Enemy.rect e) (player_rect s)))
            (enemies s) /\
   score (final (handle_collisions s)) = score s).
Proof.
  intros Hes.
  pose proof (enemy_loop_alive (player_rect s) (enemies s) 0 s [] 
                (Forall_nil _) Hes) as H.
  cbn zeta in H. cbn [app map] in H.
  unfold handle_collisions, snapshot.
  generalize dependent
    (enemy_loop (player_rect s)
       (combine (seq 0 (List.length (enemies s))) (enemies s))
       (mkPass s (combine (seq 0 (List.length (enemies s))) (enemies s)))).
  intros m (H1 & H2 & H3).
  destruct (enemies_clamp_sync (final m)) as (Ec & Sc & Er & Sr).
  destruct m as [p | p]; cbn [final returned] in *.
  - rewrite Ec, Sc. splits.
    + apply Forall_map. exact H1.
    + exact H2.
    + exact H3.
  - rewrite Er, Sr. splits.
    + apply Forall_map. exact H1.
    + exact H2.
    + exact H3.
Qed.

Lemma misses_of_first_hit (r : Rect.t) (bs : list Bullet.t) :
  first_hit r bs = None <-> Forall (fun b => hits r b = false) bs.
Proof. split; [apply first_hit_none | apply first_hit_misses]. Qed.

(** X10: on a world whose enemies all have positive health,
    [handle_collisions] returns whenever no enemy is both in contact with the
    player and under a live bullet; so when the [ValueError] of the second
    [remove] leaves the pass, some enemy of the world touched the player
    with a live bullet inside its box. *)
Theorem error_needs_contact_and_hit (s : t) :
  Forall (fun e => 0 < Enemy.health e) (enemies s) ->
  (Forall (fun e => Rect.colliderect (Enemy.rect e) (player_rect s) = false \/
                    first_hit (Enemy.rect e) (bullets s) = None)
          (enemies s) ->
   returned (handle_collisions s) = true) /\
  (returned (handle_collisions s) = false ->
   Exists (fun e => Rect.colliderect (Enemy.rect e) (player_rect s) = true /\
                    first_hit (Enemy.rect e) (bullets s) <> None)
          (enemies s)).
Proof.
  intros Hes. destruct (handle_collisions_alive s Hes) as (_ & Hsafe & _).
  assert (Hret :
    Forall (fun e => Rect.colliderect (Enemy.rect e) (player_rect s) = false \/
                     first_hit (Enemy.rect e) (bullets s) = None)
           (enemies s) ->
    returned (handle_collisions s) = true).
  { intros H. apply Hsafe. eapply Forall_impl; [| exact H]. cbn beta.
    intros e [He | He]; [left; exact He |].
    right. apply misses_of_first_hit. exact He. }
  split; [exact Hret |].
  intros Hraise.
  generalize dependent (returned (handle_collisions s)). intros ret _ Hret ->.
  induction (enemies s) as [| e es IH].
  - assert (H : false = true) by (apply Hret; constructor). discriminate H.
  - destruct (Rect.colliderect (Enemy.rect e) (player_rect s)) eqn:Hc.
    + destruct (first_hit (Enemy.rect e) (bullets s)) as [hit |] eqn:Hf.
      * left. rewrite Hc, Hf. split; [reflexivity | discriminate].
      * right. apply IH.
        -- inversion Hes; assumption.
        -- intros H. apply Hret. constructor; [| exact H].
           right. exact Hf.
    + right. apply IH.
      * inversion Hes; assumption.
      * intros H. apply Hret. constructor; [| exact H]. left. exact Hc.
Qed.

Lemma error_needs_contact_and_hit_witness :
  (Forall (fun e => 0 < Enemy.health e) (enemies Scenes.hunt) /\
   Forall (fun e =>
             Rect.colliderect (Enemy.rect e) (player_rect Scenes.hunt) = false
             \/ first_hit (Enemy.rect e) (bullets Scenes.hunt) = None)
          (enemies Scenes.hunt) /\
   Forall (fun e => 0 < Enemy.health e) (enemies Scenes.ambush) /\
   returned (handle_collisions Scenes.ambush) = false) /\
  returned (handle_collisions Scenes.hunt) = true /\
  Exists (fun e =>
            Rect.colliderect (Enemy.rect e) (player_rect Scenes.ambush) = true
            /\ first_hit (Enemy.rect e) (bullets Scenes.ambush) <> None)
         (enemies Scenes.ambush).
Proof.
  assert (H1 : Forall (fun e => 0 < Enemy.health e) (enemies Scenes.hunt)).
  { repeat constructor; cbn [Enemy.health Scenes.beast1 Scenes.beast2
                             Scenes.root_beast]; lra. }
  assert (H2 : Forall (fun e =>
             Rect.colliderect (Enemy.rect e) (player_rect Scenes.hunt) = false
             \/ first_hit (Enemy.rect e) (bullets Scenes.hunt) = None)
          (enemies Scenes.hunt)).
  { rewrite (hero_rect Scenes.hunt (Some Samples.solar_beam) 100 eq_refl).
    cbn [enemies Scenes.hunt Scenes.beast1 Scenes.beast2].
    constructor; [left | constructor; [left | constructor]].
    - unfold Scenes.beast1. rewrite (root_beast_rect 100 100). reflexivity.
    - unfold Scenes.beast2. rewrite (root_beast_rect 105 100). reflexivity. }
  assert (H3 : Forall (fun e => 0 < Enemy.health e) (enemies Scenes.ambush)).
  { repeat constructor. cbn [Enemy.health Scenes.sproutling]. lra. }
  assert (H4 : returned (handle_collisions Scenes.ambush) = false).
  { destruct (contact_then_hit Scenes.ambush (Scenes.sproutling Scenes.centre)
                0 Scenes.seed eq_refl ambush_contact ambush_hit)
      as (s' & -> & _); [| reflexivity].
    cbn [Bullet.damage Scenes.seed Scenes.bullet_of Samples.seed_blaster
         Weapon.bullet_damage]. lra. }
  destruct (error_needs_contact_and_hit Scenes.hunt H1) as (Hsafe & _).
  destruct (error_needs_contact_and_hit Scenes.ambush H3) as (_ & Hwhy).
  split; [exact (conj H1 (conj H2 (conj H3 H4))) |].
  split; [exact (Hsafe H2) | exact (Hwhy H4)].
Defined.

Lemma touching_count (pr : Rect.t) (es : list Enemy.t) (i : nat) :
  List.length (filter (touches pr) (combine (seq i (List.length es)) es))
  = List.length (filter (fun e => Rect.colliderect (Enemy.rect e) pr) es).
Proof.
  revert i. induction es as [| e es IH]; intros i; [reflexivity |].
  cbn [List.length seq combine filter]. unfold touches at 1. cbn [snd].
  destruct (Rect.colliderect (Enemy.rect e) pr);
    cbn [List.length]; rewrite (IH (S i)); reflexivity.
Qed.

(** X11: on a world without bullets whose enemies all have positive health,
    [handle_collisions] returns, removes exactly the enemies whose box
    overlaps the player's, leaves the others as they were and in their
    order, awards no score, and takes 10 health for each enemy removed, the
    result floored at 0. *)
Theorem contact_pass_clears (s : t) :
  Forall (fun e => 0 < Enemy.health e) (enemies s) ->
  bullets s = [] ->
  let touching :=
    filter (fun e => Rect.colliderect (Enemy.rect e) (player_rect s))
           (enemies s) in
  returned (handle_collisions s) = true /\
  enemies (final (handle_collisions s))
  = filter (fun e => negb (Rect.colliderect (Enemy.rect e) (player_rect s)))
           (enemies s) /\
  score (final (handle_collisions s)) = score s /\
  bullets (final (handle_collisions s)) = [] /\
  Player.health (player (final (handle_collisions s)))
  = Z.max 0 (Player.health (player s)
             - 10 * Z.of_nat (List.length touching)).
Proof.
  intros Hes Hb. cbn zeta.
  destruct (handle_collisions_alive s Hes) as (_ & _ & Hclear).
  destruct (Hclear Hb) as (He & Hs).
  destruct (pass_without_bullets s Hb) as (Hret & Hh).
  destruct (handle_collisions_facts s) as (_ & _ & _ & _ & Hpos & _).
  cbn zeta in Hpos. rewrite Hb in Hpos. cbn [map] in Hpos.
  splits; try assumption.
  - destruct (bullets (final (handle_collisions s))); [reflexivity |].
    discriminate Hpos.
  - rewrite Hh. unfold snapshot. rewrite touching_count. reflexivity.
Qed.

Lemma contact_pass_clears_witness :
  (Forall (fun e => 0 < Enemy.health e) (enemies Scenes.crowd) /\
   bullets Scenes.crowd = []) /\
  returned (handle_collisions Scenes.crowd) = true /\
  score (final (handle_collisions Scenes.crowd)) = 0%Z /\
  bullets (final (handle_collisions Scenes.crowd)) = [].
Proof.
  assert (H1 : Forall (fun e => 0 < Enemy.health e) (enemies Scenes.crowd)).
  { repeat constructor; cbn [Enemy.health Scenes.sproutling]; lra. }
  destruct (contact_pass_clears Scenes.crowd H1 eq_refl)
    as (Hret & _ & Hs & Hb & _).
  split; [exact (conj H1 eq_refl) |].
  split; [exact Hret | split; [exact Hs | exact Hb]].
Defined.

End SafePass.

(** ** Particles and waves *)

Section Spawning.

Import GameWorld.

Ltac splits := repeat match goal with |- _ /\ _ => split end.

Ltac forget t x := generalize dependent t; intros x; intros.

Lemma Int_part_range (u : R) (n : Z) :
  0 <= u < 1 -> (0 < n)%Z -> (0 <= Int_part (u * IZR n) < n)%Z.
Proof.
  intros Hu Hn. destruct (base_Int_part (u * IZR n)) as [H1 H2].
  assert (Hn' : 0 < IZR n) by (apply IZR_lt; exact Hn).
  assert (H3 : 0 <= u * IZR n) by (apply Rmult_le_pos; lra).
  assert (H4 : u * IZR n < IZR n) by nra.
  split.
  - apply Z.lt_succ_r. apply lt_IZR. rewrite succ_IZR. lra.
  - apply lt_IZR. lra.
Qed.

Lemma choice_In {A : Type} (l : list A) (d : A) (g : Random.t) :
  unit_draws g -> l <> [] -> In (fst (Random.choice l d g)) l.
Proof.
  intros Hg Hl. unfold Random.choice, Random.randbelow, Random.random.
  cbn [fst]. apply nth_In.
  assert (Hn : (0 < Z.of_nat (List.length l))%Z).
  { destruct l; [contradiction | cbn [List.length]; lia]. }
  pose proof (Int_part_range _ _ (Hg (Random.cursor g)) Hn) as H. lia.
Qed.

Lemma uniform_range (a b : R) (g : Random.t) :
  unit_draws g -> a <= b ->
  a <= fst (Random.uniform a b g) /\
  (a < b -> fst (Random.uniform a b g) < b).
Proof.
  intros Hg Hab. unfold Random.uniform, Random.random. cbn [fst].
  pose proof (Hg (Random.cursor g)) as Hu. split; [nra | intros; nra].
Qed.

(** Every draw moves the cursor by one and leaves the stream alone. *)
Lemma uniform_next (a b : R) (g : Random.t) :
  snd (Random.uniform a b g)
  = Random.make (Random.draws g) (S (Random.cursor g)).
Proof. reflexivity. Qed.

Lemma choice_next {A : Type} (l : list A) (d : A) (g : Random.t) :
  snd (Random.choice l d g)
  = Random.make (Random.draws g) (S (Random.cursor g)).
Proof. reflexivity. Qed.

Lemma unit_draws_next (g : Random.t) (k : nat) :
  unit_draws g -> unit_draws (Random.make (Random.draws g) k).
Proof. intros H n. exact (H n). Qed.

(** What a burst holds for a particle made with in-range draws. *)
Lemma burst_facts (n : nat) (position : Vector2.t)
  (palette : list (Z * Z * Z)) :
  forall g : Random.t,
  let made := burst n position palette g in
  List.length (fst made) = n /\
  snd made = Random.make (Random.draws g) (Random.cursor g + 5 * n) /\
  Forall (fun p => Particle.position p = position) (fst made) /\
  (unit_draws g -> palette <> [] ->
   Forall (fun p =>
             -120 <= Vector2.x (Particle.velocity p) < 120 /\
             -120 <= Vector2.y (Particle.velocity p) < 120 /\
             0.2 <= Particle.lifetime p < 0.6 /\
             2 <= Particle.radius p < 6 /\
             In (Particle.color p) (map Color.rgb palette)) (fst made)).
Proof.
  induction n as [| n IH]; intros g; cbn zeta.
  - cbn [burst fst snd List.length]. splits; try constructor.
    destruct g as [d c]. cbn [Random.draws Random.cursor]. f_equal. lia.
  - cbn [burst].
    rewrite (surjective_pairing (Random.uniform (-120) 120 g)).
    rewrite uniform_next.
    set (g1 := Random.make (Random.draws g) (S (Random.cursor g))).
    rewrite (surjective_pairing (Random.uniform (-120) 120 g1)).
    rewrite uniform_next.
    set (g2 := Random.make (Random.draws g1) (S (Random.cursor g1))).
    rewrite (surjective_pairing (Random.choice palette (0, 0, 0)%Z g2)).
    rewrite choice_next.
    set (g3 := Random.make (Random.draws g2) (S (Random.cursor g2))).
    rewrite (surjective_pairing (Random.uniform 0.2 0.6 g3)).
    rewrite uniform_next.
    set (g4 := Random.make (Random.draws g3) (S (Random.cursor g3))).
    rewrite (surjective_pairing (Random.uniform 2 6 g4)).
    rewrite uniform_next.
    set (g5 := Random.make (Random.draws g4) (S (Random.cursor g4))).
    specialize (IH g5). cbn zeta in IH.
    destruct (burst n position palette g5) as [rest g6].
    cbn [fst snd] in IH. destruct IH as (Hlen & Hg & Hpos & Hin).
    cbn [fst snd List.length]. splits.
    + rewrite Hlen. reflexivity.
    + rewrite Hg. cbn [g5 g4 g3 g2 g1 Random.draws Random.cursor].
      f_equal. lia.
    + constructor; [reflexivity | exact Hpos].
    + intros Hu Hp.
      assert (H1 : unit_draws g1) by (apply unit_draws_next; exact Hu).
      assert (H2 : unit_draws g2) by (apply unit_draws_next; exact H1).
      assert (H3 : unit_draws g3) by (apply unit_draws_next; exact H2).
      assert (H4 : unit_draws g4) by (apply unit_draws_next; exact H3).
      assert (H5 : unit_draws g5) by (apply unit_draws_next; exact H4).
      constructor; [| exact (Hin H5 Hp)].
      cbn [Particle.velocity Particle.lifetime Particle.radius Particle.color
           Vector2.x Vector2.y].
      destruct (uniform_range (-120) 120 g Hu) as [A1 A2]; [lra |].
      destruct (uniform_range (-120) 120 g1 H1) as [B1 B2]; [lra |].
      destruct (uniform_range 0.2 0.6 g3 H3) as [C1 C2]; [lra |].
      destruct (uniform_range 2 6 g4 H4) as [D1 D2]; [lra |].
      splits; try assumption;
        try (first [apply A2 | apply B2 | apply C2 | apply D2]; lra).
      apply in_map. apply choice_In; assumption.
Qed.



Lemma total_nonneg (dts : list R) :
  Forall (fun dt => 0 <= dt) dts -> 0 <= fold_right Rplus 0 dts.
Proof.
  intros H. induction H as [| d dts Hd _ IH]; cbn [fold_right]; lra.
Qed.

Lemma fold_update (dts : list R) :
  forall p : Particle.t,
  Forall (fun dt => 0 <= dt) dts -> 0 <= Particle.radius p ->
  Particle.radius (fold_left Particle.update dts p)
  = Rmax 0 (Particle.radius p - 40 * fold_right Rplus 0 dts) /\
  Particle.lifetime (fold_left Particle.update dts p)
  = Particle.lifetime p - fold_right Rplus 0 dts.
Proof.
  induction dts as [| d dts IH]; intros p Hd Hr;
    cbn [fold_left fold_right].
  - split; [| lra]. rewrite Rmax_right; lra.
  - inversion Hd as [| d' dts' Hd0 Hd']; subst d' dts'.
    pose proof (total_nonneg dts Hd') as Ht.
    destruct (IH (Particle.update p d) Hd') as [IHr IHl].
    { unfold Particle.update. cbn [Particle.radius]. apply Rmax_l. }
    rewrite IHr, IHl. unfold Particle.update.
    cbn [Particle.radius Particle.lifetime]. split; [| lra].
    unfold Rmax.
    destruct (Rle_dec 0 (Particle.radius p - 40 * d));
      repeat match goal with |- context [Rle_dec ?u ?v] =>
        destruct (Rle_dec u v) end; lra.
Qed.

(** X13: the particles of a burst are removed by their radius, never by
    their lifetime.  With draws from [[0, 1)], a particle made by
    [spawn_particles] and updated over any frames of non-negative length has
    radius [max 0 (radius - 40 * total)] and lifetime [lifetime - total]; the
    test [lifetime > 0 and radius > 0] of [update] gives on it what
    [radius > 0] alone gives; and once the frames add up to 0.15 seconds its
    radius is 0, although every lifetime is at least 0.2. *)
Theorem burst_fades_by_radius (position : Vector2.t) (color : Color.t)
  (s : t) :
  unit_draws (rng s) ->
  exists ps,
    particles (spawn_particles position color s) = particles s ++ ps /\
    Forall
      (fun p =>
         0.2 <= Particle.lifetime p /\
         forall dts, Forall (fun dt => 0 <= dt) dts ->
           let p' := fold_left Particle.update dts p in
           let total := fold_right Rplus 0 dts in
           Particle.radius p' = Rmax 0 (Particle.radius p - 40 * total) /\
           Particle.lifetime p' = Particle.lifetime p - total /\
           Rltb 0 (Particle.lifetime p') && Rltb 0 (Particle.radius p')
           = Rltb 0 (Particle.radius p') /\
           (0.15 <= total -> Particle.radius p' = 0)) ps.
Proof.
  intros Hu. unfold spawn_particles.
  destruct (burst_facts 12 position
              (settings.PARTICLE_COLORS
               ++ [(Color.r color, Color.g color, Color.b color)]) (rng s))
    as (_ & _ & _ & Hin).
  specialize (Hin Hu).
  forget (burst 12 position
            (settings.PARTICLE_COLORS
             ++ [(Color.r color, Color.g color, Color.b color)]) (rng s)) made.
  exists (fst made). cbn [particles set_rng set_particles].
  split; [reflexivity |].
  eapply Forall_impl; [| apply Hin; discriminate]. cbn beta.
  intros p (_ & _ & Hl & Hr & _). split; [lra |].
  intros dts Hd. cbn zeta.
  destruct (fold_update dts p Hd) as [Er El]; [lra |].
  pose proof (total_nonneg dts Hd) as Ht.
  rewrite Er, El. splits; try reflexivity.
  - unfold Rmax.
    destruct (Rle_dec 0 (Particle.radius p - 40 * fold_right Rplus 0 dts))
      as [H | H].
    + destruct (Req_dec (Particle.radius p - 40 * fold_right Rplus 0 dts) 0)
        as [E | E].
      * rewrite E. rewrite (Rltb_false 0 0) by lra. apply andb_false_r.
      * rewrite (Rltb_true 0 (Particle.lifetime p - _)) by lra.
        reflexivity.
    + rewrite (Rltb_false 0 0) by lra. apply andb_false_r.
  - intros H15. apply Rmax_left. lra.
Qed.

Lemma burst_fades_by_radius_witness :
  unit_draws (rng Scenes.fresh) /\
  exists ps,
    particles (spawn_particles Scenes.centre (Color.make 120 255 120 255)
                               Scenes.fresh) = ps /\
    Forall (fun p =>
              Particle.radius
                (fold_left Particle.update [0.05; 0.05; 0.05] p) = 0) ps.
Proof.
  assert (Hu : unit_draws (rng Scenes.fresh)).
  { intros n. cbn [Scenes.fresh Scenes.still rng init Random.draws]. lra. }
  destruct (burst_fades_by_radius Scenes.centre (Color.make 120 255 120 255)
              Scenes.fresh Hu) as (ps & Hp & Hall).
  split; [exact Hu |]. exists ps. split; [rewrite Hp; reflexivity |].
  eapply Forall_impl; [| exact Hall]. cbn beta. intros p (_ & H).
  destruct (H [0.05; 0.05; 0.05]) as (_ & _ & _ & Hgone).
  - repeat constructor; lra.
  - apply Hgone. cbn [fold_right]. lra.
Defined.

(** *** Waves *)

Lemma bisect_le (cum : list R) (v : R) (hi : nat) :
  (Random.bisect cum v hi <= hi)%nat.
Proof.
  revert cum. induction hi as [| hi IH]; intros cum;
    destruct cum as [| c cum]; cbn [Random.bisect]; try lia.
  destruct (Rleb c v); [| lia]. specialize (IH cum). lia.
Qed.

Lemma choices_In {A : Type} (l : list A) (weights : list R) (d : A)
  (g : Random.t) :
  l <> [] -> In (fst (Random.choices l weights d g)) l.
Proof.
  intros Hl. unfold Random.choices, Random.random. cbn [fst].
  apply nth_In.
  pose proof (bisect_le (Random.cumulative 0 weights)
                (Random.draws g (Random.cursor g)
                 * last (Random.cumulative 0 weights) 0)
                (List.length l - 1)) as H.
  destruct l; [contradiction | cbn [List.length] in *; lia].
Qed.

Lemma py_int_le (x : R) (z : Z) : x <= IZR z -> (py_int x <= z)%Z.
Proof.
  intros H. unfold py_int. destruct (Rle_dec 0 x) as [Hx | Hx].
  - destruct (base_Int_part x) as [H1 _]. apply le_IZR. lra.
  - destruct (base_Int_part (- x)) as [_ H2].
    assert (H3 : IZR (- z) - 1 < IZR (Int_part (- x))).
    { rewrite opp_IZR. lra. }
    rewrite <- minus_IZR in H3. apply lt_IZR in H3. lia.
Qed.

Lemma py_int_ge (x : R) (z : Z) : IZR z <= x -> (z <= py_int x)%Z.
Proof.
  intros H. unfold py_int. destruct (Rle_dec 0 x) as [Hx | Hx].
  - destruct (base_Int_part x) as [_ H2].
    assert (H3 : IZR z - 1 < IZR (Int_part x)) by lra.
    rewrite <- minus_IZR in H3. apply lt_IZR in H3. lia.
  - destruct (base_Int_part (- x)) as [H1 _].
    assert (H3 : IZR (Int_part (- x)) <= IZR (- z)).
    { rewrite opp_IZR. lra. }
    apply le_IZR in H3. lia.
Qed.

Lemma colliderect_apart (a b : Rect.t) :
  (0 < Rect.w a)%Z -> (0 < Rect.h a)%Z ->
  (0 < Rect.w b)%Z -> (0 < Rect.h b)%Z ->
  (Rect.x a + Rect.w a <= Rect.x b \/ Rect.x b + Rect.w b <= Rect.x a \/
   Rect.y a + Rect.h a <= Rect.y b \/ Rect.y b + Rect.h b <= Rect.y a)%Z ->
  Rect.colliderect a b = false.
Proof.
  intros Hwa Hha Hwb Hhb H. unfold Rect.colliderect.
  destruct ((Rect.w a =? 0) || (Rect.h a =? 0) || (Rect.w b =? 0)
            || (Rect.h b =? 0))%Z; [reflexivity |].
  rewrite !Z.gtb_ltb.
  repeat match goal with
         | |- context [(?u <? ?v)%Z] => destruct (Z.ltb_spec u v)
         end; try reflexivity; lia.
Qed.

Lemma enemy_table :
  Forall (fun info => (0 < settings.e_size info)%Z /\
                      0 < settings.e_health info)
         (map snd settings.ENEMY_TYPES).
Proof.
  repeat constructor; cbn [snd settings.e_size settings.e_health];
    try lia; lra.
Qed.

(** An enemy of the given type, placed beyond one edge of the screen by its
    size. *)
Lemma beyond_the_edge (info : settings.EnemyInfo) (name : string)
  (pos : Vector2.t) :
  settings.lookup settings.ENEMY_TYPES name = Some info ->
  In info (map snd settings.ENEMY_TYPES) ->
  Vector2.y pos = IZR (- settings.e_size info) \/
  Vector2.y pos = IZR (settings.SCREEN_HEIGHT + settings.e_size info) \/
  Vector2.x pos = IZR (- settings.e_size info) \/
  Vector2.x pos = IZR (settings.SCREEN_WIDTH + settings.e_size info) ->
  fresh_enemy
    (Enemy.make pos (Vector2.make 0 0) (settings.e_speed info)
                (settings.e_health info) (settings.e_health info)
                (Color.rgb (settings.e_color info)) (settings.e_size info)
                name).
Proof.
  intros Hlook Hin Hpos.
  pose proof enemy_table as Ht. rewrite Forall_forall in Ht.
  destruct (Ht info Hin) as [Hsize Hhealth].
  assert (Hs : 0 < IZR (settings.e_size info)) by (apply IZR_lt; exact Hsize).
  unfold fresh_enemy.
  cbn [Enemy.name Enemy.speed Enemy.health Enemy.max_health Enemy.size
       Enemy.color Enemy.velocity].
  splits; try reflexivity; try exact Hhealth.
  - exists info. splits; try reflexivity. exact Hlook.
  - apply colliderect_apart;
      cbn [Rect.x Rect.y Rect.w Rect.h Enemy.rect Enemy.size Enemy.position];
      try exact Hsize; try (unfold settings.SCREEN_WIDTH; lia);
      try (unfold settings.SCREEN_HEIGHT; lia).
    unfold settings.SCREEN_WIDTH, settings.SCREEN_HEIGHT in *.
    destruct Hpos as [H | [H | [H | H]]]; rewrite H.
    + right; right; left.
      assert (Hle : (py_int (IZR (- settings.e_size info)
                             - IZR (settings.e_size info) / 2)
                     <= - settings.e_size info)%Z).
      { apply py_int_le. lra. }
      lia.
    + right; right; right.
      assert (Hge : (540 + 0 <= py_int (IZR (540 + settings.e_size info)
                                    - IZR (settings.e_size info) / 2))%Z).
      { apply py_int_ge. rewrite !plus_IZR. lra. }
      lia.
    + left.
      assert (Hle : (py_int (IZR (- settings.e_size info)
                             - IZR (settings.e_size info) / 2)
                     <= - settings.e_size info)%Z).
      { apply py_int_le. lra. }
      lia.
    + right; left.
      assert (Hge : (960 + 0 <= py_int (IZR (960 + settings.e_size info)
                                    - IZR (settings.e_size info) / 2))%Z).
      { apply py_int_ge. rewrite !plus_IZR. lra. }
      lia.
Qed.

Lemma spawn_one_fresh (s : t) :
  exists e g,
    spawn_one s = set_rng g (set_enemies (enemies s ++ [e]) s) /\
    fresh_enemy e.
Proof.
  unfold spawn_one.
  assert (Hname :
    In (fst (Random.choices (map fst settings.ENEMY_TYPES) [0.5; 0.3; 0.2]
                            EmptyString (rng s)))
       (map fst settings.ENEMY_TYPES)).
  { apply choices_In. discriminate. }
  destruct (Random.choices (map fst settings.ENEMY_TYPES) [0.5; 0.3; 0.2]
                           EmptyString (rng s)) as [type_name g1].
  cbn [fst] in Hname.
  destruct (lookup_present settings.ENEMY_TYPES type_name Hname)
    as (info & Hlook & Hin).
  rewrite Hlook.
  destruct (Random.choice _ _ _) as [spawn_edge g2].
  destruct (String.eqb spawn_edge "top");
    [| destruct (String.eqb spawn_edge "bottom");
       [| destruct (String.eqb spawn_edge "left")]];
    match goal with
    | |- context [Random.randint ?a ?b ?g] =>
        destruct (Random.randint a b g) as [k g3]
    end;
    eexists; eexists; (split; [reflexivity |]);
    apply beyond_the_edge; try assumption; cbn [Vector2.x Vector2.y]; tauto.
Qed.

Lemma spawn_many_fresh (n : nat) (s : t) :
  exists es g,
    List.length es = n /\ Forall fresh_enemy es /\
    spawn_many n s = set_rng g (set_enemies (enemies s ++ es) s).
Proof.
  revert s. induction n as [| n IH]; intros s.
  - exists [], (rng s). splits; [reflexivity | constructor |].
    cbn [spawn_many]. rewrite app_nil_r. destruct s; reflexivity.
  - cbn [spawn_many]. destruct (spawn_one_fresh s) as (e & g & -> & He).
    destruct (IH (set_rng g (set_enemies (enemies s ++ [e]) s)))
      as (es & g' & Hl & Hf & ->).
    exists (e :: es), g'. splits.
    + cbn [List.length]. congruence.
    + constructor; assumption.
    + cbn [enemies set_rng set_enemies]. rewrite <- app_assoc. reflexivity.
Qed.

(** X14: [spawn_enemy_wave] appends [1 + floor (elapsed / 12)] enemies, the
    number growing by one every twelve seconds, takes draws from the
    generator and changes nothing else.  Whatever the draws, every enemy it
    makes is of a type of [settings.ENEMY_TYPES] with that type's speed, size
    and colour, is at full and positive health, is at rest, and has its box
    clear of the screen. *)
Theorem wave_arrives_offscreen (s : t) :
  exists es g,
    spawn_enemy_wave s = set_rng g (set_enemies (enemies s ++ es) s) /\
    List.length es = Z.to_nat (1 + Int_part (elapsed s / 12)) /\
    Forall fresh_enemy es /\
    (forall k : Z, (0 <= k)%Z ->
       IZR k * 12 <= elapsed s < IZR (k + 1) * 12 ->
       List.length es = Z.to_nat (k + 1)).
Proof.
  unfold spawn_enemy_wave.
  destruct (spawn_many_fresh (Z.to_nat (1 + Int_part (elapsed s / 12))) s)
    as (es & g & Hl & Hf & Hs).
  exists es, g. splits; try assumption.
  intros k Hk [H1 H2]. rewrite Hl. f_equal.
  rewrite <- (Int_part_spec (elapsed s / 12) k); [lia |].
  rewrite plus_IZR in H2. split; lra.
Qed.

Lemma wave_arrives_offscreen_witness :
  ((0 <= 2)%Z /\ 2 * 12 <= elapsed Scenes.ambush < 3 * 12) /\
  exists es g,
    spawn_enemy_wave Scenes.ambush
    = set_rng g (set_enemies (enemies Scenes.ambush ++ es) Scenes.ambush) /\
    List.length es = 3%nat /\ Forall fresh_enemy es.
Proof.
  assert (H : 2 * 12 <= elapsed Scenes.ambush < 3 * 12).
  { unfold Scenes.ambush. cbn [elapsed]. split; lra. }
  destruct (wave_arrives_offscreen Scenes.ambush)
    as (es & g & Hs & _ & Hf & Hk).
  split; [split; [lia | exact H] |].
  exists es, g. splits; try assumption.
  exact (Hk 2%Z ltac:(lia) H).
Defined.

End Spawning.

(** ** What a frame keeps *)

Section Arena.

Import GameWorld.

Ltac splits := repeat match goal with |- _ /\ _ => split end.

Ltac forget t x := generalize dependent t; intros x; intros.

(** The first steps of [advance], with what they do to the player. *)
Lemma advance_open (dt : R) (keys : Input) (s : t) :
  exists s2,
    advance dt keys s =
      (let s3 := fire keys s2 in
       let s4 :=
         set_bullets
           (map (fun b => Bullet.update b dt (bounds s3)) (bullets s3)) s3 in
       let s5 := set_bullets (filter Bullet.alive (bullets s4)) s4 in
       set_enemies
         (map (fun e => Enemy.update e dt (Player.position (player s5)))
              (enemies s5)) s5) /\
    elapsed s2 = elapsed s + dt /\ enemies s2 = enemies s /\
    bullets s2 = bullets s /\ audio s2 = audio s /\ bounds s2 = bounds s /\
    particles s2 = particles s /\ rng s2 = rng s /\
    weapon_name s2 = weapon_name s /\ score s2 = score s /\
    Player.health (player s2) = Player.health (player s) /\
    Player.radius (player s2) = Player.radius (player s) /\
    Player.position (player s2)
    = Player.position
        (Player.keep_in_bounds (Player.handle_input (player s) keys dt)
                               (bounds s)) /\
    Player.weapon (player s2)
    = option_map (fun w => Weapon.update w dt) (Player.weapon (player s)).
Proof.
  unfold advance.
  match goal with
  | |- context [fire keys ?x] => exists x
  end.
  split; [reflexivity |].
  cbn [player set_player set_elapsed].
  destruct (Player.weapon _) eqn:E; cbn in E |- *; rewrite ?E;
    splits; reflexivity.
Qed.

(** The firing block: what it adds, and what it leaves alone. *)
Lemma fire_open (keys : Input) (s : t) :
  let s' := fire keys s in
  exists new,
    bullets s' = bullets s ++ new /\
    Forall (fun b => Bullet.position b = Player.position (player s)
                     /\ Bullet.alive b = true) new /\
    audio s' = audio s ++ (match new with [] => [] | _ => ["shoot"%string] end)
    /\
    enemies s' = enemies s /\ bounds s' = bounds s /\
    particles s' = particles s /\ rng s' = rng s /\
    weapon_name s' = weapon_name s /\ score s' = score s /\
    elapsed s' = elapsed s /\
    Player.health (player s') = Player.health (player s) /\
    Player.radius (player s') = Player.radius (player s) /\
    Player.position (player s') = Player.position (player s).
Proof.
  cbn zeta. unfold fire.
  destruct (Player.weapon (player s)) as [w |].
  2: { exists []. rewrite !app_nil_r. splits; try reflexivity. constructor. }
  destruct (mouse_pressed keys && (0 <? Player.health (player s))%Z).
  2: { exists []. rewrite !app_nil_r. splits; try reflexivity. constructor. }
  assert (Hnew : Forall (fun b => Bullet.position b
                                  = Player.position (player s)
                                  /\ Bullet.alive b = true)
                        (fst (Weapon.try_fire w (Player.position (player s))
                                (Vector2.make
                                   (IZR (fst (mouse_pos keys)))
                                   (IZR (snd (mouse_pos keys))))))).
  { unfold Weapon.try_fire. destruct (Rltb 0 (Weapon.timer w));
      cbn [fst]; [constructor |].
    apply Forall_map, Forall_forall. intros i _. split; reflexivity. }
  destruct (Weapon.try_fire w _ _) as [[| b bs] w']; cbn [fst] in Hnew.
  - exists []. rewrite !app_nil_r. cbn. splits; try reflexivity. constructor.
  - exists (b :: bs). cbn. splits; try reflexivity. exact Hnew.
Qed.

(** [advance], end to end. *)
Lemma advance_shape (dt : R) (keys : Input) (s : t) :
  let s' := advance dt keys s in
  exists new,
    bullets s'
    = filter Bullet.alive
             (map (fun b => Bullet.update b dt (bounds s))
                  (bullets s ++ new)) /\
    enemies s'
    = map (fun e => Enemy.update e dt (Player.position (player s')))
          (enemies s) /\
    audio s' = audio s ++ (match new with [] => [] | _ => ["shoot"%string] end)
    /\
    bounds s' = bounds s /\ particles s' = particles s /\ rng s' = rng s /\
    weapon_name s' = weapon_name s /\ score s' = score s /\
    elapsed s' = elapsed s + dt /\
    Player.health (player s') = Player.health (player s) /\
    Player.radius (player s') = Player.radius (player s) /\
    Player.position (player s')
    = Player.position
        (Player.keep_in_bounds (Player.handle_input (player s) keys dt)
                               (bounds s)).
Proof.
  cbn zeta.
  destruct (advance_open dt keys s)
    as (s2 & -> & He & Hn & Hb & Ha & Hbd & Hp & Hg & Hw & Hs & Hh & Hr
        & Hpos & _).
  pose proof (fire_open keys s2) as Hf. cbn zeta in Hf.
  destruct Hf as (new & Fb & _ & Fa & Fn & Fbd & Fp & Fg & Fw & Fs & Fe & Fh
                  & Fr & Fpos).
  forget (fire keys s2) s3. exists new. cbn zeta.
  cbn [bullets enemies audio bounds particles rng weapon_name score elapsed
       player set_enemies set_bullets].
  splits; try congruence.
  rewrite Fb, Fbd, Hbd, Hb. reflexivity.
Qed.

(** The collision pass, returned or not, against the state it started
    from. *)
Lemma handle_collisions_keeps (s : t) :
  let s' := final (handle_collisions s) in
  bounds s' = bounds s /\ weapon_name s' = weapon_name s /\
  elapsed s' = elapsed s /\
  Player.position (player s') = Player.position (player s) /\
  Player.radius (player s') = Player.radius (player s) /\
  Player.weapon (player s') = Player.weapon (player s) /\
  map Bullet.position (bullets s') = map Bullet.position (bullets s) /\
  extends (fun n => n = "hit"%string) (audio s) (audio s') /\
  extends (fun _ => True) (particles s) (particles s').
Proof.
  cbn zeta.
  destruct (handle_collisions_shape s) as (p & Hq & _ & [[-> _] | ->]);
    cbn [final]; destruct Hq; destruct p as [s1 l]; cbn [world] in *;
    unfold clamp_health, sync; cbn [world live];
    try destruct (Player.health (player (set_enemies (map snd l) s1)) <=? 0)%Z;
    cbn [bounds weapon_name elapsed player bullets audio particles
         set_enemies set_player Player.position Player.radius Player.weapon
         Player.set_health];
    splits; assumption.
Qed.

(** [settle], end to end. *)
Lemma settle_shape (dt : R) (s : t) :
  let s' := settle dt s in
  particles s'
  = filter (fun p => Rltb 0 (Particle.lifetime p)
                     && Rltb 0 (Particle.radius p))
           (map (fun p => Particle.update p dt) (particles s)) /\
  bounds s' = bounds s /\ weapon_name s' = weapon_name s /\
  player s' = player s /\ bullets s' = bullets s /\ audio s' = audio s /\
  score s' = score s /\ elapsed s' = elapsed s /\
  exists es, enemies s' = enemies s ++ es /\ Forall fresh_enemy es.
Proof.
  cbn zeta. unfold settle.
  match goal with
  | |- context [set_spawn_timer (spawn_timer ?x - dt) ?x] =>
      assert (Hp : particles x
                   = filter (fun p => Rltb 0 (Particle.lifetime p)
                                      && Rltb 0 (Particle.radius p))
                            (map (fun p => Particle.update p dt)
                                 (particles s))) by reflexivity;
      assert (Hb : bounds x = bounds s) by reflexivity;
      assert (Hw : weapon_name x = weapon_name s) by reflexivity;
      assert (Hpl : player x = player s) by reflexivity;
      assert (Hbu : bullets x = bullets s) by reflexivity;
      assert (Ha : audio x = audio s) by reflexivity;
      assert (Hs : score x = score s) by reflexivity;
      assert (He : elapsed x = elapsed s) by reflexivity;
      assert (Hn : enemies x = enemies s) by reflexivity;
      forget x s1
  end.
  cbn [player set_particles].
  destruct (negb (0 <? Player.health (player s1))%Z).
  { splits; try assumption. exists []. rewrite app_nil_r.
    split; [exact Hn | constructor]. }
  cbn [spawn_timer set_spawn_timer].
  destruct (Rleb (spawn_timer s1 - dt) 0).
  - unfold spawn_enemy_wave.
    destruct (spawn_many_fresh
                (Z.to_nat
                   (1 + Int_part
                          (elapsed (set_spawn_timer (spawn_timer s1 - dt) s1)
                           / 12)))
                (set_spawn_timer (spawn_timer s1 - dt) s1))
      as (es & g & _ & Hf & ->).
    cbn [particles bounds weapon_name player bullets audio score elapsed
         enemies set_spawn_timer set_rng set_enemies].
    splits; try assumption. exists es. rewrite Hn. split; [reflexivity |].
    exact Hf.
  - cbn [particles bounds weapon_name player bullets audio score elapsed
         enemies set_spawn_timer].
    splits; try assumption. exists []. rewrite app_nil_r.
    split; [exact Hn | constructor].
Qed.

(** The state a frame leaves, returned or not. *)
Lemma update_cases (s : t) (dt : R) (keys : Input) :
  let a := final (handle_collisions (advance dt keys s)) in
  final (update s dt keys) = a \/ final (update s dt keys) = settle dt a.
Proof.
  cbn zeta. rewrite update_final.
  destruct (handle_collisions (advance dt keys s)); cbn [final]; auto.
Qed.

Lemma fresh_alive (es : list Enemy.t) :
  Forall fresh_enemy es -> Forall (fun e => 0 < Enemy.health e) es.
Proof.
  intros H. eapply Forall_impl; [| exact H]. cbn beta.
  intros e (_ & _ & He & _). exact He.
Qed.

Lemma advance_alive (s : t) (dt : R) (keys : Input) :
  Forall (fun e => 0 < Enemy.health e) (enemies s) ->
  Forall (fun e => 0 < Enemy.health e) (enemies (advance dt keys s)).
Proof.
  intros H. pose proof (advance_shape dt keys s) as Ha. cbn zeta in Ha.
  destruct Ha as (new & _ & -> & _).
  apply Forall_map. exact H.
Qed.

Lemma update_alive (s : t) (dt : R) (keys : Input) :
  Forall (fun e => 0 < Enemy.health e) (enemies s) ->
  Forall (fun e => 0 < Enemy.health e) (enemies (final (update s dt keys))).
Proof.
  intros H. apply (advance_alive s dt keys) in H.
  apply handle_collisions_alive in H. destruct H as (H & _).
  destruct (update_cases s dt keys) as [-> | ->]; [exact H |].
  pose proof (settle_shape dt (final (handle_collisions (advance dt keys s))))
    as Hs.
  cbn zeta in Hs.
  destruct Hs as (_ & _ & _ & _ & _ & _ & _ & _ & es & -> & Hf).
  apply Forall_app. split; [exact H | apply fresh_alive; exact Hf].
Qed.

Lemma final_bind {A : Type} (m : outcome A) (f : A -> outcome A) :
  final (bind m f) = (if returned m then final (f (final m)) else final m).
Proof. destruct m; reflexivity. Qed.

Lemma run_alive (frames : list (R * Input)) :
  forall s : t,
  Forall (fun e => 0 < Enemy.health e) (enemies s) ->
  Forall (fun e => 0 < Enemy.health e) (enemies (final (run s frames))).
Proof.
  induction frames as [| [dt keys] rest IH]; intros s H; [exact H |].
  rewrite run_cons, final_bind.
  pose proof (update_alive s dt keys H) as Hu.
  destruct (returned (update s dt keys)); [apply IH |]; exact Hu.
Qed.

Lemma new_enemies (weapon_name : option string) (g : Random.t)
  (log : list string) (s0 : t) :
  new weapon_name g log = Some s0 -> enemies s0 = [].
Proof.
  unfold new, set_weapon_by_name. intros H.
  destruct weapon_name as [n |]; [| injection H as <-; reflexivity].
  destruct (String.eqb n EmptyString); [injection H as <-; reflexivity |].
  destruct (create_weapon n); [| discriminate H].
  injection H as <-. reflexivity.
Qed.

(** X15: no dead enemy is ever left in [self.enemies].  If every enemy of
    the world has positive health, so has every enemy that
    [handle_collisions] leaves, and every enemy that [update] leaves, whether
    they return or raise; hence in every state that the main loop reaches
    from a newly built world all enemies have positive health. *)
Theorem no_dead_enemy_stays (s : t) (dt : R) (keys : Input)
  (weapon_name : option string) (g : Random.t) (log : list string) (s0 : t)
  (frames : list (R * Input)) :
  (Forall (fun e => 0 < Enemy.health e) (enemies s) ->
   Forall (fun e => 0 < Enemy.health e)
          (enemies (final (handle_collisions s))) /\
   Forall (fun e => 0 < Enemy.health e)
          (enemies (final (update s dt keys))) /\
   Forall (fun e => 0 < Enemy.health e) (enemies (final (run s frames)))) /\
  (new weapon_name g log = Some s0 ->
   Forall (fun e => 0 < Enemy.health e) (enemies (final (run s0 frames)))).
Proof.
  split.
  - intros H. splits.
    + apply handle_collisions_alive. exact H.
    + apply update_alive. exact H.
    + apply run_alive. exact H.
  - intros H. apply run_alive. rewrite (new_enemies _ _ _ _ H). constructor.
Qed.

Lemma no_dead_enemy_stays_witness :
  (Forall (fun e => 0 < Enemy.health e) (enemies Scenes.ambush) /\
   new None Scenes.still [] = Some Scenes.fresh) /\
  Forall (fun e => 0 < Enemy.health e)
         (enemies (final (handle_collisions Scenes.ambush))) /\
  Forall (fun e => 0 < Enemy.health e)
         (enemies (final (run Scenes.fresh Scenes.one_frame))).
Proof.
  assert (H : Forall (fun e => 0 < Enemy.health e) (enemies Scenes.ambush)).
  { repeat constructor. cbn [Enemy.health Scenes.sproutling]. lra. }
  destruct (no_dead_enemy_stays Scenes.ambush Scenes.tick idle None
              Scenes.still [] Scenes.fresh Scenes.one_frame) as (Ha & Hn).
  split; [exact (conj H eq_refl) |].
  split; [exact (proj1 (Ha H)) | exact (Hn eq_refl)].
Defined.


Lemma clamp_twice (lo hi v : R) :
  Rmax lo (Rmin hi (Rmax lo (Rmin hi v))) = Rmax lo (Rmin hi v).
Proof. unfold Rmax, Rmin. repeat destruct (Rle_dec _ _); lra. Qed.

(** What a frame, returned or not, does to the player and the bounds. *)
Lemma update_player (s : t) (dt : R) (keys : Input) :
  let s' := final (update s dt keys) in
  Player.position (player s')
  = Player.position
      (Player.keep_in_bounds (Player.handle_input (player s) keys dt)
                             (bounds s)) /\
  Player.radius (player s') = Player.radius (player s) /\
  bounds s' = bounds s /\ weapon_name s' = weapon_name s.
Proof.
  cbn zeta.
  pose proof (advance_shape dt keys s) as Ha. cbn zeta in Ha.
  destruct Ha as (new & _ & _ & _ & Ab & _ & _ & Aw & _ & _ & _ & Ar & Ap).
  pose proof (handle_collisions_keeps (advance dt keys s)) as Hk.
  cbn zeta in Hk. destruct Hk as (Kb & Kw & _ & Kp & Kr & _).
  destruct (update_cases s dt keys) as [-> | ->].
  - splits; congruence.
  - pose proof (settle_shape dt
                  (final (handle_collisions (advance dt keys s)))) as Hs.
    cbn zeta in Hs. destruct Hs as (_ & -> & -> & -> & _).
    splits; congruence.
Qed.

(** X17: in a frame, returned or not, the player is moved once, by
    [handle_input] and then [keep_in_bounds]; nothing that follows in
    [update] moves it again or changes its radius or the bounds.  So after
    every frame [keep_in_bounds] would leave the player where it is, and in
    bounds that are at least two radii wide and high the player's centre is
    at least [radius] away from every edge. *)
Theorem player_stays_in_arena (s : t) (dt : R) (keys : Input) :
  let s' := final (update s dt keys) in
  let lo_x := IZR (Rect.left (bounds s) + Player.radius (player s)) in
  let hi_x := IZR (Rect.right (bounds s) - Player.radius (player s)) in
  let lo_y := IZR (Rect.top (bounds s) + Player.radius (player s)) in
  let hi_y := IZR (Rect.bottom (bounds s) - Player.radius (player s)) in
  Player.position (player s')
  = Player.position
      (Player.keep_in_bounds (Player.handle_input (player s) keys dt)
                             (bounds s)) /\
  Player.radius (player s') = Player.radius (player s) /\
  bounds s' = bounds s /\
  Player.keep_in_bounds (player s') (bounds s') = player s' /\
  (lo_x <= hi_x -> lo_y <= hi_y ->
   lo_x <= Vector2.x (Player.position (player s')) <= hi_x /\
   lo_y <= Vector2.y (Player.position (player s')) <= hi_y).
Proof.
  cbn zeta. pose proof (update_player s dt keys) as H. cbn zeta in H.
  destruct H as (Hp & Hr & Hb & _).
  forget (final (update s dt keys)) s'.
  splits; try assumption.
  - rewrite Hb. unfold Player.keep_in_bounds at 1. rewrite Hp, Hr.
    unfold Player.keep_in_bounds, Player.handle_input.
    cbn [Player.position Player.radius Player.set_position Vector2.x
         Vector2.y].
    rewrite !clamp_twice.
    unfold Player.keep_in_bounds, Player.handle_input in Hp.
    cbn [Player.position Player.radius Player.set_position Vector2.x
         Vector2.y] in Hp.
    rewrite <- Hp. destruct (player s'). reflexivity.
  - intros Hx Hy. rewrite Hp. unfold Player.keep_in_bounds.
    cbn [Player.position Player.set_position Vector2.x Vector2.y].
    unfold Player.handle_input. cbn [Player.radius Player.set_position].
    splits; first [apply clamp_low | apply clamp_high; assumption].
Qed.

Lemma player_stays_in_arena_witness :
  (IZR (Rect.left (bounds Scenes.fresh) + Player.radius (player Scenes.fresh))
   <= IZR (Rect.right (bounds Scenes.fresh)
           - Player.radius (player Scenes.fresh)) /\
   IZR (Rect.top (bounds Scenes.fresh) + Player.radius (player Scenes.fresh))
   <= IZR (Rect.bottom (bounds Scenes.fresh)
           - Player.radius (player Scenes.fresh))) /\
  24 <= Vector2.x (Player.position
                     (player (final (update Scenes.fresh Scenes.tick
                                            Inputs.north_east)))) <= 936 /\
  24 <= Vector2.y (Player.position
                     (player (final (update Scenes.fresh Scenes.tick
                                            Inputs.north_east)))) <= 516.
Proof.
  assert (Hx : IZR (Rect.left (bounds Scenes.fresh)
                    + Player.radius (player Scenes.fresh))
               <= IZR (Rect.right (bounds Scenes.fresh)
                       - Player.radius (player Scenes.fresh))).
  { apply IZR_le. vm_compute. discriminate. }
  assert (Hy : IZR (Rect.top (bounds Scenes.fresh)
                    + Player.radius (player Scenes.fresh))
               <= IZR (Rect.bottom (bounds Scenes.fresh)
                       - Player.radius (player Scenes.fresh))).
  { apply IZR_le. vm_compute. discriminate. }
  destruct (player_stays_in_arena Scenes.fresh Scenes.tick Inputs.north_east)
    as (_ & _ & _ & _ & Hin).
  split; [exact (conj Hx Hy) |]. exact (Hin Hx Hy).
Defined.




Lemma returned_bind {A : Type} (m : outcome A) (f : A -> outcome A) :
  returned (bind m f) = returned m && returned (f (final m)).
Proof. destruct m; reflexivity. Qed.

(** What never changes while the main loop runs. *)
Lemma run_setup (frames : list (R * Input)) :
  forall s : t,
  bounds (final (run s frames)) = bounds s /\
  weapon_name (final (run s frames)) = weapon_name s /\
  spawn_interval (final (run s frames)) = spawn_interval s /\
  Player.radius (player (final (run s frames))) = Player.radius (player s).
Proof.
  induction frames as [| [dt keys] rest IH]; intros s;
    [splits; reflexivity |].
  rewrite run_cons, final_bind.
  pose proof (update_player s dt keys) as Hp. cbn zeta in Hp.
  destruct Hp as (_ & Hr & Hb & Hw).
  destruct (update_clock s dt keys) as (_ & Hi).
  destruct (returned (update s dt keys)).
  - destruct (IH (final (update s dt keys))) as (Ib & Iw & Ii & Ir).
    splits; congruence.
  - splits; assumption.
Qed.

(** A frame without bullets and without the fire button. *)
Lemma unarmed_frame (s : t) (dt : R) (keys : Input) :
  bullets s = [] -> mouse_pressed keys = false ->
  returned (update s dt keys) = true /\
  score (final (update s dt keys)) = score s /\
  bullets (final (update s dt keys)) = [].
Proof.
  intros Hb Hk.
  pose proof (advance_idle dt keys s Hk) as Ha. rewrite Hb in Ha.
  cbn [map filter] in Ha.
  destruct (pass_without_bullets (advance dt keys s) Ha) as (Hr & _).
  split; [rewrite update_returned; exact Hr |].
  split.
  { destruct (handle_collisions_returns (advance dt keys s)) as (_ & Hs).
    { rewrite Ha. apply Forall_forall. intros e _. reflexivity. }
    pose proof (advance_facts dt keys s) as Hf. cbn zeta in Hf.
    destruct Hf as (_ & _ & _ & _ & Hs0 & _).
    destruct (update_cases s dt keys) as [-> | ->]; [congruence |].
    pose proof (settle_facts dt
                  (final (handle_collisions (advance dt keys s)))) as Hse.
    cbn zeta in Hse. destruct Hse as (_ & _ & _ & _ & _ & ->). congruence. }
  pose proof (handle_collisions_keeps (advance dt keys s)) as Hkeep.
  cbn zeta in Hkeep. destruct Hkeep as (_ & _ & _ & _ & _ & _ & Hpos & _).
  rewrite Ha in Hpos. cbn [map] in Hpos.
  assert (Hnil : bullets (final (handle_collisions (advance dt keys s))) = []).
  { destruct (bullets (final (handle_collisions (advance dt keys s))));
      [reflexivity | discriminate Hpos]. }
  destruct (update_cases s dt keys) as [-> | ->]; [exact Hnil |].
  pose proof (settle_shape dt (final (handle_collisions (advance dt keys s))))
    as Hs.
  cbn zeta in Hs. destruct Hs as (_ & _ & _ & _ & -> & _). exact Hnil.
Qed.

Lemma unarmed_run (frames : list (R * Input)) :
  forall s : t,
  bullets s = [] ->
  Forall (fun f => mouse_pressed (snd f) = false) frames ->
  returned (run s frames) = true /\
  score (final (run s frames)) = score s /\
  bullets (final (run s frames)) = [].
Proof.
  induction frames as [| [dt keys] rest IH]; intros s Hb Hf;
    [splits; [reflexivity | reflexivity | exact Hb] |].
  inversion Hf as [| f fs Hk Hrest]; subst f fs. cbn [snd] in Hk.
  destruct (unarmed_frame s dt keys Hb Hk) as (Hr & Hs & Hb').
  rewrite run_cons, returned_bind, final_bind, Hr. cbn [andb].
  destruct (IH _ Hb' Hrest) as (IHr & IHs & IHb).
  splits; congruence.
Qed.

(** X20: without bullets there is no [ValueError].  From a world that holds
    no bullet, frames in which the fire button is not held all return,
    however many enemies reach the player; no bullet appears and the score
    stays as it was. *)
Theorem unarmed_run_returns (s : t) (frames : list (R * Input)) :
  bullets s = [] ->
  Forall (fun f => mouse_pressed (snd f) = false) frames ->
  returned (run s frames) = true /\
  score (final (run s frames)) = score s /\
  bullets (final (run s frames)) = [].
Proof. intros Hb Hf. apply unarmed_run; assumption. Qed.

Lemma unarmed_run_returns_witness :
  (bullets Scenes.crowd = [] /\
   Forall (fun f => mouse_pressed (snd f) = false)
          [(Scenes.tick, idle); (Scenes.tick, Inputs.north_east)]) /\
  returned (run Scenes.crowd
                [(Scenes.tick, idle); (Scenes.tick, Inputs.north_east)])
  = true.
Proof.
  assert (Hf : Forall (fun f => mouse_pressed (snd f) = false)
                      [(Scenes.tick, idle); (Scenes.tick, Inputs.north_east)])
    by (repeat constructor).
  split; [exact (conj eq_refl Hf) |].
  exact (proj1 (unarmed_run_returns Scenes.crowd _ eq_refl Hf)).
Defined.

(** X19: while the main loop runs without an exception, the clock of the
    world adds up the frame times, whatever the input and whether the player
    is alive or not; the bounds, the weapon name, the spawn interval and the
    player's radius stay as they were. *)
Theorem clock_adds_up (s : t) (frames : list (R * Input)) :
  returned (run s frames) = true ->
  elapsed (final (run s frames))
  = elapsed s + fold_right Rplus 0 (map fst frames) /\
  bounds (final (run s frames)) = bounds s /\
  weapon_name (final (run s frames)) = weapon_name s /\
  spawn_interval (final (run s frames)) = spawn_interval s /\
  Player.radius (player (final (run s frames))) = Player.radius (player s).
Proof.
  intros H. split; [| apply run_setup].
  revert s H. induction frames as [| [dt keys] rest IH]; intros s H.
  - cbn [run final map fold_right]. lra.
  - rewrite run_cons, returned_bind in H. apply andb_prop in H.
    destruct H as [H1 H2].
    rewrite run_cons, final_bind, H1, (IH _ H2).
    destruct (update_clock s dt keys) as (-> & _).
    cbn [map fst fold_right]. lra.
Qed.

Lemma clock_adds_up_witness :
  returned (run Scenes.fresh [(Scenes.tick, idle); (Scenes.tick, idle)])
  = true /\
  elapsed (final (run Scenes.fresh [(Scenes.tick, idle); (Scenes.tick, idle)]))
  = 0 + (Scenes.tick + (Scenes.tick + 0)).
Proof.
  assert (H : returned
                (run Scenes.fresh [(Scenes.tick, idle); (Scenes.tick, idle)])
              = true).
  { rewrite run_cons, returned_bind.
    destruct (calm_frame Scenes.fresh Scenes.tick idle eq_refl eq_refl eq_refl)
      as (H1 & _).
    rewrite H1. cbn [andb].
    apply unarmed_run; [| repeat constructor].
    apply unarmed_frame; reflexivity. }
  split; [exact H |].
  exact (proj1 (clock_adds_up _ _ H)).
Defined.

(** *** The trigger *)

Lemma range_nil_iff (n : Z) : range n = [] <-> (n <= 0)%Z.
Proof.
  unfold range. split.
  - intros H. destruct (Z.to_nat n) eqn:E; [lia | discriminate H].
  - intros H. replace (Z.to_nat n) with 0%nat by lia. reflexivity.
Qed.

(** The firing block on a player that holds a weapon. *)
Lemma fire_exact (keys : Input) (s : t) (w : Weapon.t) :
  Player.weapon (player s) = Some w ->
  let go :=
    mouse_pressed keys && (0 <? Player.health (player s))%Z
    && negb (Rltb 0 (Weapon.timer w)) in
  audio (fire keys s)
  = audio s ++ (if go && (0 <? Weapon.projectiles w)%Z
                then ["shoot"%string] else []) /\
  Player.weapon (player (fire keys s))
  = Some (if go then Weapon.set_timer (Weapon.cooldown w) w else w).
Proof.
  intros Hw. cbn zeta. unfold fire. rewrite Hw.
  destruct (mouse_pressed keys && (0 <? Player.health (player s))%Z);
    cbn [andb]; [| rewrite app_nil_r; split; [reflexivity | exact Hw]].
  unfold Weapon.try_fire. destruct (Rltb 0 (Weapon.timer w)); cbn [negb andb].
  - cbn. rewrite app_nil_r. split; reflexivity.
  - destruct (range (Weapon.projectiles w)) as [| i l] eqn:E.
    + apply range_nil_iff in E. apply Z.ltb_ge in E. rewrite E.
      cbn. rewrite app_nil_r. split; reflexivity.
    + assert (Hpos : (0 <? Weapon.projectiles w)%Z = true).
      { apply Z.ltb_lt. destruct (Z.ltb_spec 0 (Weapon.projectiles w));
          [assumption |].
        assert (Hn : range (Weapon.projectiles w) = [])
          by (apply range_nil_iff; assumption).
        rewrite Hn in E. discriminate E. }
      rewrite Hpos. cbn. split; reflexivity.
Qed.

(** X21: the sounds and the cooldown of a frame, returned or not.  The
    frame requests the shot sound once, before any hit sound, exactly when
    the fire button is held, the player holds a weapon and is alive, the
    weapon's timer is at most [dt], and the weapon has at least one
    projectile; every other sound of the frame is a hit.  The weapon's timer
    ends the frame at the cooldown whenever the first four conditions hold,
    also for a weapon without projectiles, and at [max 0 (timer - dt)]
    otherwise. *)
Theorem shoot_sound (s : t) (dt : R) (keys : Input) (w : Weapon.t) :
  Player.weapon (player s) = Some w ->
  let go :=
    mouse_pressed keys && (0 <? Player.health (player s))%Z
    && Rleb (Weapon.timer w) dt in
  (exists hit_sounds,
     Forall (fun n => n = "hit"%string) hit_sounds /\
     audio (final (update s dt keys))
     = audio s
       ++ (if go && (0 <? Weapon.projectiles w)%Z
           then ["shoot"%string] else [])
       ++ hit_sounds) /\
  Player.weapon (player (final (update s dt keys)))
  = Some (Weapon.set_timer
            (if go then Weapon.cooldown w else Rmax 0 (Weapon.timer w - dt))
            w).
Proof.
  intros Hw. cbn zeta.
  assert (Hready : negb (Rltb 0 (Weapon.timer (Weapon.update w dt)))
                   = Rleb (Weapon.timer w) dt).
  { unfold Weapon.update, Weapon.set_timer. cbn [Weapon.timer].
    unfold Rltb, Rleb, Rmax.
    destruct (Rle_dec 0 (Weapon.timer w - dt));
      destruct (Rlt_dec 0 _); destruct (Rle_dec (Weapon.timer w) dt);
      cbn [negb]; try reflexivity; lra. }
  assert (Hadv :
    audio (advance dt keys s)
    = audio s ++ (if mouse_pressed keys && (0 <? Player.health (player s))%Z
                     && Rleb (Weapon.timer w) dt
                     && (0 <? Weapon.projectiles w)%Z
                  then ["shoot"%string] else []) /\
    Player.weapon (player (advance dt keys s))
    = Some (Weapon.set_timer
              (if mouse_pressed keys && (0 <? Player.health (player s))%Z
                  && Rleb (Weapon.timer w) dt
               then Weapon.cooldown w else Rmax 0 (Weapon.timer w - dt)) w)).
  { destruct (advance_open dt keys s)
      as (s2 & -> & _ & _ & _ & Ha & _ & _ & _ & _ & _ & Hh & _ & _ & Hw2).
    rewrite Hw in Hw2. cbn [option_map] in Hw2.
    pose proof (fire_exact keys s2 _ Hw2) as Hf. cbn zeta in Hf.
    rewrite Hready, Hh in Hf. destruct Hf as (Fa & Fw).
    cbn zeta. forget (fire keys s2) s3.
    cbn [audio player set_enemies set_bullets]. rewrite Fa, Fw, Ha.
    split; [reflexivity |]. f_equal.
    destruct (mouse_pressed keys && (0 <? Player.health (player s))%Z
              && Rleb (Weapon.timer w) dt); reflexivity. }
  destruct Hadv as (Ha & Hw').
  pose proof (handle_collisions_keeps (advance dt keys s)) as Hk.
  cbn zeta in Hk. destruct Hk as (_ & _ & _ & _ & _ & Kw & _ & Ka & _).
  destruct Ka as (hit_sounds & Ka & Khits).
  assert (Hfin :
    audio (final (update s dt keys))
    = audio (final (handle_collisions (advance dt keys s))) /\
    Player.weapon (player (final (update s dt keys)))
    = Player.weapon (player (final (handle_collisions (advance dt keys s))))).
  { destruct (update_cases s dt keys) as [-> | ->];
      [split; reflexivity |].
    pose proof (settle_shape dt
                  (final (handle_collisions (advance dt keys s)))) as Hs.
    cbn zeta in Hs. destruct Hs as (_ & _ & _ & -> & _ & -> & _).
    split; reflexivity. }
  destruct Hfin as (-> & ->). split.
  - exists hit_sounds. split; [exact Khits |].
    rewrite Ka, Ha, <- app_assoc. reflexivity.
  - rewrite Kw. exact Hw'.
Qed.

Lemma shoot_sound_witness :
  Player.weapon (player Scenes.hunt) = Some Samples.solar_beam /\
  (exists hit_sounds,
     Forall (fun n => n = "hit"%string) hit_sounds /\
     audio (final (update Scenes.hunt Scenes.tick Inputs.shooting))
     = "shoot"%string :: hit_sounds) /\
  Player.weapon
    (player (final (update Scenes.hunt Scenes.tick Inputs.shooting)))
  = Some (Weapon.set_timer 0.9 Samples.solar_beam).
Proof.
  destruct (shoot_sound Scenes.hunt Scenes.tick Inputs.shooting
              Samples.solar_beam eq_refl) as (Hs & Hw).
  assert (Hgo : mouse_pressed Inputs.shooting
                && (0 <? Player.health (player Scenes.hunt))%Z
                && Rleb (Weapon.timer Samples.solar_beam) Scenes.tick = true).
  { rewrite Rleb_true; [reflexivity |].
    cbn [Weapon.timer Samples.solar_beam]. unfold Scenes.tick. lra. }
  rewrite Hgo in Hs, Hw.
  split; [reflexivity |]. split; [| exact Hw].
  destruct Hs as (hit_sounds & Hh & Ha). exists hit_sounds.
  split; [exact Hh | exact Ha].
Defined.

End Arena.

(** ** Building a world and starting over *)

Section Restart.

Import GameWorld.

Ltac splits := repeat match goal with |- _ /\ _ => split end.

Lemma create_weapon_name (n : string) (w : Weapon.t) :
  create_weapon n = Some w ->
  Weapon.name w = n /\ Weapon.timer w = 0 /\ n <> EmptyString.
Proof.
  unfold create_weapon. intros H.
  destruct (settings.lookup settings.WEAPON_DEFS n) eqn:E; [| discriminate H].
  injection H as <-. splits; try reflexivity.
  intros ->. discriminate E.
Qed.

(** What [GameWorld(weapon_name)] builds. *)
Lemma new_cases (o : option string) (g : Random.t) (log : list string)
  (s0 : t) :
  new o g log = Some s0 ->
  (weapon_name s0 = None /\ s0 = init g log /\
   (o = None \/ o = Some EmptyString)) \/
  (exists n w,
     o = Some n /\ create_weapon n = Some w /\ weapon_name s0 = Some n /\
     s0 = set_weapon w (init g log)).
Proof.
  unfold new, set_weapon_by_name. intros H.
  destruct o as [n |]; [| injection H as <-; left; splits; auto].
  destruct (String.eqb n EmptyString) eqn:E.
  - apply String.eqb_eq in E. subst n. injection H as <-. left. splits; auto.
  - destruct (create_weapon n) as [w |] eqn:Ew; [| discriminate H].
    injection H as <-. right. exists n, w.
    destruct (create_weapon_name n w Ew) as (Hn & _).
    splits; try reflexivity; [exact Ew |]. unfold set_weapon.
    cbn [weapon_name set_player set_weapon_name]. rewrite Hn. reflexivity.
Qed.

Lemma init_in_bounds (g : Random.t) (log : list string) :
  Player.keep_in_bounds (player (init g log)) (bounds (init g log))
  = player (init g log).
Proof.
  unfold init. cbn [player bounds].
  change (IZR (settings.SCREEN_WIDTH / 2)) with 480.
  change (IZR (settings.SCREEN_HEIGHT / 2)) with 270.
  change settings.SCREEN_WIDTH with 960%Z.
  change settings.SCREEN_HEIGHT with 540%Z.
  unfold Player.keep_in_bounds, Player.set_position.
  cbn [Player.position Player.speed Player.radius Player.color
       Player.weapon Player.health Vector2.x Vector2.y Rect.left Rect.top].
  f_equal. f_equal.
  - apply clamp_inside. unfold Rect.left, Rect.right. cbn [Rect.x Rect.w].
    split; apply IZR_le; lia.
  - apply clamp_inside. unfold Rect.top, Rect.bottom. cbn [Rect.y Rect.h].
    split; apply IZR_le; lia.
Qed.

(** X22: [GameWorld(weapon_name)] builds the same world whatever the name,
    apart from the weapon: the player stands at the centre of the screen with
    100 health, there are no enemies, bullets or particles, the score, the
    clock and the spawn timer are 0, and no sound is requested.  Without a
    name, or with the empty name, the player holds no weapon; with a key of
    [settings.WEAPON_DEFS] the player holds that weapon, ready to fire; any
    other name is a [KeyError]. *)
Theorem new_world (o : option string) (g : Random.t) (log : list string) :
  (forall s0, new o g log = Some s0 ->
     Player.position (player s0) = Vector2.make 480 270 /\
     Player.health (player s0) = 100%Z /\
     Player.radius (player s0) = 24%Z /\
     bounds s0 = Rect.make 0 0 960 540 /\
     enemies s0 = [] /\ bullets s0 = [] /\ particles s0 = [] /\
     score s0 = 0%Z /\ elapsed s0 = 0 /\ spawn_timer s0 = 0 /\
     spawn_interval s0 = 1.4 /\ audio s0 = log /\ rng s0 = g /\
     Player.keep_in_bounds (player s0) (bounds s0) = player s0 /\
     match o with
     | None => weapon_name s0 = None /\ Player.weapon (player s0) = None
     | Some n =>
         if String.eqb n EmptyString
         then weapon_name s0 = None /\ Player.weapon (player s0) = None
         else weapon_name s0 = Some n /\
              Player.weapon (player s0) = create_weapon n /\
              exists w, create_weapon n = Some w /\ Weapon.timer w = 0
     end) /\
  (new o g log = None <->
   exists n, o = Some n /\ n <> EmptyString /\
             ~ In n (map fst settings.WEAPON_DEFS)).
Proof.
  split.
  - intros s0 H.
    destruct (new_cases o g log s0 H)
      as [(Hw & -> & Ho) | (n & w & -> & Hc & Hw & ->)].
    + splits; try reflexivity.
      * apply init_in_bounds.
      * destruct Ho as [-> | ->]; cbn; split; reflexivity.
    + destruct (create_weapon_name n w Hc) as (Hn & Ht & Hne).
      splits; try reflexivity.
      * change (Player.set_weapon (Some w)
                  (Player.keep_in_bounds (player (init g log))
                                         (bounds (init g log)))
                = Player.set_weapon (Some w) (player (init g log))).
        rewrite init_in_bounds. reflexivity.
      * apply String.eqb_neq in Hne. rewrite Hne.
        splits; [exact Hw | rewrite Hc; reflexivity |].
        exists w. split; [exact Hc | exact Ht].
  - unfold new, set_weapon_by_name. split.
    + intros H. destruct o as [n |]; [| discriminate H].
      destruct (String.eqb n EmptyString) eqn:E; [discriminate H |].
      exists n. splits; [reflexivity | apply String.eqb_neq; exact E |].
      intros Hin. destruct (lookup_present settings.WEAPON_DEFS n Hin)
        as (v & Hv & _).
      unfold create_weapon in H. rewrite Hv in H. discriminate H.
    + intros (n & -> & Hne & Hout). apply String.eqb_neq in Hne.
      rewrite Hne. unfold create_weapon.
      rewrite (lookup_absent _ _ Hout). reflexivity.
Qed.

Lemma new_world_witness :
  (new (Some "Thorn Fork"%string) Scenes.still []
   = Some (set_weapon Samples.thorn_fork Scenes.fresh) /\
   (exists n, Some "Pea Shooter"%string = Some n /\ n <> EmptyString /\
              ~ In n (map fst settings.WEAPON_DEFS))) /\
  Player.health (player (set_weapon Samples.thorn_fork Scenes.fresh)) = 100%Z /\
  enemies (set_weapon Samples.thorn_fork Scenes.fresh) = [] /\
  new (Some "Pea Shooter"%string) Scenes.still [] = None.
Proof.
  assert (H1 : new (Some "Thorn Fork"%string) Scenes.still []
               = Some (set_weapon Samples.thorn_fork Scenes.fresh))
    by reflexivity.
  assert (H2 : exists n, Some "Pea Shooter"%string = Some n /\
                         n <> EmptyString /\
                         ~ In n (map fst settings.WEAPON_DEFS)).
  { exists "Pea Shooter"%string. splits; [reflexivity | discriminate |].
    cbn. intros [H | [H | [H | []]]]; discriminate H. }
  destruct (new_world (Some "Thorn Fork"%string) Scenes.still [])
    as (Hsome & _).
  destruct (new_world (Some "Pea Shooter"%string) Scenes.still [])
    as (_ & Hnone).
  destruct (Hsome _ H1) as (_ & Hh & _ & _ & He & _).
  split; [exact (conj H1 H2) |].
  split; [exact Hh | split; [exact He | exact (proj2 Hnone H2)]].
Defined.

(** X23: [reset] starts over.  In any state that the main loop reaches from
    a newly built world, [reset] raises no [KeyError] and leaves the world
    that [GameWorld(weapon_name)] builds for the weapon name of the start:
    the player of the start, weapon timer at 0 again, no enemies, bullets or
    particles, score and clock at 0.  Only the generator and the sound log
    carry on; the log gains the sound "power" when a weapon was chosen, and
    nothing otherwise. *)
Theorem reset_starts_over (o : option string) (g : Random.t)
  (log : list string) (s0 : t) (frames : list (R * Input)) :
  new o g log = Some s0 ->
  let s := final (run s0 frames) in
  let sounds :=
    match weapon_name s0 with Some _ => ["power"%string] | None => [] end in
  reset s = new (weapon_name s0) (rng s) (audio s ++ sounds) /\
  exists s',
    reset s = Some s' /\
    player s' = player s0 /\ bounds s' = bounds s0 /\
    weapon_name s' = weapon_name s0 /\
    enemies s' = [] /\ bullets s' = [] /\ particles s' = [] /\
    score s' = 0%Z /\ elapsed s' = 0 /\ spawn_timer s' = 0 /\
    rng s' = rng s /\ audio s' = audio s ++ sounds.
Proof.
  intros H. cbn zeta.
  destruct (run_setup frames s0) as (_ & Hw & _).
  generalize dependent (final (run s0 frames)). intros s Hw.
  unfold reset. rewrite Hw.
  destruct (new_cases o g log s0 H)
    as [(Hn & -> & _) | (n & w & _ & Hc & Hn & ->)]; rewrite Hn.
  - cbn [new]. rewrite app_nil_r. split; [reflexivity |].
    eexists. split; [reflexivity |]. splits; reflexivity.
  - destruct (create_weapon_name n w Hc) as (Hname & _ & Hne).
    apply String.eqb_neq in Hne. subst n.
    unfold new, set_weapon_by_name. rewrite Hne, Hc.
    split; [reflexivity |].
    eexists. split; [reflexivity |]. splits; reflexivity.
Qed.

Lemma reset_starts_over_witness :
  new (Some "Thorn Fork"%string) Scenes.still []
  = Some (set_weapon Samples.thorn_fork Scenes.fresh) /\
  exists s',
    reset (final (run (set_weapon Samples.thorn_fork Scenes.fresh)
                      Scenes.one_frame)) = Some s' /\
    weapon_name s' = Some "Thorn Fork"%string /\
    enemies s' = [] /\ elapsed s' = 0.
Proof.
  assert (H : new (Some "Thorn Fork"%string) Scenes.still []
              = Some (set_weapon Samples.thorn_fork Scenes.fresh))
    by reflexivity.
  destruct (reset_starts_over _ _ _ _ Scenes.one_frame H)
    as (_ & s' & Hr & _ & _ & Hw & He & _ & _ & _ & Ht & _).
  split; [exact H |]. exists s'. splits; assumption.
Defined.

End Restart.

(** * The sounds *)

Section Sounds.

Ltac splits := repeat match goal with |- _ /\ _ => split end.

Lemma quantise_range (x : R) : (-32767 <= audio.quantise x <= 32767)%Z.
Proof.
  unfold audio.quantise.
  assert (H : -1 <= Rmax (-1) (Rmin 1 x) <= 1).
  { split; [apply Rmax_l |]. apply Rmax_lub; [lra | apply Rmin_l]. }
  split.
  - apply py_int_ge. lra.
  - apply py_int_le. lra.
Qed.

Lemma quantise_clip (x : R) :
  (1 <= x -> audio.quantise x = 32767%Z) /\
  (x <= -1 -> audio.quantise x = (-32767)%Z) /\
  (x = 0 -> audio.quantise x = 0%Z).
Proof.
  unfold audio.quantise. splits; intros H.
  - rewrite Rmin_left by exact H. rewrite Rmax_right by lra.
    apply py_int_eq. lra.
  - rewrite Rmin_right by lra. rewrite Rmax_left by exact H.
    apply py_int_eq. lra.
  - subst x. rewrite Rmin_right by lra. rewrite Rmax_right by lra.
    apply py_int_eq. lra.
Qed.

Lemma sample_count_pos (duration : R) : (1 <= audio.sample_count duration)%Z.
Proof. unfold audio.sample_count. lia. Qed.

Lemma quantised_map {A : Type} (f : A -> R) (l : list A) :
  Forall (fun v => (-32767 <= v <= 32767)%Z)
         (map (fun a => audio.quantise (f a)) l).
Proof. apply Forall_map, Forall_forall. intros a _. apply quantise_range. Qed.

Lemma tone_samples (frequency duration volume : R)
  (harmonics : option (list R)) :
  List.length (audio._synth_tone frequency duration volume harmonics)
  = Z.to_nat (audio.sample_count duration) /\
  Forall (fun v => (-32767 <= v <= 32767)%Z)
         (audio._synth_tone frequency duration volume harmonics).
Proof.
  unfold audio._synth_tone. split.
  - rewrite length_map. apply range_length.
  - apply quantised_map.
Qed.

Lemma chirp_samples (start_freq end_freq duration volume : R) :
  List.length (audio._synth_chirp start_freq end_freq duration volume)
  = Z.to_nat (audio.sample_count duration) /\
  Forall (fun v => (-32767 <= v <= 32767)%Z)
         (audio._synth_chirp start_freq end_freq duration volume).
Proof.
  unfold audio._synth_chirp. split.
  - rewrite length_map. apply range_length.
  - apply quantised_map.
Qed.

(** The generator of the noise: a linear congruence modulo [2 ^ 31]. *)
Lemma noise_seed (seed : Z) :
  Z.land (1103515245 * seed + 12345) 2147483647
  = ((1103515245 * seed + 12345) mod 2 ^ 31)%Z.
Proof. apply (Z.land_ones _ 31). lia. Qed.

Lemma noise_loop (decay volume : R) (l : list Z) :
  forall st : Z * list Z,
  let r := fold_left (audio.noise_step decay volume) l st in
  List.length (snd r) = (List.length (snd st) + List.length l)%nat /\
  (Forall (fun v => (-32767 <= v <= 32767)%Z) (snd st) ->
   Forall (fun v => (-32767 <= v <= 32767)%Z) (snd r)) /\
  ((0 <= fst st < 2 ^ 31)%Z -> (0 <= fst r < 2 ^ 31)%Z).
Proof.
  induction l as [| i l IH]; intros st; cbn zeta; cbn [fold_left].
  - splits; auto.
  - specialize (IH (audio.noise_step decay volume st i)). cbn zeta in IH.
    destruct IH as (Hl & Hr & Hs). splits.
    + rewrite Hl. unfold audio.noise_step. cbn [snd List.length].
      rewrite length_app. cbn [List.length]. lia.
    + intros H. apply Hr. unfold audio.noise_step. cbn [snd].
      apply Forall_app. split; [exact H |].
      constructor; [apply quantise_range | constructor].
    + intros _. apply Hs. unfold audio.noise_step. cbn [fst].
      rewrite noise_seed. apply Z.mod_pos_bound. lia.
Qed.

Lemma noise_samples (duration volume : R) :
  List.length (audio._synth_noise duration volume)
  = Z.to_nat (audio.sample_count duration) /\
  Forall (fun v => (-32767 <= v <= 32767)%Z)
         (audio._synth_noise duration volume).
Proof.
  unfold audio._synth_noise.
  pose proof (noise_loop (1 / IZR (audio.sample_count duration)) volume
                (range (audio.sample_count duration)) (11325%Z, [])) as H.
  cbn zeta in H. destruct H as (Hl & Hr & _). split.
  - rewrite Hl. cbn [snd List.length]. apply range_length.
  - apply Hr. constructor.
Qed.

Lemma known_sounds (name : string) :
  In name ["shoot"; "hit"; "power"]%string ->
  exists samples,
    audio.sound_samples name = Some samples /\ samples <> [] /\
    Forall (fun v => (-32767 <= v <= 32767)%Z) samples.
Proof.
  assert (Hne : forall (l : list Z) d,
            List.length l = Z.to_nat (audio.sample_count d) -> l <> []).
  { intros l d Hl ->. pose proof (sample_count_pos d). cbn in Hl. lia. }
  intros [<- | [<- | [<- | []]]]; eexists; (split; [reflexivity |]).
  - destruct (tone_samples 880 0.12 0.45 (Some [1; 0.4])) as (Hl & Hr).
    split; [exact (Hne _ _ Hl) | exact Hr].
  - destruct (noise_samples 0.18 0.6) as (Hl & Hr).
    split; [exact (Hne _ _ Hl) | exact Hr].
  - destruct (chirp_samples 440 880 0.38 0.55) as (Hl & Hr).
    split; [exact (Hne _ _ Hl) | exact Hr].
Qed.

Lemma unknown_sounds (name : string) :
  ~ In name ["shoot"; "hit"; "power"]%string ->
  audio.sound_samples name = None.
Proof.
  intros H. unfold audio.sound_samples.
  destruct (String.eqb name "shoot") eqn:E1;
    [apply String.eqb_eq in E1; exfalso; apply H; cbn; auto |].
  destruct (String.eqb name "hit") eqn:E2;
    [apply String.eqb_eq in E2; exfalso; apply H; cbn; auto |].
  destruct (String.eqb name "power") eqn:E3;
    [apply String.eqb_eq in E3; exfalso; apply H; cbn; auto |].
  reflexivity.
Qed.

(** X24: every sample fits the array of signed 16-bit integers it is
    appended to.  The quantiser clips: its result lies in
    [[-32767, 32767]], it is 32767 from 1 on and -32767 from -1 down.  Each
    of the three synthesisers returns [max(1, int(SAMPLE_RATE * duration))]
    samples, whatever its parameters, all in that range.
    [_build_sound_bytes] knows exactly the names shoot, hit and power, and
    synthesises a non-empty sound for each; any other name is a
    [ValueError]. *)
Theorem samples_fit_16_bits (name : string) (x a b duration volume : R)
  (harmonics : option (list R)) :
  ((-32767 <= audio.quantise x <= 32767)%Z /\
   (1 <= x -> audio.quantise x = 32767%Z) /\
   (x <= -1 -> audio.quantise x = (-32767)%Z)) /\
  (List.length (audio._synth_tone a duration volume harmonics)
   = Z.to_nat (audio.sample_count duration) /\
   List.length (audio._synth_noise duration volume)
   = Z.to_nat (audio.sample_count duration) /\
   List.length (audio._synth_chirp a b duration volume)
   = Z.to_nat (audio.sample_count duration) /\
   (1 <= audio.sample_count duration)%Z) /\
  Forall (fun v => (-32768 <= v <= 32767)%Z)
         (audio._synth_tone a duration volume harmonics
          ++ audio._synth_noise duration volume
          ++ audio._synth_chirp a b duration volume) /\
  (In name ["shoot"; "hit"; "power"]%string ->
   exists samples,
     audio.sound_samples name = Some samples /\ samples <> [] /\
     Forall (fun v => (-32768 <= v <= 32767)%Z) samples) /\
  (~ In name ["shoot"; "hit"; "power"]%string ->
   audio.sound_samples name = None).
Proof.
  assert (Hw : forall l,
            Forall (fun v => (-32767 <= v <= 32767)%Z) l ->
            Forall (fun v => (-32768 <= v <= 32767)%Z) l).
  { intros l H. eapply Forall_impl; [| exact H]. cbn beta. intros v Hv. lia. }
  destruct (tone_samples a duration volume harmonics) as (T1 & T2).
  destruct (noise_samples duration volume) as (N1 & N2).
  destruct (chirp_samples a b duration volume) as (C1 & C2).
  destruct (quantise_clip x) as (Q1 & Q2 & _).
  splits; try assumption.
  - apply quantise_range.
  - apply quantise_range.
  - apply sample_count_pos.
  - apply Hw. repeat (apply Forall_app; split); assumption.
  - intros H. destruct (known_sounds name H) as (l & Hs & Hn & Hr).
    exists l. splits; [exact Hs | exact Hn | apply Hw; exact Hr].
  - apply unknown_sounds.
Qed.

Lemma samples_fit_16_bits_witness :
  (1 <= 2 /\ -3 <= -1 /\ In "hit"%string ["shoot"; "hit"; "power"]%string /\
   ~ In "boom"%string ["shoot"; "hit"; "power"]%string) /\
  audio.quantise 2 = 32767%Z /\ audio.quantise (-3) = (-32767)%Z /\
  (exists samples, audio.sound_samples "hit" = Some samples /\ samples <> [])
  /\ audio.sound_samples "boom" = None.
Proof.
  assert (H1 : 1 <= 2) by lra. assert (H2 : -3 <= -1) by lra.
  assert (H3 : In "hit"%string ["shoot"; "hit"; "power"]%string)
    by (cbn; auto).
  assert (H4 : ~ In "boom"%string ["shoot"; "hit"; "power"]%string).
  { cbn. intros [H | [H | [H | []]]]; discriminate H. }
  destruct (samples_fit_16_bits "hit" 2 440 880 0.1 0.5 None)
    as ((_ & Hhi & _) & _ & _ & Hknown & _).
  destruct (samples_fit_16_bits "boom" (-3) 440 880 0.1 0.5 None)
    as ((_ & _ & Hlo) & _ & _ & _ & Hunknown).
  destruct (Hknown H3) as (l & Hl & Hn & _).
  split; [exact (conj H1 (conj H2 (conj H3 H4))) |].
  splits; [exact (Hhi H1) | exact (Hlo H2) | | exact (Hunknown H4)].
  exists l. split; assumption.
Defined.

(** *** Playing *)

Lemma lookup_app_hit {A : Type} (d d' : list (string * A)) (key : string)
  (v : A) :
  settings.lookup d key = Some v -> settings.lookup (d ++ d') key = Some v.
Proof.
  induction d as [| [k a] d IH]; cbn [settings.lookup app]; [discriminate |].
  destruct (String.eqb k key); auto.
Qed.

Lemma lookup_app_miss {A : Type} (d : list (string * A)) (key : string)
  (v : A) :
  settings.lookup d key = None ->
  settings.lookup (d ++ [(key, v)]) key = Some v.
Proof.
  induction d as [| [k a] d IH]; cbn [settings.lookup app].
  - rewrite String.eqb_refl. reflexivity.
  - destruct (String.eqb k key); [discriminate | exact IH].
Qed.

(** [play] on a sound that is cached or can be built. *)
Lemma play_known (name : string) (st : audio.t) :
  audio.is_audio_available st = true ->
  settings.lookup (audio._SOUND_CACHE st) name <> None \/
  audio.sound_samples name <> None ->
  exists st',
    audio.play name st = Some st' /\
    audio.played st' = audio.played st ++ [name] /\
    audio.built st'
    = (match settings.lookup (audio._SOUND_CACHE st) name with
       | Some _ => audio.built st
       | None => audio.built st ++ [name]
       end) /\
    settings.lookup (audio._SOUND_CACHE st') name <> None /\
    audio._AUDIO_ENABLED st' = audio._AUDIO_ENABLED st /\
    audio.mixer st' = audio.mixer st /\
    (forall other v,
       settings.lookup (audio._SOUND_CACHE st) other = Some v ->
       settings.lookup (audio._SOUND_CACHE st') other = Some v).
Proof.
  intros Ha Hk. unfold audio.play, audio._load_sound. rewrite Ha.
  cbn [negb].
  destruct (settings.lookup (audio._SOUND_CACHE st) name) as [sound |] eqn:E.
  - eexists. split; [reflexivity |].
    cbn [audio.played audio.built audio._SOUND_CACHE audio._AUDIO_ENABLED
         audio.mixer].
    splits; try reflexivity; [rewrite E; discriminate | auto].
  - destruct Hk as [Hk | Hk]; [contradiction |].
    destruct (audio.sound_samples name) as [sound |]; [| contradiction].
    eexists. split; [reflexivity |].
    cbn [audio.played audio.built audio._SOUND_CACHE audio._AUDIO_ENABLED
         audio.mixer].
    splits; try reflexivity.
    + rewrite (lookup_app_miss _ _ sound E). discriminate.
    + intros other v Hv. apply lookup_app_hit. exact Hv.
Qed.

(** X25: [audio.play].  With audio switched off, or without a mixer, [play]
    does nothing at all, for any name.  Otherwise a sound that is not cached
    and that [_build_sound_bytes] does not know makes [play] raise
    [ValueError] (its handler catches [pygame.error] only); a cached or known
    sound is started; it is synthesised only if it was not cached, is cached
    from then on, and playing it again synthesises nothing.
    [set_audio_enabled(False)] empties the cache and silences [play]. *)
Theorem play_caches (name : string) (st : audio.t) :
  (audio.is_audio_available st = false -> audio.play name st = Some st) /\
  (audio.is_audio_available st = true ->
   settings.lookup (audio._SOUND_CACHE st) name = None ->
   audio.sound_samples name = None -> audio.play name st = None) /\
  (audio.is_audio_available st = true ->
   settings.lookup (audio._SOUND_CACHE st) name <> None \/
   audio.sound_samples name <> None ->
   exists st' st'',
     audio.play name st = Some st' /\
     audio.played st' = audio.played st ++ [name] /\
     audio.built st'
     = (match settings.lookup (audio._SOUND_CACHE st) name with
        | Some _ => audio.built st
        | None => audio.built st ++ [name]
        end) /\
     audio.play name st' = Some st'' /\
     audio.built st'' = audio.built st' /\
     audio.played st'' = audio.played st ++ [name; name]) /\
  audio._SOUND_CACHE (audio.set_audio_enabled false st) = [] /\
  audio.play name (audio.set_audio_enabled false st)
  = Some (audio.set_audio_enabled false st).
Proof.
  splits.
  - intros H. unfold audio.play. rewrite H. reflexivity.
  - intros Ha Hc Hs. unfold audio.play, audio._load_sound.
    rewrite Ha, Hc, Hs. reflexivity.
  - intros Ha Hk.
    destruct (play_known name st Ha Hk)
      as (st' & Hp & Hpl & Hb & Hc & He & Hm & _).
    assert (Ha' : audio.is_audio_available st' = true).
    { unfold audio.is_audio_available in *. rewrite He, Hm. exact Ha. }
    destruct (play_known name st' Ha' (or_introl Hc))
      as (st'' & Hp' & Hpl' & Hb' & _).
    exists st', st''. splits; try assumption.
    + rewrite Hb'.
      destruct (settings.lookup (audio._SOUND_CACHE st') name);
        [reflexivity | contradiction].
    + rewrite Hpl', Hpl, <- app_assoc. reflexivity.
  - reflexivity.
  - reflexivity.
Qed.

Lemma play_caches_witness :
  (audio.is_audio_available (audio.make false [] true [] []) = false /\
   audio.is_audio_available (audio.make true [] true [] []) = true /\
   settings.lookup (audio._SOUND_CACHE (audio.make true [] true [] []))
                   "boom" = None /\
   audio.sound_samples "boom" = None /\
   audio.sound_samples "hit" <> None) /\
  audio.play "boom" (audio.make false [] true [] [])
  = Some (audio.make false [] true [] []) /\
  audio.play "boom" (audio.make true [] true [] []) = None /\
  exists st' st'',
    audio.play "hit" (audio.make true [] true [] []) = Some st' /\
    audio.play "hit" st' = Some st'' /\
    audio.built st'' = ["hit"%string] /\
    audio.played st'' = ["hit"; "hit"]%string.
Proof.
  assert (H4 : audio.sound_samples "boom" = None) by reflexivity.
  assert (H5 : audio.sound_samples "hit" <> None) by discriminate.
  destruct (play_caches "boom" (audio.make false [] true [] []))
    as (Hoff & _).
  destruct (play_caches "boom" (audio.make true [] true [] []))
    as (_ & Hraise & _).
  destruct (play_caches "hit" (audio.make true [] true [] []))
    as (_ & _ & Hplay & _).
  destruct (Hplay eq_refl (or_intror H5))
    as (st' & st'' & Hp & _ & Hb & Hp' & Hb' & Hpl).
  split; [splits; try reflexivity; assumption |].
  split; [exact (Hoff eq_refl) |].
  split; [exact (Hraise eq_refl eq_refl H4) |].
  exists st', st''. splits; try assumption.
  rewrite Hb', Hb. reflexivity.
Defined.

(** *** The sounds of the world *)

Lemma update_sounds (s : GameWorld.t) (dt : R) (keys : Input) :
  extends (fun n => n = "shoot"%string \/ n = "hit"%string)
          (GameWorld.audio s)
          (GameWorld.audio (final (GameWorld.update s dt keys))).
Proof.
  pose proof (advance_shape dt keys s) as Ha. cbn zeta in Ha.
  destruct Ha as (new & _ & _ & Ha & _).
  pose proof (handle_collisions_keeps (GameWorld.advance dt keys s)) as Hk.
  cbn zeta in Hk. destruct Hk as (_ & _ & _ & _ & _ & _ & _ & Hh & _).
  destruct Hh as (hit_sounds & Hh & Hhits).
  assert (Hfin :
    GameWorld.audio (final (GameWorld.update s dt keys))
    = GameWorld.audio
        (final (GameWorld.handle_collisions (GameWorld.advance dt keys s)))).
  { destruct (update_cases s dt keys) as [-> | ->]; [reflexivity |].
    pose proof (settle_shape dt
                  (final (GameWorld.handle_collisions
                            (GameWorld.advance dt keys s)))) as Hs.
    cbn zeta in Hs. destruct Hs as (_ & _ & _ & _ & _ & -> & _).
    reflexivity. }
  rewrite Hfin, Hh, Ha, <- app_assoc.
  eexists. split; [reflexivity |]. apply Forall_app. split.
  - destruct new; repeat constructor.
  - eapply Forall_impl; [| exact Hhits]. cbn beta. auto.
Qed.

Lemma run_sounds (frames : list (R * Input)) :
  forall s : GameWorld.t,
  extends (fun n => n = "shoot"%string \/ n = "hit"%string)
          (GameWorld.audio s) (GameWorld.audio (final (run s frames))).
Proof.
  induction frames as [| [dt keys] rest IH]; intros s;
    [apply extends_refl |].
  rewrite run_cons, final_bind.
  pose proof (update_sounds s dt keys) as Hu.
  destruct (returned (GameWorld.update s dt keys)); [| exact Hu].
  eapply extends_trans; [exact Hu | apply IH].
Qed.

Lemma replay_known (names : list string) :
  Forall (fun n => audio.sound_samples n <> None) names ->
  forall st, exists st', audio.replay names st = Some st'.
Proof.
  intros H. induction H as [| n names Hn _ IH]; intros st;
    cbn [audio.replay]; [exists st; reflexivity |].
  destruct (audio.is_audio_available st) eqn:Ha.
  - destruct (play_known n st Ha (or_intror Hn)) as (st' & -> & _).
    apply IH.
  - unfold audio.play. rewrite Ha. cbn [negb]. apply IH.
Qed.

(** X26: the world only asks for sounds that exist.  The sounds that the
    frames of the main loop request are shots and hits, and [reset] requests
    at most the sound power; [audio.play] carried out for them in order, from
    any state of the audio module, never raises [ValueError]. *)
Theorem world_sounds_play (s : GameWorld.t) (frames : list (R * Input))
  (st : audio.t) :
  (exists sounds,
     GameWorld.audio (final (run s frames)) = GameWorld.audio s ++ sounds /\
     Forall (fun n => n = "shoot"%string \/ n = "hit"%string) sounds /\
     exists st', audio.replay sounds st = Some st') /\
  (forall s', GameWorld.reset s = Some s' ->
     exists sounds,
       GameWorld.audio s' = GameWorld.audio s ++ sounds /\
       (sounds = [] \/ sounds = ["power"%string]) /\
       exists st', audio.replay sounds st = Some st').
Proof.
  split.
  - destruct (run_sounds frames s) as (sounds & Hs & Hk).
    exists sounds. splits; [exact Hs | exact Hk |].
    apply replay_known. eapply Forall_impl; [| exact Hk]. cbn beta.
    intros n [-> | ->]; discriminate.
  - intros s' H. unfold GameWorld.reset in H.
    destruct (GameWorld.new (GameWorld.weapon_name s) (GameWorld.rng s)
                            (GameWorld.audio s)) as [s1 |] eqn:E;
      [| discriminate H].
    assert (Ha : GameWorld.audio s1 = GameWorld.audio s).
    { destruct (new_cases _ _ _ _ E)
        as [(_ & -> & _) | (n & w & _ & _ & _ & ->)]; reflexivity. }
    assert (Hplain : s' = s1 ->
              exists sounds,
                GameWorld.audio s' = GameWorld.audio s ++ sounds /\
                (sounds = [] \/ sounds = ["power"%string]) /\
                exists st', audio.replay sounds st = Some st').
    { intros ->. exists []. rewrite app_nil_r.
      splits; [exact Ha | left; reflexivity | exists st; reflexivity]. }
    destruct (GameWorld.weapon_name s) as [n |];
      [| injection H as <-; apply Hplain; reflexivity].
    destruct (String.eqb n EmptyString);
      injection H as <-; [apply Hplain; reflexivity |].
    exists ["power"%string]. splits.
    + cbn [GameWorld.audio GameWorld.play]. rewrite Ha. reflexivity.
    + right. reflexivity.
    + apply replay_known. repeat constructor. discriminate.
Qed.

Lemma world_sounds_play_witness :
  (exists s', GameWorld.reset Scenes.hunt = Some s') /\
  exists s' st',
    GameWorld.reset Scenes.hunt = Some s' /\
    GameWorld.audio s' = ["power"%string] /\
    audio.replay ["power"%string] (audio.make true [] true [] []) = Some st'.
Proof.
  assert (H : GameWorld.reset Scenes.hunt
              = Some (GameWorld.play "power"
                        (GameWorld.set_weapon Samples.solar_beam
                           Scenes.fresh))) by reflexivity.
  destruct (world_sounds_play Scenes.hunt [] (audio.make true [] true [] []))
    as (_ & Hreset).
  destruct (Hreset _ H) as (sounds & Ha & Hs & st' & Hp).
  split; [eexists; exact H |].
  assert (Hsounds : sounds = ["power"%string]).
  { cbn [GameWorld.audio GameWorld.play GameWorld.set_weapon Scenes.hunt
         Scenes.fresh GameWorld.init GameWorld.set_player
         GameWorld.set_weapon_name app] in Ha.
    symmetry. exact Ha. }
  subst sounds. eexists. exists st'. splits; [exact H | reflexivity | exact Hp].
Defined.

(** *** Notes *)

Lemma split_last_snoc (base : string) (c : Ascii.ascii) :
  audio.split_last (base ++ String c EmptyString) = Some (base, c).
Proof.
  induction base as [| b base IH]; [reflexivity |].
  cbn [String.append audio.split_last]. rewrite IH.
  destruct (base ++ String c EmptyString)%string eqn:E; [| reflexivity].
  destruct base; discriminate E.
Qed.

Lemma digit_of_nat (d : nat) :
  (d <= 9)%nat ->
  audio.digit (Ascii.ascii_of_nat (48 + d)) = Some (Z.of_nat d).
Proof.
  intros H. do 10 (destruct d as [| d]; [reflexivity |]). lia.
Qed.

Lemma Rpower_2_succ (x : R) : Rpower 2 (1 + x) = 2 * Rpower 2 x.
Proof. rewrite Rpower_plus, Rpower_1 by lra. reflexivity. Qed.

Lemma note_value (base : string) (semitone : Z) (d : nat) :
  audio.index audio.notes base = Some semitone -> (d <= 9)%nat ->
  audio._note_frequency
    (base ++ String (Ascii.ascii_of_nat (48 + d)) EmptyString)
  = Some (440 * Rpower 2 (IZR (Z.of_nat d - 4) + IZR (semitone - 9) / 12)).
Proof.
  intros Hi Hd. unfold audio._note_frequency.
  rewrite split_last_snoc, (digit_of_nat d Hd), Hi. reflexivity.
Qed.

(** X27: [_note_frequency] reads a note as a name of [notes] followed by one
    digit, the octave, and answers [440 * 2 ** ((octave - 4) + (semitone -
    9) / 12)]: 440 for A4, twice the frequency for the same note one octave
    up, and a positive frequency always.  A name without a digit at the end
    or with an unknown note raises.  Every note of the melody and of the
    bass line of the music loop is read without an exception. *)
Theorem note_frequencies (base : string) (semitone : Z) (d : nat)
  (c : Ascii.ascii) :
  (audio.index audio.notes base = Some semitone -> (d <= 9)%nat ->
   audio._note_frequency
     (base ++ String (Ascii.ascii_of_nat (48 + d)) EmptyString)
   = Some (440 * Rpower 2 (IZR (Z.of_nat d - 4) + IZR (semitone - 9) / 12))
   /\
   0 < 440 * Rpower 2 (IZR (Z.of_nat d - 4) + IZR (semitone - 9) / 12) /\
   440 * Rpower 2 (IZR (Z.of_nat (S d) - 4) + IZR (semitone - 9) / 12)
   = 2 * (440 * Rpower 2 (IZR (Z.of_nat d - 4) + IZR (semitone - 9) / 12)))
  /\
  (audio.index audio.notes base = None \/ audio.digit c = None ->
   audio._note_frequency (base ++ String c EmptyString) = None) /\
  audio._note_frequency EmptyString = None /\
  (exists f, audio._note_frequency "A4" = Some f /\ f = 440) /\
  Forall (fun n => audio._note_frequency n <> None)
         (audio.melody ++ audio.bass).
Proof.
  splits.
  - intros Hi Hd. splits; [apply note_value; assumption | |].
    + apply Rmult_lt_0_compat; [lra |]. unfold Rpower. apply exp_pos.
    + rewrite Nat2Z.inj_succ.
      replace (IZR (Z.succ (Z.of_nat d) - 4) + IZR (semitone - 9) / 12)
        with (1 + (IZR (Z.of_nat d - 4) + IZR (semitone - 9) / 12)).
      * rewrite Rpower_2_succ. ring.
      * rewrite !minus_IZR, succ_IZR. ring.
  - intros H. unfold audio._note_frequency. rewrite split_last_snoc.
    destruct (audio.digit c); [| reflexivity].
    destruct H as [H | H]; [rewrite H; reflexivity | discriminate H].
  - reflexivity.
  - exists (440 * Rpower 2 (IZR (Z.of_nat 4 - 4) + IZR (9 - 9) / 12)).
    split; [apply (note_value "A" 9 4); [reflexivity | lia] |].
    replace (IZR (Z.of_nat 4 - 4) + IZR (9 - 9) / 12) with 0.
    + rewrite Rpower_O by lra. ring.
    + replace (Z.of_nat 4 - 4)%Z with 0%Z by reflexivity.
      replace (9 - 9)%Z with 0%Z by reflexivity. lra.
  - repeat constructor; discriminate.
Qed.

Lemma note_frequencies_witness :
  (audio.index audio.notes "A" = Some 9%Z /\ (4 <= 9)%nat /\
   audio.index audio.notes "H" = None) /\
  audio._note_frequency "A4"
  = Some (440 * Rpower 2 (IZR (Z.of_nat 4 - 4) + IZR (9 - 9) / 12)) /\
  audio._note_frequency "H4" = None.
Proof.
  destruct (note_frequencies "A" 9 4 (Ascii.ascii_of_nat 52)) as (Hok & _).
  destruct (note_frequencies "H" 0 0 (Ascii.ascii_of_nat 52)) as (_ & Hbad & _).
  split; [splits; [reflexivity | lia | reflexivity] |].
  split; [exact (proj1 (Hok eq_refl ltac:(lia))) |].
  exact (Hbad (or_introl eq_refl)).
Defined.

End Sounds.

(** ** A frame that raises *)

Section Standstill.

Ltac splits := repeat match goal with |- _ /\ _ => split end.

(** A frame of no length on the sample world where a Sproutling has reached
    the player with a seed inside it: nothing moves, and the pass raises. *)
Lemma standstill :
  GameWorld.enemies (GameWorld.advance 0 idle Scenes.ambush)
  = [Scenes.sproutling Scenes.centre] /\
  GameWorld.bullets (GameWorld.advance 0 idle Scenes.ambush) = [Scenes.seed] /\
  GameWorld.player_rect (GameWorld.advance 0 idle Scenes.ambush)
  = GameWorld.player_rect Scenes.ambush.
Proof.
  pose proof (advance_shape 0 idle Scenes.ambush) as Ha. cbn zeta in Ha.
  destruct Ha as (new & _ & He & _ & _ & _ & _ & _ & _ & _ & _ & Hr & Hpos).
  pose proof (advance_idle 0 idle Scenes.ambush eq_refl) as Hb.
  assert (Hc : Player.position
                 (Player.keep_in_bounds
                    (Player.handle_input (GameWorld.player Scenes.ambush)
                                         idle 0)
                    (GameWorld.bounds Scenes.ambush)) = Scenes.centre).
  { unfold Player.keep_in_bounds, Player.handle_input.
    cbn [idle K_w K_UP K_s K_DOWN K_a K_LEFT K_d K_RIGHT orb].
    rewrite Rltb_false
      by (unfold Vector2.length_squared; cbn [Vector2.x Vector2.y]; lra).
    cbn [Player.position Player.set_position Player.radius Player.speed
         GameWorld.player GameWorld.bounds Scenes.ambush Scenes.hero
         Vector2.x Vector2.y Vector2.add Vector2.scale Scenes.centre].
    unfold Rect.left, Rect.right, Rect.top, Rect.bottom, Scenes.arena,
      settings.SCREEN_WIDTH, settings.SCREEN_HEIGHT, settings.PLAYER_SPEED.
    cbn [Rect.x Rect.y Rect.w Rect.h].
    change (0 + 24)%Z with 24%Z. change (0 + 960 - 24)%Z with 936%Z.
    change (0 + 540 - 24)%Z with 516%Z.
    unfold Scenes.centre.
    f_equal; (etransitivity; [apply clamp_inside |]); lra. }
  rewrite Hc in Hpos. splits.
  - rewrite He, Hpos. cbn [GameWorld.enemies Scenes.ambush map].
    f_equal. unfold Enemy.update, Scenes.sproutling, Scenes.centre.
    cbn [Enemy.position Enemy.speed Enemy.health Enemy.max_health Enemy.color
         Enemy.size Enemy.name Vector2.x Vector2.y].
    rewrite Rltb_false
      by (unfold Vector2.length_squared, Vector2.sub;
          cbn [Vector2.x Vector2.y]; lra).
    unfold Vector2.add, Vector2.scale, Vector2.sub. cbn [Vector2.x Vector2.y].
    f_equal; f_equal; lra.
  - rewrite Hb. cbn [GameWorld.bullets GameWorld.bounds Scenes.ambush map].
    assert (Hs : Bullet.update Scenes.seed 0 Scenes.arena = Scenes.seed).
    { unfold Bullet.update, Scenes.seed, Scenes.bullet_of, Scenes.centre,
        Bullet.set_position, Vector2.add, Vector2.scale,
        Samples.seed_blaster.
      cbn [Bullet.alive negb Bullet.position Bullet.velocity Bullet.color
           Bullet.damage Bullet.radius Bullet.pierce Weapon.bullet_speed
           Weapon.color Weapon.bullet_damage Weapon.pierce Vector2.x
           Vector2.y].
      unfold Rect.collidepoint.
      rewrite (py_int_eq 480) by lra. rewrite (py_int_eq 270) by lra.
      match goal with
      | |- context [negb ?c] => replace c with true by reflexivity
      end.
      cbn [negb]. f_equal. f_equal; lra. }
    rewrite Hs. reflexivity.
  - unfold GameWorld.player_rect. rewrite Hr, Hpos. reflexivity.
Qed.

Lemma standstill_raises :
  returned (GameWorld.update Scenes.ambush 0 idle) = false.
Proof.
  rewrite update_returned.
  destruct standstill as (He & Hb & Hr).
  pose proof ambush_contact as Hc. rewrite <- Hr in Hc.
  pose proof ambush_hit as Hh.
  change (GameWorld.bullets Scenes.ambush) with [Scenes.seed] in Hh.
  rewrite <- Hb in Hh.
  generalize dependent (GameWorld.advance 0 idle Scenes.ambush).
  intros s1 He Hb Hr Hc Hh.
  destruct (contact_then_hit s1 (Scenes.sproutling Scenes.centre) 0
              Scenes.seed He Hc Hh) as (s' & -> & _); [| reflexivity].
  cbn [Bullet.damage Scenes.seed Scenes.bullet_of Samples.seed_blaster
       Weapon.bullet_damage]. lra.
Qed.

End Standstill.

(** ** The frame in which the player dies *)

Section LastStand.

Ltac splits := repeat match goal with |- _ /\ _ => split end.

(** The sample world where a Sproutling stands on a player with 10 health
    left: in one frame nothing moves and no bullet appears. *)
Lemma last_stand_advance :
  GameWorld.enemies (GameWorld.advance Scenes.tick idle Scenes.last_stand)
  = [Scenes.sproutling Scenes.centre] /\
  GameWorld.bullets (GameWorld.advance Scenes.tick idle Scenes.last_stand)
  = [] /\
  GameWorld.player_rect (GameWorld.advance Scenes.tick idle Scenes.last_stand)
  = Rect.make 456 246 48 48 /\
  Player.health
    (GameWorld.player (GameWorld.advance Scenes.tick idle Scenes.last_stand))
  = 10%Z.
Proof.
  pose proof (advance_shape Scenes.tick idle Scenes.last_stand) as Ha.
  cbn zeta in Ha.
  destruct Ha as (new & _ & He & _ & _ & _ & _ & _ & _ & _ & Hh & Hr & Hpos).
  pose proof (advance_idle Scenes.tick idle Scenes.last_stand eq_refl) as Hb.
  assert (Hc : Player.position
                 (Player.keep_in_bounds
                    (Player.handle_input (GameWorld.player Scenes.last_stand)
                                         idle Scenes.tick)
                    (GameWorld.bounds Scenes.last_stand)) = Scenes.centre).
  { unfold Player.keep_in_bounds, Player.handle_input.
    cbn [idle K_w K_UP K_s K_DOWN K_a K_LEFT K_d K_RIGHT orb].
    rewrite Rltb_false
      by (unfold Vector2.length_squared; cbn [Vector2.x Vector2.y]; lra).
    cbn [Player.position Player.set_position Player.radius Player.speed
         GameWorld.player GameWorld.bounds Scenes.last_stand Scenes.hero
         Vector2.x Vector2.y Vector2.add Vector2.scale Scenes.centre].
    unfold Rect.left, Rect.right, Rect.top, Rect.bottom, Scenes.arena,
      settings.SCREEN_WIDTH, settings.SCREEN_HEIGHT, settings.PLAYER_SPEED.
    cbn [Rect.x Rect.y Rect.w Rect.h].
    change (0 + 24)%Z with 24%Z. change (0 + 960 - 24)%Z with 936%Z.
    change (0 + 540 - 24)%Z with 516%Z.
    unfold Scenes.centre, Scenes.tick.
    f_equal; (etransitivity; [apply clamp_inside |]); lra. }
  rewrite Hc in Hpos. splits.
  - rewrite He, Hpos. cbn [GameWorld.enemies Scenes.last_stand map].
    f_equal. unfold Enemy.update, Scenes.sproutling, Scenes.centre.
    cbn [Enemy.position Enemy.speed Enemy.health Enemy.max_health Enemy.color
         Enemy.size Enemy.name Vector2.x Vector2.y].
    rewrite Rltb_false
      by (unfold Vector2.length_squared, Vector2.sub;
          cbn [Vector2.x Vector2.y]; lra).
    unfold Vector2.add, Vector2.scale, Vector2.sub, Scenes.tick.
    cbn [Vector2.x Vector2.y].
    f_equal; f_equal; lra.
  - rewrite Hb. reflexivity.
  - unfold GameWorld.player_rect, Rect.set_center. rewrite Hr, Hpos.
    unfold Scenes.centre.
    cbn [GameWorld.player Scenes.last_stand Scenes.hero Player.radius
         Vector2.x Vector2.y Rect.w Rect.h].
    rewrite !py_int_IZR. reflexivity.
  - rewrite Hh. reflexivity.
Qed.

(** The collision pass of that frame takes the last 10 health. *)
Lemma last_stand_falls :
  Player.health
    (GameWorld.player
       (final (GameWorld.handle_collisions
                 (GameWorld.advance Scenes.tick idle Scenes.last_stand))))
  = 0%Z.
Proof.
  destruct last_stand_advance as (He & Hb & Hr & Hh).
  generalize dependent
    (GameWorld.advance Scenes.tick idle Scenes.last_stand).
  intros s1 He Hb Hr Hh.
  destruct (pass_without_bullets s1 Hb) as (_ & ->).
  rewrite (snapshot_one s1 _ He), Hr, Hh.
  cbn [filter]. unfold touches, Scenes.centre. cbn [snd].
  rewrite (sproutling_rect 480 270). reflexivity.
Qed.

Lemma dead_player_halts_spawner_witness :
  ((Player.health (GameWorld.player Scenes.fallen) <= 0)%Z /\
   GameWorld.spawn_timer Scenes.fallen = 1) /\
  (GameWorld.spawn_timer
     (final (GameWorld.update Scenes.fallen Scenes.tick idle)) = 1 /\
   GameWorld.spawn_interval
     (final (GameWorld.update Scenes.fallen Scenes.tick idle)) = 1.4 /\
   GameWorld.elapsed
     (final (GameWorld.update Scenes.fallen Scenes.tick idle)) = 30 + 1 / 60 /\
   (List.length
      (GameWorld.enemies
         (final (GameWorld.update Scenes.fallen Scenes.tick idle)))
    <= 1)%nat) /\
  ((0 < Player.health (GameWorld.player Scenes.last_stand))%Z /\
   GameWorld.spawn_timer Scenes.last_stand - Scenes.tick <= 0 /\
   (Player.health
      (GameWorld.player
         (final (GameWorld.handle_collisions
                   (GameWorld.advance Scenes.tick idle Scenes.last_stand))))
    <= 0)%Z) /\
  (Player.health
     (GameWorld.player
        (final (GameWorld.update Scenes.last_stand Scenes.tick idle))) = 0%Z /\
   GameWorld.spawn_timer
     (final (GameWorld.update Scenes.last_stand Scenes.tick idle)) = 0 /\
   GameWorld.spawn_interval
     (final (GameWorld.update Scenes.last_stand Scenes.tick idle)) = 1.4 /\
   GameWorld.elapsed
     (final (GameWorld.update Scenes.last_stand Scenes.tick idle))
   = 30 + 1 / 60 /\
   (List.length
      (GameWorld.enemies
         (final (GameWorld.update Scenes.last_stand Scenes.tick idle)))
    <= 1)%nat).
Proof.
  assert (Hh : (Player.health (GameWorld.player Scenes.fallen) <= 0)%Z)
    by (cbn; lia).
  assert (Hf : (Player.health
                  (GameWorld.player
                     (final (GameWorld.handle_collisions
                               (GameWorld.advance Scenes.tick idle
                                                  Scenes.last_stand))))
                <= 0)%Z)
    by (rewrite last_stand_falls; lia).
  destruct (dead_player_halts_spawner Scenes.fallen Scenes.tick idle
              (or_introl Hh)) as (_ & _ & Ht & Hi & He & _ & Hn & _).
  destruct (dead_player_halts_spawner Scenes.last_stand Scenes.tick idle
              (or_intror Hf)) as (_ & Lh & Lt & Li & Le & _ & Ln & _).
  rewrite last_stand_falls in Lh.
  split; [split; [exact Hh | reflexivity] |].
  split; [splits; assumption |].
  split.
  - splits; [cbn; lia | | exact Hf].
    unfold Scenes.last_stand, Scenes.tick, GameWorld.spawn_timer. lra.
  - splits; assumption.
Defined.

End LastStand.

(** * The menu and the loop of [main] *)

Section Menu.

Import main.

Ltac splits := repeat match goal with |- _ /\ _ => split end.

Lemma highlight_cases (h : Z) :
  (0 <= h < Z.of_nat (List.length weapon_names))%Z ->
  h = 0%Z \/ h = 1%Z \/ h = 2%Z.
Proof. cbn. lia. Qed.

Lemma move_in_range (key : Key) (h : Z) :
  (0 <= h < Z.of_nat (List.length weapon_names))%Z ->
  (0 <= move key h < Z.of_nat (List.length weapon_names))%Z.
Proof.
  intros H. destruct (highlight_cases h H) as [-> | [-> | ->]];
    destruct key; cbn; lia.
Qed.

(** Starting the game from a valid highlight. *)
Lemma start_game (h : Z) (g : Random.t) (log : list string) :
  (0 <= h < Z.of_nat (List.length weapon_names))%Z ->
  exists name w,
    item weapon_names h = Some name /\
    nth_error weapon_names (Z.to_nat h) = Some name /\
    create_weapon name = Some w /\
    GameWorld.new (Some name) g log
    = Some (GameWorld.set_weapon w (GameWorld.init g log)).
Proof.
  intros H. destruct (highlight_cases h H) as [-> | [-> | ->]];
    eexists; eexists; splits; reflexivity.
Qed.

(** X28: the menu.  With the highlight on one of the weapons, every key
    leaves it on one of them; up and down step through the list and wrap
    around, each undoing the other; 1, 2 and 3 go to the first, second and
    third weapon.  Escape and Q leave the program.  Return, Space and the
    digits start the game, and that cannot fail: the world is built anew
    with the weapon under the highlight as it is after the key, the sound
    power is requested, and the state becomes running; any other key keeps
    the menu and its world. *)
Theorem menu_keys (a : App) (key : Key) :
  state a = menu ->
  (0 <= highlighted a < Z.of_nat (List.length weapon_names))%Z ->
  let h := move key (highlighted a) in
  (0 <= h < Z.of_nat (List.length weapon_names))%Z /\
  move K_DOWN (move K_UP (highlighted a)) = highlighted a /\
  move K_UP (move K_DOWN (highlighted a)) = highlighted a /\
  move K_1 (highlighted a) = 0%Z /\ move K_2 (highlighted a) = 1%Z /\
  move K_3 (highlighted a) = 2%Z /\
  (quits key = true -> handle_event a (KEYDOWN key) = Exits) /\
  (quits key = false -> starts key = false ->
   handle_event a (KEYDOWN key) = Goes (mkApp menu h (world a))) /\
  (starts key = true ->
   exists name w,
     nth_error weapon_names (Z.to_nat h) = Some name /\
     create_weapon name = Some w /\
     handle_event a (KEYDOWN key)
     = Goes (mkApp running h
               (GameWorld.play "power"
                  (GameWorld.set_weapon w
                     (GameWorld.init (GameWorld.rng (world a))
                                     (GameWorld.audio (world a))))))).
Proof.
  intros Hs Hh. cbn zeta.
  pose proof (move_in_range key _ Hh) as Hm.
  splits; try exact (proj1 Hm); try exact (proj2 Hm).
  - destruct (highlight_cases _ Hh) as [-> | [-> | ->]]; reflexivity.
  - destruct (highlight_cases _ Hh) as [-> | [-> | ->]]; reflexivity.
  - reflexivity.
  - reflexivity.
  - reflexivity.
  - intros Hq. unfold handle_event. rewrite Hs, Hq. reflexivity.
  - intros Hq Hst. unfold handle_event. rewrite Hs, Hq, Hst. reflexivity.
  - intros Hst.
    assert (Hq : quits key = false) by (destruct key; try reflexivity;
                                        discriminate Hst).
    destruct (start_game _ (GameWorld.rng (world a))
                (GameWorld.audio (world a)) Hm)
      as (name & w & Hi & Hn & Hc & Hnew).
    exists name, w. splits; [exact Hn | exact Hc |].
    unfold handle_event. rewrite Hs, Hq, Hst, Hi, Hnew. reflexivity.
Qed.

Lemma menu_keys_witness :
  (state (start Scenes.still []) = menu /\
   (0 <= highlighted (start Scenes.still [])
    < Z.of_nat (List.length weapon_names))%Z /\
   quits K_q = true /\ quits K_UP = false /\ starts K_UP = false /\
   starts K_3 = true) /\
  handle_event (start Scenes.still []) (KEYDOWN K_q) = Exits /\
  handle_event (start Scenes.still []) (KEYDOWN K_UP)
  = Goes (mkApp menu 2 Scenes.fresh) /\
  exists w,
    create_weapon "Solar Beam" = Some w /\
    handle_event (start Scenes.still []) (KEYDOWN K_3)
    = Goes (mkApp running 2
              (GameWorld.play "power" (GameWorld.set_weapon w Scenes.fresh))).
Proof.
  assert (Hh : (0 <= highlighted (start Scenes.still [])
                < Z.of_nat (List.length weapon_names))%Z) by (cbn; lia).
  destruct (menu_keys (start Scenes.still []) K_q eq_refl Hh)
    as (_ & _ & _ & _ & _ & _ & Hquit & _).
  destruct (menu_keys (start Scenes.still []) K_UP eq_refl Hh)
    as (_ & _ & _ & _ & _ & _ & _ & Hstay & _).
  destruct (menu_keys (start Scenes.still []) K_3 eq_refl Hh)
    as (_ & _ & _ & _ & _ & _ & _ & _ & Hgo).
  destruct (Hgo eq_refl) as (name & w & Hn & Hc & Hev).
  injection Hn as <-.
  split; [splits; try reflexivity; exact Hh |].
  splits; [exact (Hquit eq_refl) | exact (Hstay eq_refl eq_refl) |].
  exists w. split; [exact Hc | exact Hev].
Defined.

(** [reset] on a world whose weapon name, if any, is one of the menu. *)
Lemma reset_named (w : GameWorld.t) :
  match GameWorld.weapon_name w with
  | None => True
  | Some n => In n weapon_names
  end ->
  exists w',
    GameWorld.reset w = Some w' /\
    GameWorld.weapon_name w' = GameWorld.weapon_name w /\
    Player.health (GameWorld.player w') = 100%Z /\
    GameWorld.enemies w' = [] /\ GameWorld.bullets w' = [] /\
    GameWorld.score w' = 0%Z /\ GameWorld.elapsed w' = 0.
Proof.
  intros H. unfold GameWorld.reset.
  destruct (GameWorld.weapon_name w) as [n |] eqn:E.
  - cbn in H. destruct H as [<- | [<- | [<- | []]]];
      eexists; (split; [reflexivity |]); splits; reflexivity.
  - eexists. split; [reflexivity |]. splits; reflexivity.
Qed.

(** X29: the keys of a running game.  Escape goes back to the menu with a
    world built anew without a weapon, keeps the highlight and requests the
    sound power.  R does nothing while the player is alive; once the player
    is dead it resets the world, which cannot fail for a world whose weapon
    name comes from the menu: the game goes on running with the same weapon
    name, full health, no enemies or bullets, score and clock at 0.  Any
    other key changes nothing. *)
Theorem running_keys (a : App) (key : Key) :
  state a = running ->
  match GameWorld.weapon_name (world a) with
  | None => True
  | Some n => In n weapon_names
  end ->
  (key = K_ESCAPE ->
   handle_event a (KEYDOWN key)
   = Goes (mkApp menu (highlighted a)
             (GameWorld.play "power"
                (GameWorld.init (GameWorld.rng (world a))
                                (GameWorld.audio (world a)))))) /\
  (key = K_r -> (0 < Player.health (GameWorld.player (world a)))%Z ->
   handle_event a (KEYDOWN key) = Goes a) /\
  (key = K_r -> (Player.health (GameWorld.player (world a)) <= 0)%Z ->
   exists w,
     GameWorld.reset (world a) = Some w /\
     handle_event a (KEYDOWN key) = Goes (mkApp running (highlighted a) w) /\
     GameWorld.weapon_name w = GameWorld.weapon_name (world a) /\
     Player.health (GameWorld.player w) = 100%Z /\
     GameWorld.enemies w = [] /\ GameWorld.bullets w = [] /\
     GameWorld.score w = 0%Z /\ GameWorld.elapsed w = 0) /\
  (key <> K_ESCAPE -> key <> K_r -> handle_event a (KEYDOWN key) = Goes a).
Proof.
  intros Hs Hn. splits.
  - intros ->. unfold handle_event. rewrite Hs. reflexivity.
  - intros -> Hh. unfold handle_event. rewrite Hs.
    apply Z.leb_gt in Hh. rewrite Hh. reflexivity.
  - intros -> Hh. unfold handle_event. rewrite Hs.
    apply Z.leb_le in Hh. rewrite Hh.
    destruct (reset_named (world a) Hn) as (w & Hr & Hw & Hrest).
    exists w. rewrite Hr. splits; try assumption; try reflexivity;
      apply Hrest.
  - intros H1 H2. unfold handle_event. rewrite Hs.
    destruct key; try reflexivity; contradiction.
Qed.

Lemma running_keys_witness :
  (state (mkApp running 0 Scenes.fallen) = running /\
   In "Seed Blaster"%string weapon_names /\
   (Player.health (GameWorld.player Scenes.fallen) <= 0)%Z /\
   (0 < Player.health (GameWorld.player Scenes.ambush))%Z) /\
  handle_event (mkApp running 0 Scenes.ambush) (KEYDOWN K_r)
  = Goes (mkApp running 0 Scenes.ambush) /\
  handle_event (mkApp running 0 Scenes.ambush) (KEYDOWN K_w)
  = Goes (mkApp running 0 Scenes.ambush) /\
  exists w,
    handle_event (mkApp running 0 Scenes.fallen) (KEYDOWN K_r)
    = Goes (mkApp running 0 w) /\
    Player.health (GameWorld.player w) = 100%Z /\
    GameWorld.weapon_name w = Some "Seed Blaster"%string.
Proof.
  assert (Hin : In "Seed Blaster"%string weapon_names) by (cbn; auto).
  assert (Hdead : (Player.health (GameWorld.player Scenes.fallen) <= 0)%Z)
    by (cbn; lia).
  assert (Halive : (0 < Player.health (GameWorld.player Scenes.ambush))%Z)
    by (cbn; lia).
  destruct (running_keys (mkApp running 0 Scenes.ambush) K_r eq_refl Hin)
    as (_ & Hidle & _).
  destruct (running_keys (mkApp running 0 Scenes.ambush) K_w eq_refl Hin)
    as (_ & _ & _ & Hother).
  destruct (running_keys (mkApp running 0 Scenes.fallen) K_r eq_refl Hin)
    as (_ & _ & Hreset & _).
  destruct (Hreset eq_refl Hdead) as (w & _ & Hev & Hw & Hh & _).
  split; [splits; [reflexivity | exact Hin | exact Hdead | exact Halive] |].
  splits; [exact (Hidle eq_refl Halive) | apply Hother; discriminate |].
  exists w. splits; [exact Hev | exact Hh | exact Hw].
Defined.

(** *** The loop *)

Lemma handle_event_steady (a : App) (e : Event) :
  steady a ->
  handle_event a e <> Fails /\
  forall a', handle_event a e = Goes a' -> steady a'.
Proof.
  intros [Hh Hn]. destruct e as [| key |].
  - split; [discriminate | intros a' H; discriminate H].
  - destruct (state a) eqn:Hs.
    + (* menu *)
      destruct (quits key) eqn:Hq.
      * unfold handle_event. rewrite Hs, Hq.
        split; [discriminate | intros a' H; discriminate H].
      * pose proof (move_in_range key _ Hh) as Hm.
        destruct (starts key) eqn:Hst.
        -- destruct (start_game _ (GameWorld.rng (world a))
                       (GameWorld.audio (world a)) Hm)
             as (name & w & Hi & Hnth & Hc & Hnew).
           unfold handle_event. rewrite Hs, Hq, Hst, Hi, Hnew.
           split; [discriminate |]. intros a' H. injection H as <-.
           split; [exact Hm |].
           destruct (create_weapon_name name w Hc) as (Hname & _).
           cbn [world GameWorld.weapon_name GameWorld.play
                GameWorld.set_weapon GameWorld.set_player
                GameWorld.set_weapon_name].
           rewrite Hname. apply (nth_error_In _ _ Hnth).
        -- unfold handle_event. rewrite Hs, Hq, Hst.
           split; [discriminate |]. intros a' H. injection H as <-.
           split; [exact Hm | exact Hn].
    + (* running *)
      assert (Hesc : steady
                       (mkApp menu (highlighted a)
                          (GameWorld.play "power"
                             (GameWorld.init (GameWorld.rng (world a))
                                             (GameWorld.audio (world a)))))).
      { split; [exact Hh | exact I]. }
      unfold handle_event. rewrite Hs.
      destruct key;
        try (split; [discriminate |]; intros a' H; injection H as <-;
             first [exact Hesc | split; assumption]).
      (* R *)
      destruct (Player.health (GameWorld.player (world a)) <=? 0)%Z.
      * destruct (reset_named (world a) Hn) as (w & -> & Hw & _).
        split; [discriminate |]. intros a' H. injection H as <-.
        split; [exact Hh |]. cbn [world]. rewrite Hw. exact Hn.
      * split; [discriminate |]. intros a' H. injection H as <-.
        split; assumption.
  - split; [discriminate |]. intros a' H. injection H as <-.
    split; assumption.
Qed.

Lemma handle_events_steady (events : list Event) :
  forall a : App,
  steady a ->
  handle_events a events <> Fails /\
  forall a', handle_events a events = Goes a' -> steady a'.
Proof.
  induction events as [| e events IH]; intros a Ha; cbn [handle_events].
  - split; [discriminate |]. intros a' H. injection H as <-. exact Ha.
  - destruct (handle_event_steady a e Ha) as (Hok & Hnext).
    destruct (handle_event a e) as [a1 | |].
    + apply IH. apply Hnext. reflexivity.
    + split; [discriminate | intros a' H; discriminate H].
    + contradiction.
Qed.

Lemma frame_steady (a : App) (events : list Event) (dt : R) (keys : Input) :
  steady a ->
  (forall a', frame a events dt keys = Goes a' -> steady a') /\
  (frame a events dt keys = Fails ->
   exists a',
     handle_events a events = Goes a' /\ state a' = running /\
     returned (GameWorld.update (world a') dt keys) = false).
Proof.
  intros Ha. destruct (handle_events_steady events a Ha) as (Hok & Hnext).
  unfold frame. destruct (handle_events a events) as [a1 | |].
  - specialize (Hnext a1 eq_refl). destruct Hnext as [Hh Hn].
    destruct (state a1) eqn:Hs.
    + split; [| intros H; discriminate H].
      intros a' H. injection H as <-. split; assumption.
    + pose proof (update_player (world a1) dt keys) as Hp. cbn zeta in Hp.
      destruct Hp as (_ & _ & _ & Hw).
      destruct (GameWorld.update (world a1) dt keys) as [w | w] eqn:Hu;
        cbn [final] in Hw.
      * split; [| intros H; discriminate H].
        intros a' H. injection H as <-. split; [exact Hh |].
        cbn [world]. rewrite Hw. exact Hn.
      * split; [intros a' H; discriminate H |].
        intros _. exists a1. rewrite Hu.
        splits; [reflexivity | exact Hs | reflexivity].
  - split; [intros a' H; discriminate H | intros H; discriminate H].
  - contradiction.
Qed.

Lemma loop_steady (turns : list (list Event * R * Input)) :
  forall a : App,
  steady a -> forall a', loop a turns = Goes a' -> steady a'.
Proof.
  induction turns as [| [[events dt] keys] turns IH]; intros a Ha a' H;
    cbn [loop] in H.
  - injection H as <-. exact Ha.
  - destruct (frame_steady a events dt keys Ha) as (Hnext & _).
    destruct (frame a events dt keys) as [a1 | |]; try discriminate H.
    exact (IH a1 (Hnext a1 eq_refl) a' H).
Qed.

(** X30: the loop of [main] keeps its variables in order.  From the start,
    whatever the events and the input, the highlight stays an index of the
    weapon list and the world's weapon name, if any, stays one of the list;
    in such a state no event can raise, neither the [IndexError] of
    [weapon_names[highlighted]], nor the [KeyError] of an unknown weapon in
    [GameWorld(weapon_name)] or in [reset]; so a turn of the loop fails only
    when the game is running and [world.update] raises. *)
Theorem main_loop_steady (g : Random.t) (log : list string)
  (turns : list (list Event * R * Input)) (a : App) (events : list Event)
  (dt : R) (keys : Input) :
  steady (start g log) /\
  (forall a', loop (start g log) turns = Goes a' -> steady a') /\
  (steady a ->
   handle_events a events <> Fails /\
   (forall a', handle_events a events = Goes a' -> steady a') /\
   (forall a', frame a events dt keys = Goes a' -> steady a') /\
   (frame a events dt keys = Fails ->
    exists a',
      handle_events a events = Goes a' /\ state a' = running /\
      returned (GameWorld.update (world a') dt keys) = false)).
Proof.
  assert (Hstart : steady (start g log)).
  { split; [cbn; lia | exact I]. }
  splits.
  - exact Hstart.
  - apply loop_steady. exact Hstart.
  - intros Ha.
    destruct (handle_events_steady events a Ha) as (H1 & H2).
    destruct (frame_steady a events dt keys Ha) as (H3 & H4).
    splits; assumption.
Qed.

Lemma main_loop_steady_witness :
  (steady (start Scenes.still []) /\
   steady (mkApp running 0 Scenes.ambush) /\
   (exists w,
      loop (start Scenes.still [])
           [([KEYDOWN K_DOWN], Scenes.tick, idle);
            ([KEYDOWN K_RETURN; KEYDOWN K_ESCAPE], Scenes.tick, idle)]
      = Goes (mkApp menu 1 w)) /\
   frame (start Scenes.still []) [KEYDOWN K_DOWN] Scenes.tick idle
   = Goes (mkApp menu 1 Scenes.fresh) /\
   frame (mkApp running 0 Scenes.ambush) [] 0 idle = Fails) /\
  handle_events (start Scenes.still []) [KEYDOWN K_DOWN; KEYDOWN K_RETURN]
  <> Fails /\
  steady (mkApp menu 1 Scenes.fresh) /\
  exists a',
    handle_events (mkApp running 0 Scenes.ambush) [] = Goes a' /\
    state a' = running /\
    returned (GameWorld.update (world a') 0 idle) = false.
Proof.
  assert (Hfresh : steady (start Scenes.still [])).
  { split; [cbn; lia | exact I]. }
  assert (Hambush : steady (mkApp running 0 Scenes.ambush)).
  { split; cbn; [lia | auto]. }
  assert (Hloop : exists w,
            loop (start Scenes.still [])
                 [([KEYDOWN K_DOWN], Scenes.tick, idle);
                  ([KEYDOWN K_RETURN; KEYDOWN K_ESCAPE], Scenes.tick, idle)]
            = Goes (mkApp menu 1 w)).
  { eexists. reflexivity. }
  assert (Hdown : frame (start Scenes.still []) [KEYDOWN K_DOWN] Scenes.tick
                        idle = Goes (mkApp menu 1 Scenes.fresh))
    by reflexivity.
  assert (Hfail : frame (mkApp running 0 Scenes.ambush) [] 0 idle = Fails).
  { unfold frame. cbn [handle_events state world].
    pose proof standstill_raises as Hr.
    destruct (GameWorld.update Scenes.ambush 0 idle);
      [discriminate Hr | reflexivity]. }
  destruct (main_loop_steady Scenes.still [] [] (start Scenes.still [])
              [KEYDOWN K_DOWN; KEYDOWN K_RETURN] Scenes.tick idle)
    as (_ & _ & Hsteady).
  destruct (Hsteady Hfresh) as (Hok & _).
  destruct (main_loop_steady Scenes.still [] [] (start Scenes.still [])
              [KEYDOWN K_DOWN] Scenes.tick idle) as (_ & _ & Hs1).
  destruct (Hs1 Hfresh) as (_ & _ & Hf1 & _).
  destruct (main_loop_steady Scenes.still [] []
              (mkApp running 0 Scenes.ambush) [] 0 idle) as (_ & _ & Hs2).
  destruct (Hs2 Hambush) as (_ & _ & _ & Hwhy).
  split; [splits; assumption |].
  splits; [exact Hok | exact (Hf1 _ Hdown) | exact (Hwhy Hfail)].
Defined.

End Menu.
